(** * generate_ddo_entries: the dictionary-page extraction engine

    A shallow embedding of [generate_ddo_entries.py].  A page is taken as
    the tree BeautifulSoup hands to the script; every function of the
    script is a Rocq function of the same name over that tree.  Python
    [str] values are sequences of Unicode code points, [print] writes to a
    log, and an [AttributeError] on [None] is an explicit result. *)

From Stdlib Require Import String Ascii.
From Stdlib Require Import List NArith Bool Arith Lia.
From Stdlib Require Import Permutation Sorted DecimalString.
Import ListNotations.

(* ================================================================== *)
(** * Python strings *)
(* ================================================================== *)

Module PyStr.

(** A Python [str] is a sequence of code points. *)
Definition char := N.
Definition str := list char.

(** ASCII literals; other letters are given by code point. *)
Definition py (s : string) : str :=
  map N_of_ascii (list_ascii_of_string s).

Definition ae_lower : char := 230%N.
Definition oslash_lower : char := 248%N.
Definition aring_lower : char := 229%N.
Definition ae_upper : char := 198%N.
Definition oslash_upper : char := 216%N.
Definition aring_upper : char := 197%N.
Definition newline : char := 10%N.

Fixpoint str_eqb (a b : str) : bool :=
  match a, b with
  | [], [] => true
  | x :: a', y :: b' => N.eqb x y && str_eqb a' b'
  | _, _ => false
  end.

(** [s in xs] for a collection of strings. *)
Definition str_in (s : str) (xs : list str) : bool := existsb (str_eqb s) xs.

(** [str.isspace] of one character (Unicode 14, as in CPython 3.11). *)
Definition whitespace_table : list char :=
  [9; 10; 11; 12; 13; 28; 29; 30; 31; 32; 133; 160; 5760; 8192; 8193; 8194;
   8195; 8196; 8197; 8198; 8199; 8200; 8201; 8202; 8232; 8233; 8239; 8287;
   12288]%N.

Definition isspace (c : char) : bool := existsb (N.eqb c) whitespace_table.

(** The characters [\d] matches in a [str] pattern: general category Nd.
    Each entry is the zero of a block of ten consecutive digits. *)
Definition digit_zero_table : list char :=
  [48; 1632; 1776; 1984; 2406; 2534; 2662; 2790; 2918; 3046; 3174; 3302;
   3430; 3558; 3664; 3792; 3872; 4160; 4240; 6112; 6160; 6470; 6608; 6784;
   6800; 6992; 7088; 7232; 7248; 42528; 43216; 43264; 43472; 43504; 43600;
   44016; 65296; 66720; 68912; 69734; 69872; 69942; 70096; 70384; 70736;
   70864; 71248; 71360; 71472; 71904; 72016; 72784; 73040; 73120; 92768;
   92864; 93008; 120782; 120792; 120802; 120812; 120822; 123200; 123632;
   125264; 130032]%N.

Definition isdigit (c : char) : bool :=
  existsb (fun z => N.leb z c && N.ltb c (z + 10)) digit_zero_table.

Fixpoint drop_while (p : char -> bool) (s : str) : str :=
  match s with
  | [] => []
  | c :: s' => if p c then drop_while p s' else s
  end.

Definition lstrip_by (p : char -> bool) (s : str) : str := drop_while p s.
Definition rstrip_by (p : char -> bool) (s : str) : str :=
  rev (drop_while p (rev s)).

(** [s.strip()] *)
Definition strip (s : str) : str := rstrip_by isspace (lstrip_by isspace s).

(** [s.strip(chars)] *)
Definition strip_chars (chars : str) (s : str) : str :=
  let p c := existsb (N.eqb c) chars in
  rstrip_by p (lstrip_by p s).

(** [sep.join(xs)] *)
Fixpoint join (sep : str) (xs : list str) : str :=
  match xs with
  | [] => []
  | [x] => x
  | x :: xs' => x ++ sep ++ join sep xs'
  end.

(** [s.split(c)] for a one-character separator. *)
Fixpoint split (c : char) (s : str) : list str :=
  match s with
  | [] => [[]]
  | x :: s' =>
      if N.eqb x c then [] :: split c s'
      else match split c s' with
           | h :: t => (x :: h) :: t
           | [] => [[x]]
           end
  end.

Fixpoint startswith (s p : str) : bool :=
  match p, s with
  | [], _ => true
  | y :: p', x :: s' => N.eqb x y && startswith s' p'
  | _ :: _, [] => false
  end.

Definition endswith (s p : str) : bool := startswith (rev s) (rev p).

(** Python compares strings code point by code point. *)
Fixpoint str_leb (a b : str) : bool :=
  match a, b with
  | [], _ => true
  | _ :: _, [] => false
  | x :: a', y :: b' => N.ltb x y || (N.eqb x y && str_leb a' b')
  end.

Definition str_le (a b : str) : Prop := str_leb a b = true.

Fixpoint insert_sorted (x : str) (l : list str) : list str :=
  match l with
  | [] => [x]
  | y :: l' => if str_leb x y then x :: l else y :: insert_sorted x l'
  end.

(** [sorted(names)]: the order of the result does not depend on the sorting
    algorithm, the order of strings being total and antisymmetric. *)
Definition sorted (l : list str) : list str := fold_right insert_sorted [] l.

(** The last and the first character of a string, tested by [p]. *)
Definition ends_with (p : char -> bool) (s : str) : bool :=
  match rev s with
  | c :: _ => p c
  | [] => false
  end.

Definition starts_with (p : char -> bool) (s : str) : bool :=
  match s with
  | c :: _ => p c
  | [] => false
  end.

(** [str(n)] for a length. *)
Definition str_of_nat (n : nat) : str :=
  py (NilEmpty.string_of_uint (Nat.to_uint n)).

End PyStr.
Export PyStr.

(* ================================================================== *)
(** * The three patterns of the script *)
(* ================================================================== *)

Module Re.

(** [DIGITS_TRAIL_RE.sub("", s)] with [DIGITS_TRAIL_RE = \d+$].  Without
    MULTILINE, [$] matches at the end of the string and also just before a
    newline that ends the string; the leftmost match is then the whole run
    of digits that ends there. *)
Definition DIGITS_TRAIL_RE_sub (s : str) : str :=
  match rev s with
  | c :: r =>
      if N.eqb c newline then
        match r with
        | d :: _ => if isdigit d then rev (drop_while isdigit r) ++ [newline]
                    else s
        | [] => s
        end
      else rev (drop_while isdigit (c :: r))
  | [] => []
  end.

(** The character class of [SUFFIX_RE]: the ASCII letters and the Danish
    vowels ae, o-slash and a-ring in both cases. *)
Definition suffix_letter (c : char) : bool :=
  (N.leb 65 c && N.leb c 90) || (N.leb 97 c && N.leb c 122)
  || existsb (N.eqb c)
       [ae_lower; oslash_lower; aring_lower; ae_upper; oslash_upper; aring_upper].

(** [SUFFIX_RE.match(f)], as a truth value: a hyphen, then one to six
    letters of the class, then [$], which accepts one final newline. *)
Definition SUFFIX_RE_match (f : str) : bool :=
  match f with
  | c :: rest =>
      N.eqb c 45 &&
      let body := match rev rest with
                  | l :: r => if N.eqb l newline then rev r else rest
                  | [] => rest
                  end in
      Nat.leb 1 (length body) && Nat.leb (length body) 6
      && forallb suffix_letter body
  | [] => false
  end.

(** [re.compile(r"^udtryk-\d+").search(s)], as a truth value. *)
Definition udtryk_re_search (s : str) : bool :=
  startswith s (py "udtryk-") &&
  match skipn 7 s with
  | d :: _ => isdigit d
  | [] => false
  end.

End Re.
Export Re.

(* ================================================================== *)
(** * The document tree *)
(* ================================================================== *)

Module Dom.

(** The attributes the script looks at.  [class] is a list of names, as
    BeautifulSoup keeps it; an absent [class] reads as the empty list
    through [.get("class", [])]. *)
Record attrs := mk_attrs {
  attr_id : option str;
  attr_class : list str;
  attr_href : option str
}.

(** A text string, a comment (which is a [str] too, but which [get_text]
    leaves out), or a tag with its contents. *)
#[warnings="-register-all"]
Inductive node :=
| NavigableString (s : str)
| Comment (s : str)
| Tag (name : str) (a : attrs) (contents : list node).

(** A node in its place: the tags above it, nearest first, and the
    siblings after it.  This is what [.parent] and [.next_sibling] reach. *)
Record loc := mk_loc {
  here : node;
  up : list (str * attrs);
  next : list node
}.

(** The BeautifulSoup object of a page. *)
Definition soup_of (top : list node) : loc :=
  mk_loc (Tag (py "[document]") (mk_attrs None [] None) top) [] [].

Definition is_tag (n : node) : bool :=
  match n with Tag _ _ _ => true | _ => false end.

(** [n.name == nm] for a tag. *)
Definition has_name (nm : string) (n : node) : bool :=
  match n with Tag x _ _ => str_eqb x (py nm) | _ => false end.

(** [c in n.get("class", [])] for a tag. *)
Definition has_class (c : string) (n : node) : bool :=
  match n with Tag _ a _ => str_in (py c) (attr_class a) | _ => false end.

(** [n.get("id", "")] *)
Definition get_id (n : node) : str :=
  match n with
  | Tag _ a _ => match attr_id a with Some i => i | None => [] end
  | _ => []
  end.

(** Truth value of a node: a tag is always true, a string is true when it
    is not empty. *)
Definition truthy (n : node) : bool :=
  match n with
  | Tag _ _ _ => true
  | NavigableString s | Comment s => negb (str_eqb s [])
  end.

(** The text strings below a node, in document order.  The strings of
    [script], [style] and [template] elements, which bs4 keeps in classes
    of their own, are not told apart from the others: the pages are taken
    to hold no such element. *)
Fixpoint all_strings (n : node) : list str :=
  match n with
  | NavigableString s => [s]
  | Comment _ => []
  | Tag _ _ ch => flat_map all_strings ch
  end.

(** [n.get_text(sep, strip=True)]: every text string is stripped, the empty
    ones are left out, the rest are joined. *)
Definition get_text (sep : string) (n : node) : str :=
  join (py sep)
       (filter (fun s => negb (str_eqb s [])) (map strip (all_strings n))).

(** [n.string] *)
Fixpoint tag_string (n : node) : option str :=
  match n with
  | NavigableString s | Comment s => Some s
  | Tag _ _ [c] => tag_string c
  | Tag _ _ _ => None
  end.

(** A node and everything below it, in document order, each in its place. *)
Fixpoint walk (above : list (str * attrs)) (n : node) (after : list node)
  {struct n} : list loc :=
  mk_loc n above after ::
  match n with
  | Tag nm a ch =>
      (fix walk_list (l : list node) : list loc :=
         match l with
         | [] => []
         | c :: rest => walk ((nm, a) :: above) c rest ++ walk_list rest
         end) ch
  | _ => []
  end.

Fixpoint walk_list (above : list (str * attrs)) (l : list node) : list loc :=
  match l with
  | [] => []
  | c :: rest => walk above c rest ++ walk_list above rest
  end.

(** [l.children], each in its place. *)
Fixpoint place (above : list (str * attrs)) (l : list node) : list loc :=
  match l with
  | [] => []
  | c :: rest => mk_loc c above rest :: place above rest
  end.

Definition contents (l : loc) : list node :=
  match here l with Tag _ _ ch => ch | _ => [] end.

Definition above_children (l : loc) : list (str * attrs) :=
  match here l with Tag nm a _ => (nm, a) :: up l | _ => up l end.

Definition children (l : loc) : list loc := place (above_children l) (contents l).

(** [l.descendants] *)
Definition descendants (l : loc) : list loc :=
  walk_list (above_children l) (contents l).

(** [l.next_sibling] *)
Definition next_sibling (l : loc) : option loc :=
  match next l with
  | [] => None
  | n :: rest => Some (mk_loc n (up l) rest)
  end.

(** [l.find_next_siblings()]: the tags among the following siblings. *)
Definition find_next_siblings (l : loc) : list loc :=
  filter (fun x => is_tag (here x)) (place (up l) (next l)).

(** [l.find_next_sibling()] *)
Definition find_next_sibling (l : loc) : option loc :=
  hd_error (find_next_siblings l).

(** ** CSS selectors *)

(** One compound selector: [name#id.class1.class2[id^=p][href$=s]],
    every part optional. *)
Record compound := mk_compound {
  s_name : option str;
  s_id : option str;
  s_class : list str;
  s_id_prefix : option str;
  s_href_suffix : option str
}.

Definition opt_test {A} (o : option A) (f : A -> bool) : bool :=
  match o with None => true | Some x => f x end.

Definition attr_test (v : option str) (f : str -> bool) : bool :=
  match v with None => false | Some x => f x end.

(** [[attr$=p]] is the regular expression [.*?p$], matched from the start
    of the value with the dot taking every character: the value ends with
    [p], or with [p] and one final newline. *)
Definition attr_suffix (v p : str) : bool :=
  endswith v p || endswith v (p ++ [newline]).

Definition matches_compound (c : compound) (nm : str) (a : attrs) : bool :=
  opt_test (s_name c) (str_eqb nm)
  && opt_test (s_id c) (fun i => attr_test (attr_id a) (str_eqb i))
  && forallb (fun k => str_in k (attr_class a)) (s_class c)
  && opt_test (s_id_prefix c) (fun p => attr_test (attr_id a) (fun v => startswith v p))
  && opt_test (s_href_suffix c) (fun p => attr_test (attr_href a) (fun v => attr_suffix v p)).

(** The descendant combinator: every compound left of the subject must
    match some tag above, in order; the tags above the scope of the search
    count as well. *)
Fixpoint match_ancestors (ancs : list compound) (above : list (str * attrs))
  {struct above} : bool :=
  match ancs with
  | [] => true
  | c :: cs =>
      match above with
      | [] => false
      | (nm, a) :: above' =>
          (matches_compound c nm a && match_ancestors cs above')
          || match_ancestors ancs above'
      end
  end.

(** A selector is its compounds from the subject outwards. *)
Definition selector := list compound.

Definition matches_selector (sel : selector) (l : loc) : bool :=
  match sel, here l with
  | c :: ancs, Tag nm a _ => matches_compound c nm a && match_ancestors ancs (up l)
  | _, _ => false
  end.

(** [l.select(sel)] and [l.select_one(sel)] *)
Definition select (sel : selector) (l : loc) : list loc :=
  filter (matches_selector sel) (descendants l).

Definition select_one (sel : selector) (l : loc) : option loc :=
  hd_error (select sel l).

(** [l.find_all(name, class_=c)], over the descendants or, with
    [recursive=False], over the children. *)
Definition find_all_class (recursive : bool) (nm c : string) (l : loc) : list loc :=
  filter (fun x => has_name nm (here x) && has_class c (here x))
         (if recursive then descendants l else children l).

(** Selector literals. *)
Definition any : compound := mk_compound None None [] None None.
Definition tag_ (nm : string) : compound :=
  mk_compound (Some (py nm)) None [] None None.
Definition with_class (c : compound) (k : string) : compound :=
  mk_compound (s_name c) (s_id c) (s_class c ++ [py k]) (s_id_prefix c) (s_href_suffix c).
Definition with_id (c : compound) (i : string) : compound :=
  mk_compound (s_name c) (Some (py i)) (s_class c) (s_id_prefix c) (s_href_suffix c).
Definition with_id_prefix (c : compound) (p : string) : compound :=
  mk_compound (s_name c) (s_id c) (s_class c) (Some (py p)) (s_href_suffix c).
Definition with_href_suffix (c : compound) (p : string) : compound :=
  mk_compound (s_name c) (s_id c) (s_class c) (s_id_prefix c) (Some (py p)).

End Dom.
Export Dom.

(* ================================================================== *)
(** * Effects and values *)
(* ================================================================== *)

Module Py.

(** The exceptions of a run.  [AttributeError] is the one the script
    raises by itself: a method called on the [None] that [select_one]
    returns when nothing matches.  [OSError] and [UnicodeDecodeError] are
    those of opening a file and of decoding it. *)
Inductive exn := AttributeError | OSError | UnicodeDecodeError.

Inductive res (A : Type) :=
| Ok (a : A)
| Raise (e : exn).
Arguments Ok {A} a.
Arguments Raise {A} e.

(** A computation: the lines it printed, then how it ended. *)
Definition M (A : Type) : Type := (list str * res A)%type.

Definition ret {A} (a : A) : M A := ([], Ok a).

Definition bind {A B} (m : M A) (f : A -> M B) : M B :=
  match m with
  | (out, Ok a) => let (out', r) := f a in (out ++ out', r)
  | (out, Raise e) => (out, Raise e)
  end.

Definition print (line : str) : M unit := ([line], Ok tt).
Definition raise {A} (e : exn) : M A := ([], Raise e).

Definition printed {A} (m : M A) : list str := fst m.
Definition outcome {A} (m : M A) : res A := snd m.

(** [for x in xs: ...] over a loop state. *)
Fixpoint for_each {S A} (body : S -> A -> M S) (xs : list A) (s : S) : M S :=
  match xs with
  | [] => ret s
  | x :: xs' => bind (body s x) (for_each body xs')
  end.

(** The same loop where the body neither prints nor raises. *)
Definition for_pure {S A} (body : S -> A -> S) (xs : list A) (s : S) : S :=
  fold_left body xs s.

(** [o.m()] where [o] may be [None]. *)
Definition deref {A} (o : option A) : M A :=
  match o with
  | Some x => ret x
  | None => raise AttributeError
  end.

(** The values that end up in the JSON output. *)
#[warnings="-register-all"]
Inductive pyval :=
| PNone
| PStr (s : str)
| PList (l : list pyval)
| PDict (d : list (str * pyval)).

(** A [dict] keeps its keys in insertion order. *)
Definition dict := list (str * pyval).

Fixpoint dict_get (d : dict) (k : str) : option pyval :=
  match d with
  | [] => None
  | (k', v) :: d' => if str_eqb k' k then Some v else dict_get d' k
  end.

(** [d[k] = v] *)
Fixpoint dict_set (d : dict) (k : str) (v : pyval) : dict :=
  match d with
  | [] => [(k, v)]
  | (k', v') :: d' =>
      if str_eqb k' k then (k', v) :: d' else (k', v') :: dict_set d' k v
  end.

(** [k in d] *)
Definition has_key (d : dict) (k : str) : bool :=
  match dict_get d k with Some _ => true | None => false end.

Definition keys (d : dict) : list str := map fst d.

(** A string, or [None]. *)
Definition opt_str (o : option str) : pyval :=
  match o with Some s => PStr s | None => PNone end.

Definition str_list (l : list str) : pyval := PList (map PStr l).

End Py.
Export Py.

Declare Scope py_scope.
Notation "x <- m ;; k" := (bind m (fun x => k))
  (at level 61, m at next level, right associativity) : py_scope.
Notation "m ;;; k" := (bind m (fun _ => k))
  (at level 61, right associativity) : py_scope.
Open Scope py_scope.

(* ================================================================== *)
(** * The script *)
(* ================================================================== *)

Module Script.

Definition UNWANTED_TEXTS : list str :=
  [ py "...vis mere";
    py "...vis mindre";
    py "L" ++ [ae_lower] ++ py "s mere om Den Danske Begrebsordbog" ].

(** Truth value of a string. *)
Definition nonempty (s : str) : bool := negb (str_eqb s []).

Definition transform_wordforms (headword : str) (forms : list str) : list str :=
  for_pure (fun out f =>
      if SUFFIX_RE_match f then out ++ [headword ++ skipn 1 f]
      else out ++ [f])
    forms [].

Definition clean_links (a_tags : list loc) : list str :=
  for_pure (fun out a =>
      let txt := get_text "" (here a) in
      if str_in txt UNWANTED_TEXTS then out
      else
        let txt := DIGITS_TRAIL_RE_sub txt in
        if nonempty txt then out ++ [txt] else out)
    a_tags [].

(** ** parse_orddannelser *)

(** The strings right after a link:
    [while sib and isinstance(sib, str): tail += sib]. *)
Fixpoint tail_text (sibs : list node) : str :=
  match sibs with
  | NavigableString s :: rest | Comment s :: rest =>
      if nonempty s then s ++ tail_text rest else []
  | _ => []
  end.

Definition orddannelser_items (inline : option loc) : list str :=
  match inline with
  | None => []
  | Some span =>
      for_pure (fun items child =>
          if has_name "a" (here child) then
            let form := get_text "" (here child) in
            let tail := strip (tail_text (next child)) in
            if nonempty tail then items ++ [form ++ py " " ++ tail]
            else items ++ [form]
          else items)
        (children span) []
  end.

Definition parse_orddannelser (soup : loc) : M dict :=
  match select_one [with_id any "content-orddannelser"] soup with
  | None => ret []
  | Some cont =>
      for_each (fun result box =>
          st <- deref (select_one [with_class (tag_ "span") "stempel"] box) ;;
          let cat := get_text "" (here st) in
          let inline := select_one [with_class (tag_ "span") "inlineList"] box in
          ret (dict_set result cat (str_list (orddannelser_items inline))))
        (find_all_class true "div" "definitionBox" cont) []
  end.

(** ** parse_udtale *)

(** The backward search for a label over [reversed(children[:idx])]. *)
Fixpoint scan_label (prevs : list node) : option str :=
  match prevs with
  | [] => None
  | prev :: rest =>
      if negb (is_tag prev) then scan_label rest
      else if has_class "diskret" prev then Some (get_text " " prev)
      else if has_class "lydskrift" prev then None
      else scan_label rest
  end.

Definition enumerate {A} (l : list A) : list (nat * A) :=
  combine (seq 0 (length l)) l.

Definition get_href (n : node) : option str :=
  match n with Tag _ a _ => attr_href a | _ => None end.

Definition udtale_row (ipa : str) (audio label : option str) : pyval :=
  PDict [(py "ipa", PStr ipa); (py "audio", opt_str audio);
         (py "label", opt_str label)].

(** [isinstance(node, Tag) and "lydskrift" in node.get("class", [])] *)
Definition is_lydskrift (node : loc) : bool :=
  is_tag (here node) && has_class "lydskrift" (here node).

(** The row of one [lydskrift] node, its label found. *)
Definition lydskrift_row (node : loc) (label : option str) : pyval :=
  let ipa := get_text " " (here node) in
  let a_mp3 := select_one [with_href_suffix (tag_ "a") ".mp3"] node in
  let audio := match a_mp3 with
               | Some a => get_href (here a)
               | None => None
               end in
  udtale_row ipa audio label.

(** One turn of [for idx, node in enumerate(children)]. *)
Definition udtale_step (children : list loc) (out : list pyval) (p : nat * loc)
  : list pyval :=
  let (idx, node) := p in
  if negb (is_lydskrift node) then out
  else
    let label := scan_label (rev (map here (firstn idx children))) in
    out ++ [lydskrift_row node label].

Definition udtale_rows (children : list loc) : list pyval :=
  for_pure (udtale_step children) (enumerate children) [].

Definition parse_udtale (soup : loc) (fn : str) : M (list pyval) :=
  match select_one [with_id (tag_ "div") "id-udt"] soup with
  | None =>
      print (py "Note " ++ fn ++ py ": no pronunciation block") ;;; ret []
  | Some container =>
      match select_one [with_class (tag_ "span") "tekstmedium"] container with
      | None => ret []
      | Some tekstmedium => ret (udtale_rows (children tekstmedium))
      end
  end.

(** ** parse_wordforms and parse_etymology *)

Definition Boejning : str := py "B" ++ [oslash_lower] ++ py "jning".
Definition Oprindelse : str := py "Oprindelse".

(** [soup.find("span", class_="stempel", string=text)] *)
Definition find_stempel (text : str) (soup : loc) : option loc :=
  find (fun x =>
          has_name "span" (here x) && has_class "stempel" (here x)
          && match tag_string (here x) with
             | Some s => str_eqb s text
             | None => false
             end)
       (descendants soup).

Definition comma : char := 44%N.

Definition parse_wordforms (soup : loc) : list str :=
  match find_stempel Boejning soup with
  | None => []
  | Some box =>
      let sib := find (fun x => has_name "span" (here x)) (find_next_siblings box) in
      let text := match sib with
                  | Some sb => get_text "" (here sb)
                  | None => []
                  end in
      map strip (filter (fun f => nonempty (strip f)) (split comma text))
  end.

Definition parse_etymology (soup : loc) : pyval :=
  match find_stempel Oprindelse soup with
  | None => PNone
  | Some box =>
      match find (fun x => has_name "span" (here x) && has_class "tekstmedium" (here x))
                 (find_next_siblings box) with
      | None => PNone
      | Some span =>
          let raw := get_text " " (here span) in
          let state :=
            for_pure (fun (st : list pyval * str) node =>
                let (segments, desc) := st in
                match node with
                | NavigableString s | Comment s => (segments, desc ++ s)
                | Tag _ _ _ =>
                    if (has_name "span" node || has_name "a" node)
                       && (has_class "ordform" node || has_name "a" node)
                    then
                      let form := get_text "" node in
                      (segments ++
                         [PDict [(py "form", PStr form);
                                 (py "description", PStr (strip_chars (py " ,") desc))]],
                       [])
                    else if has_class "dividerDot" node then (segments, desc)
                    else (segments, desc ++ get_text "" node)
                end)
              (contents span) ([], []) in
          PDict [(py "raw", PStr raw); (py "segments", PList (fst state))]
      end
  end.

(** ** parse_definitions *)

(** [soup.find(id=i)] *)
Definition find_id (i : string) (soup : loc) : option loc :=
  find (fun x => match here x with
                 | Tag _ a _ => attr_test (attr_id a) (str_eqb (py i))
                 | _ => false
                 end)
       (descendants soup).

(** The [while] loop after a number marker: from [find_next_sibling()] on,
    tag after tag, until one carries [definitionIndent] or none is left. *)
Definition find_indent (num_tag : loc) : option loc :=
  find (fun x => has_class "definitionIndent" (here x))
       (find_next_siblings num_tag).

(** [(gramm.select_one("span.inlineList") or gramm).get_text(" ", strip=True)] *)
Definition grammar_text (gramm : loc) : str :=
  match select_one [with_class (tag_ "span") "inlineList"] gramm with
  | Some inline => get_text " " (here inline)
  | None => get_text " " (here gramm)
  end.

(** The text and the source of one [citat-box]. *)
Definition citation (cite : loc) : M (str * pyval) :=
  citat <- deref (select_one [with_class (tag_ "span") "citat"] cite) ;;
  let txt := get_text " " (here citat) in
  let src := select_one [with_class (tag_ "span") "kilde"] cite in
  ret (txt, opt_str (option_map (fun s => get_text "" (here s)) src)).

Definition definition_box (cls : string) : selector :=
  [with_class (with_class (tag_ "div") "definitionBox") cls].

Definition no_indent_warning (fn num : str) : str :=
  py "Warning " ++ fn ++ py ": no definitionIndent for sense " ++ num.

(** One turn of the loop over the number markers. *)
Definition sense (fn : str) (out : list pyval) (num_tag : loc) : M (list pyval) :=
  let num := get_text "" (here num_tag) in
  match find_indent num_tag with
  | None => print (no_indent_warning fn num) ;;; ret out
  | Some indent =>
      let entry := [(py "number", PStr num)] in
      let def_box :=
        select_one [with_class (tag_ "span") "definition";
                    with_id_prefix (with_class (tag_ "div") "definitionBox") "betydning-"]
                   indent in
      let entry := dict_set entry (py "definition")
                     (opt_str (option_map (fun d => get_text " " (here d)) def_box)) in
      let gramm := select_one (definition_box "grammatik") indent in
      let entry := dict_set entry (py "grammar")
                     (opt_str (option_map grammar_text gramm)) in
      let entry := match select_one (definition_box "onym") indent with
                   | Some sa => dict_set entry (py "see_also")
                                  (str_list (clean_links (select [tag_ "a"] sa)))
                   | None => entry
                   end in
      let entry := match select_one (definition_box "rel-begreber") indent with
                   | Some rel => dict_set entry (py "related")
                                   (str_list (clean_links (select [tag_ "a"] rel)))
                   | None => entry
                   end in
      let entry := dict_set entry (py "examples") (PList []) in
      examples <-
        for_each (fun examples cite =>
            c <- citation cite ;;
            ret (examples ++ [PDict [(py "text", PStr (fst c)); (py "source", snd c)]]))
          (select [with_class (tag_ "div") "citat-box"] indent) [] ;;
      ret (out ++ [PDict (dict_set entry (py "examples") (PList examples))])
  end.

Definition parse_definitions (soup : loc) (fn : str) : M (list pyval) :=
  match find_id "content-betydninger" soup with
  | None => ret []
  | Some container =>
      for_each (sense fn)
        (select [with_class (tag_ "div") "definitionNumber"] container) []
  end.

(** ** parse_fixed_expressions *)

Definition detail_text (type : string) (text : str) : pyval :=
  PDict [(py "type", PStr (py type)); (py "text", PStr text)].

Definition detail_items (type : string) (items : list str) : pyval :=
  PDict [(py "type", PStr (py type)); (py "items", str_list items)].

(** One turn of the loop over the boxes of an indent block. *)
Definition box_detail (ud_id : str) (details : list pyval) (box : loc)
  : M (list pyval) :=
  let box_id := get_id (here box) in
  if nonempty ud_id && startswith box_id (ud_id ++ py "-betydning") then
    ret (details ++ [detail_text "definition" (get_text " " (here box))])
  else if has_class "onym" (here box) then
    ret (details ++ [detail_items "see_also" (clean_links (select [tag_ "a"] box))])
  else if has_class "rel-begreber" (here box) then
    ret (details ++ [detail_items "related" (clean_links (select [tag_ "a"] box))])
  else if has_class "grammatik" (here box) then
    ret (details ++ [detail_text "grammar" (grammar_text box)])
  else
    let st := select_one [with_class (tag_ "span") "stempel"] box in
    if match st with
       | Some s => str_eqb (get_text "" (here s)) (py "SPROGBRUG")
       | None => false
       end
    then
      match select_one [with_class (tag_ "span") "tekstnormal"] box with
      | Some usage =>
          ret (details ++ [detail_text "usage" (get_text "" (here usage))])
      | None => ret details
      end
    else
      match select_one [with_class (tag_ "div") "citat-box"] box with
      | Some cite =>
          c <- citation cite ;;
          ret (details ++
                 [PDict [(py "type", PStr (py "example"));
                         (py "text", PStr (fst c)); (py "source", snd c)]])
      | None => ret details
      end.

(** The walk over [ud.next_sibling], [node.next_sibling], ...: it ends at a
    false node (none left, or an empty string) and at the next [div] whose
    id starts with [udtryk-]. *)
Fixpoint collect_details (ud_id : str) (above : list (str * attrs))
  (sibs : list node) (details : list pyval) : M (list pyval) :=
  match sibs with
  | [] => ret details
  | node :: rest =>
      if negb (truthy node) then ret details
      else if is_tag node then
        if has_name "div" node && startswith (get_id node) (py "udtryk-")
        then ret details
        else if has_class "definitionIndent" node then
          details' <-
            for_each (box_detail ud_id)
              (find_all_class false "div" "definitionBox" (mk_loc node above rest))
              details ;;
          collect_details ud_id above rest details'
        else collect_details ud_id above rest details
      else collect_details ud_id above rest details
  end.

(** One turn of the loop over the expression containers. *)
Definition fixed_expression (out : list pyval) (ud : loc) : M (list pyval) :=
  match select_one [with_class (tag_ "span") "match"] ud with
  | None => ret out
  | Some match_ =>
      let expr := get_text "" (here match_) in
      let ud_id := get_id (here ud) in
      details <- collect_details ud_id (up ud) (next ud) [] ;;
      ret (out ++ [PDict [(py "expression", PStr expr);
                          (py "details", PList details)]])
  end.

(** A [div] whose id matches [^udtryk-\d+]. *)
Definition is_udtryk (n : node) : bool :=
  has_name "div" n
  && match n with
     | Tag _ a _ => attr_test (attr_id a) udtryk_re_search
     | _ => false
     end.

(** [sec.find_all("div", id=re.compile(r"^udtryk-\d+"))] *)
Definition find_all_udtryk (sec : loc) : list loc :=
  filter (fun x => is_udtryk (here x)) (descendants sec).

Definition parse_fixed_expressions (soup : loc) : M (list pyval) :=
  let art := select_one [with_class (tag_ "div") "artikel"] soup in
  let sec := match art with
             | Some a => select_one [with_id any "content-faste-udtryk"] a
             | None => None
             end in
  match sec with
  | None => ret []
  | Some sec => for_each fixed_expression (find_all_udtryk sec) []
  end.

(** ** parse_entry and main *)

Definition banner (part : string) : selector :=
  [with_class (tag_ "span") part; with_class (tag_ "div") "definitionBoxTop"].

(** [parse_entry(path)] from line 268 on, with [fn] the base name of the
    path and [soup] the tree that line 267 has read from the file.  The
    reading itself, which raises on a file that cannot be opened or
    decoded, is [parse_entry_path] below. *)
Definition parse_entry (fn : str) (soup : loc) : M (option dict) :=
  match select_one [with_class (tag_ "div") "artikel"] soup with
  | None => ret None
  | Some art =>
      head <- deref (select_one (banner "match") art) ;;
      let raw_head := get_text "" (here head) in
      let headword := strip (DIGITS_TRAIL_RE_sub (strip raw_head)) in
      let pos_tag := select_one (banner "tekstmedium") art in
      let pos := option_map (fun p => get_text "" (here p)) pos_tag in
      let raw_forms :=
        filter (fun f => negb (str_eqb f raw_head)) (parse_wordforms soup) in
      let forms := transform_wordforms headword raw_forms in
      udtale <- parse_udtale soup fn ;;
      let etymology := parse_etymology soup in
      definitions <- parse_definitions soup fn ;;
      fixed_expressions <- parse_fixed_expressions soup ;;
      orddannelser <- parse_orddannelser soup ;;
      ret (Some [(py "file", PStr fn);
                 (py "headword", PStr headword);
                 (py "pos", opt_str pos);
                 (py "udtale", PList udtale);
                 (py "wordforms", str_list forms);
                 (py "etymology", etymology);
                 (py "definitions", PList definitions);
                 (py "fixed_expressions", PList fixed_expressions);
                 (py "orddannelser", PDict orddannelser)])
  end.

(** The state of the loop of [main]: [entries] and [skipped_files]. *)
Definition batch : Type := (list dict * list str)%type.

(** One turn of the loop of [main] in a directory all files of which are
    read.  [page fn] is the parsed content of [HTML_DIR/fn]; a directory
    entry holds no slash, so [fn] is also the base name [parse_entry]
    takes from the path.  [main_step_path] below is the same turn when a
    file may fail to be read. *)
Definition main_step (page : str -> loc) (st : batch) (fn : str) : M batch :=
  let (entries, skipped_files) := st in
  if negb (endswith fn (py ".html")) then ret st
  else
    entry <- parse_entry fn (page fn) ;;
    match entry with
    | Some e => ret (entries ++ [e], skipped_files)
    | None => ret (entries, skipped_files ++ [fn])
    end.

Definition main_loop (listdir : list str) (page : str -> loc) : M batch :=
  for_each (main_step page) (sorted listdir) ([], []).

Definition report (st : batch) : M unit :=
  let (entries, skipped_files) := st in
  print (py "Parsed " ++ str_of_nat (length entries) ++ py " entries.") ;;;
  match skipped_files with
  | [] => ret tt
  | _ =>
      print (py "Skipped " ++ str_of_nat (length skipped_files) ++ py " files:") ;;;
      for_each (fun _ name => print (py "  - " ++ name)) skipped_files tt
  end.

(** [main()]: the value is what [json.dump] writes to [OUTPUT]. *)
Definition main (listdir : list str) (page : str -> loc) : M (list dict) :=
  st <- main_loop listdir page ;;
  report st ;;;
  ret (fst st).

(** ** The files *)

(** What line 267 makes of a path,
    [BeautifulSoup(open(path, encoding="utf-8"), "html.parser")]: the tree
    of the page, or the exception raised on the way, by [open] on a path
    that cannot be opened or by the decoding of bytes that are not
    UTF-8. *)
Definition read (file : res loc) : M loc := ([], file).

(** [parse_entry(path)] from its first line on, [file] being what the path
    holds; [parse_entry] above is the rest of the function, from line 268
    on, at the tree read. *)
Definition parse_entry_path (fn : str) (file : res loc) : M (option dict) :=
  soup <- read file ;;
  parse_entry fn soup.

(** The loop of [main] over a directory given by what its paths hold. *)
Definition main_step_path (disk : str -> res loc) (st : batch) (fn : str)
  : M batch :=
  let (entries, skipped_files) := st in
  if negb (endswith fn (py ".html")) then ret st
  else
    entry <- parse_entry_path fn (disk fn) ;;
    match entry with
    | Some e => ret (entries ++ [e], skipped_files)
    | None => ret (entries, skipped_files ++ [fn])
    end.

Definition main_loop_path (listdir : list str) (disk : str -> res loc) : M batch :=
  for_each (main_step_path disk) (sorted listdir) ([], []).

(** [main()] up to the writing of [OUTPUT]: the value is what [json.dump]
    is given. *)
Definition main_path (listdir : list str) (disk : str -> res loc)
  : M (list dict) :=
  st <- main_loop_path listdir disk ;;
  report st ;;;
  ret (fst st).

End Script.
Export Script.

(* ================================================================== *)
(** * The rules as the specification words them *)
(* ================================================================== *)

Module Spec.

(** A string without its trailing run of digits. *)
Definition strip_trailing_digits (s : str) : str := rstrip_by isdigit s.

(** The text of an anchor. *)
Definition anchor_text (a : loc) : str := get_text "" (here a).

(** The link-cleaning rule over anchor texts: drop the boilerplate, strip
    the trailing digits of the rest, drop what is left empty, keep the
    order. *)
Definition link_cleaning (texts : list str) : list str :=
  filter nonempty
    (map strip_trailing_digits
       (filter (fun t => negb (str_in t UNWANTED_TEXTS)) texts)).

(** A hyphen followed by one to six letters, and nothing else. *)
Definition suffix_form (f : str) : bool :=
  match f with
  | c :: letters =>
      N.eqb c 45
      && Nat.leb 1 (length letters) && Nat.leb (length letters) 6
      && forallb suffix_letter letters
  | [] => false
  end.

(** Suffix expansion of one form and of a list of forms. *)
Definition expand (headword f : str) : str :=
  if suffix_form f then headword ++ tl f else f.

Definition suffix_expansion (headword : str) (forms : list str) : list str :=
  map (expand headword) forms.

(** The pending-label machine of the pronunciation block.  A transcription
    node takes the pending label and clears the slot; a discrete-label
    node fills the slot for the transcription that follows it. *)
Inductive pending :=
| NoPendingLabel
| PendingLabel (label : str).

Definition attached (p : pending) : option str :=
  match p with
  | NoPendingLabel => None
  | PendingLabel l => Some l
  end.

Definition is_transcription (node : loc) : bool := is_lydskrift node.

Definition is_discrete_label (node : loc) : bool :=
  is_tag (here node) && has_class "diskret" (here node).

Definition machine_step (st : pending * list pyval) (node : loc)
  : pending * list pyval :=
  let st1 :=
    if is_transcription node
    then (NoPendingLabel, snd st ++ [lydskrift_row node (attached (fst st))])
    else st in
  if is_discrete_label node
  then (PendingLabel (get_text " " (here node)), snd st1)
  else st1.

Definition forward_pass (children : list loc) : list pyval :=
  snd (fold_left machine_step children (NoPendingLabel, [])).

(** The scan for an indent block as the specification words it: forward
    through the following siblings, given up at the next number marker. *)
Fixpoint indent_before_next_number (above : list (str * attrs))
  (sibs : list node) : option loc :=
  match sibs with
  | [] => None
  | n :: rest =>
      if has_class "definitionIndent" n then Some (mk_loc n above rest)
      else if has_name "div" n && has_class "definitionNumber" n then None
      else indent_before_next_number above rest
  end.

Definition bounded_find_indent (num_tag : loc) : option loc :=
  indent_before_next_number (up num_tag) (next num_tag).

End Spec.

(* ================================================================== *)
(** * The shape of the output *)
(* ================================================================== *)

Module Shape.

Definition is_some {A} (o : option A) : bool :=
  match o with Some _ => true | None => false end.


(** The keys of a definition record, given whether the indent block has a
    see-also box and whether it has a related-concepts box. *)
Definition definition_keys (see_also related : bool) : list str :=
  [py "number"; py "definition"; py "grammar"]
  ++ (if see_also then [py "see_also"] else [])
  ++ (if related then [py "related"] else [])
  ++ [py "examples"].

(** The number markers of a page, and those an indent block follows. *)
Definition number_markers (soup : loc) : list loc :=
  match find_id "content-betydninger" soup with
  | None => []
  | Some container => select [with_class (tag_ "div") "definitionNumber"] container
  end.

Definition bound_markers (soup : loc) : list loc :=
  filter (fun m => is_some (find_indent m)) (number_markers soup).

(** The definition text of an indent block, or [None]. *)
Definition definition_text (indent : loc) : pyval :=
  opt_str
    (option_map (fun d => get_text " " (here d))
       (select_one
          [with_class (tag_ "span") "definition";
           with_id_prefix (with_class (tag_ "div") "definitionBox") "betydning-"]
          indent)).

(** The record [v] is the one of the marker [num_tag]: read from the
    indent block the marker is bound to. *)
Definition record_of (num_tag : loc) (v : pyval) : Prop :=
  exists indent d,
    find_indent num_tag = Some indent
    /\ v = PDict d
    /\ dict_get d (py "number") = Some (PStr (get_text "" (here num_tag)))
    /\ dict_get d (py "definition") = Some (definition_text indent)
    /\ keys d = definition_keys
                  (is_some (select_one (definition_box "onym") indent))
                  (is_some (select_one (definition_box "rel-begreber") indent)).

(** The slot of the pending-label machine after a run of children, read
    off the backward search of the code. *)
Definition pending_after (seen : list loc) : Spec.pending :=
  match scan_label (rev (map here seen)) with
  | Some l => Spec.PendingLabel l
  | None => Spec.NoPendingLabel
  end.

(** The same directory with another content for one file. *)
Definition override (page : str -> loc) (fn : str) (doc : loc) : str -> loc :=
  fun name => if str_eqb name fn then doc else page name.

Definition is_html (fn : str) : bool := endswith fn (py ".html").

Definition has_artikel (soup : loc) : bool :=
  is_some (select_one [with_class (tag_ "div") "artikel"] soup).

(** The file an Entry comes from. *)
Definition file_of (e : dict) : option pyval := dict_get e (py "file").

(** What the loop of [main] keeps true: every Entry comes from an [.html]
    name, and so does every skipped name. *)
Definition from_html (st : batch) : Prop :=
  Forall (fun e => exists fn, file_of e = Some (PStr fn) /\ is_html fn = true) (fst st)
  /\ Forall (fun fn => is_html fn = true) (snd st).

(** The lines of the final report. *)
Definition report_lines (entries : list dict) (skipped_files : list str) : list str :=
  (py "Parsed " ++ str_of_nat (length entries) ++ py " entries.")
  :: match skipped_files with
     | [] => []
     | _ => (py "Skipped " ++ str_of_nat (length skipped_files) ++ py " files:")
            :: map (fun name => py "  - " ++ name) skipped_files
     end.

(** A definition record as it comes out for a sense without any optional
    box: four keys. *)
Definition bare_record (num definition : string) : pyval :=
  PDict [(py "number", PStr (py num)); (py "definition", PStr (py definition));
         (py "grammar", PNone); (py "examples", PList [])].

End Shape.

(* ================================================================== *)
(** * Sample pages *)
(* ================================================================== *)

Module Pages.

Definition el (nm : string) (id : option string) (cls : list string)
  (ch : list node) : node :=
  Tag (py nm) (mk_attrs (option_map py id) (map py cls) None) ch.

Definition txt (s : string) : node := NavigableString (py s).

Definition link (href text : string) : node :=
  Tag (py "a") (mk_attrs None [] (Some (py href))) [txt text].

Definition span (cls text : string) : node :=
  el "span" None [cls] [txt text].

Definition number (text : string) : node :=
  el "div" None ["definitionNumber"%string] [txt text].

Definition indent (ch : list node) : node :=
  el "div" None ["definitionIndent"%string] ch.

Definition box (id : option string) (cls : list string) (ch : list node) : node :=
  el "div" id ("definitionBox"%string :: cls) ch.

Definition banner_box (head : list node) : node :=
  el "div" None ["definitionBoxTop"%string]
     [el "span" None ["match"%string] head; span "tekstmedium" "substantiv"].

Definition artikel (ch : list node) : loc :=
  soup_of [el "div" None ["artikel"%string] ch].

Definition citat (text source : string) : node :=
  el "div" None ["citat-box"%string] [span "citat" text; span "kilde" source].

(** ** Anchors and pronunciation children *)

Definition three_anchors : list loc :=
  place [] [link "#" "...vis mere"; link "#" "begreb12"; link "#" "ord"].

(** [label("navneord"), transcription("[hus]"), transcription("[hu:s]")],
    the second with the length mark U+02D0. *)
Definition hus_long : node :=
  el "span" None ["lydskrift"%string]
     [NavigableString (py "[hu" ++ [720%N] ++ py "s]")].

Definition udtale_children : list loc :=
  place [] [span "diskret" "navneord"; span "lydskrift" "[hus]"; hus_long].

(** A transcription whose link target ends with a newline. *)
Definition udtale_newline : list loc :=
  place [] [el "span" None ["lydskrift"%string]
               [txt "[hus]";
                Tag (py "a")
                    (mk_attrs None [] (Some (py "hus.mp3" ++ [newline]))) []]].

(** ** Definitions blocks *)

Definition bygning : node :=
  indent [box (Some "betydning-1"%string) [] [span "definition" "bygning"]].

(** Two number markers, then the only indent block. *)
Definition betydninger_two_markers_one_indent : node :=
  el "div" (Some "content-betydninger"%string) []
     [number "1."; number "2."; bygning].

(** Two number markers, the second without an indent block after it. *)
Definition betydninger_second_without_indent : node :=
  el "div" (Some "content-betydninger"%string) []
     [number "1."; bygning; number "2."].

Definition page_two_markers_one_indent : loc :=
  artikel [banner_box [txt "hus"]; betydninger_two_markers_one_indent].

Definition page_second_without_indent : loc :=
  artikel [banner_box [txt "hus"]; betydninger_second_without_indent].

(** The first number marker of [page_two_markers_one_indent], in its place. *)
Definition first_marker : loc :=
  mk_loc (number "1.")
         [(py "div", mk_attrs (Some (py "content-betydninger")) [] None);
          (py "div", mk_attrs None [py "artikel"] None);
          (py "[document]", mk_attrs None [] None)]
         [number "2."; bygning].

(** The second number marker of [page_second_without_indent], in its place:
    nothing follows it. *)
Definition last_marker : loc :=
  mk_loc (number "2.")
         [(py "div", mk_attrs (Some (py "content-betydninger")) [] None);
          (py "div", mk_attrs None [py "artikel"] None);
          (py "[document]", mk_attrs None [] None)]
         [].

(** ** Pages the banner of which is missing or degenerate *)

Definition page_without_banner : loc := artikel [].

Definition page_without_artikel : loc := soup_of [txt "404"].

Definition page_digits_only : loc := artikel [banner_box [txt "123"]].

Definition page_digit_space_digit : loc := artikel [banner_box [txt "hus1 2"]].

(** A citation box without its citation text, in a sense. *)
Definition page_citat_box_without_citat : loc :=
  artikel [banner_box [txt "hus"];
           el "div" (Some "content-betydninger"%string) []
              [number "1.";
               indent [el "div" None ["citat-box"%string] [span "kilde" "avis"]]]].

(** A word-formation box without its category label. *)
Definition page_box_without_stempel : loc :=
  artikel [banner_box [txt "hus"];
           el "div" (Some "content-orddannelser"%string) []
              [box None [] [el "span" None ["inlineList"%string] [link "#" "husbaad"]]]].

(** ** A page with every section *)

Definition page_hus : loc :=
  artikel
    [ banner_box [txt "hus"; span "super" "3"];
      el "div" (Some "id-boj"%string) []
         [el "span" None ["stempel"%string] [NavigableString Boejning];
          span "tekstmedium" "-et, -e, -ene, huse"];
      el "div" (Some "id-udt"%string) []
         [el "span" None ["tekstmedium"%string]
             [span "diskret" "navneord";
              el "span" None ["lydskrift"%string]
                 [txt "[hus]"; link "https://static.ordnet.dk/mp3/hus.mp3" ""];
              txt " eller ";
              hus_long]];
      el "div" (Some "id-ety"%string) []
         [span "stempel" "Oprindelse";
          el "span" None ["tekstmedium"%string]
             [txt "norroent "; span "ordform" "hus"; span "dividerDot" ".";
              txt ", oldengelsk "; span "ordform" "hus"]];
      el "div" (Some "content-betydninger"%string) []
         [ number "1.";
           indent [ box (Some "betydning-1"%string) [] [span "definition" "bygning"];
                    box None ["onym"%string]
                        [link "#" "bolig2"; link "#" "...vis mere"];
                    box None [] [citat "et stort hus" "avis"] ];
           number "2." ];
      el "div" (Some "content-faste-udtryk"%string) []
         [ el "div" (Some "udtryk-1"%string) [] [span "match" "holde hus"];
           indent [ box (Some "udtryk-1-betydning-1"%string) [] [txt "regere"] ];
           el "div" (Some "udtryk-2"%string) [] [txt "uden opslag"];
           indent [ box None ["grammatik"%string] [txt "kun i ental"] ];
           el "div" (Some "udtryk-3"%string) [] [span "match" "hus og hjem"];
           indent [ box None [] [citat "fra hus og hjem" "roman"] ] ];
      el "div" (Some "content-orddannelser"%string) []
         [ box None [] [span "stempel" "Sammensaetninger";
                        el "span" None ["inlineList"%string]
                           [link "#" "husbaad"; txt " "; link "#" "hustag"; txt " sj. "]] ] ].

(** The container [udtryk-2] of [page_hus], which has no [span.match], in
    its place. *)
Definition udtryk_2 : loc :=
  mk_loc (el "div" (Some "udtryk-2"%string) [] [txt "uden opslag"])
         [(py "div", mk_attrs (Some (py "content-faste-udtryk")) [] None);
          (py "div", mk_attrs None [py "artikel"] None);
          (py "[document]", mk_attrs None [] None)]
         [ indent [ box None ["grammatik"%string] [txt "kun i ental"] ];
           el "div" (Some "udtryk-3"%string) [] [span "match" "hus og hjem"];
           indent [ box None [] [citat "fra hus og hjem" "roman"] ] ].

(** A sense box of a fixed expression, the id of which matches the pattern
    of the containers, with a see-also box after it. *)
Definition page_sense_box : loc :=
  artikel
    [ banner_box [txt "hus"];
      el "div" (Some "content-faste-udtryk"%string) []
         [ el "div" (Some "udtryk-1"%string) [] [span "match" "holde hus"];
           indent [ box (Some "udtryk-1-betydning-1"%string) [] [txt "regere"];
                    box None ["onym"%string] [link "#" "styre"] ] ] ].

(** ** A directory *)

Definition ddo_html : list str :=
  [py "hus.html"; py "notes.txt"; py "bil.html"; py "Aar.html"].

Definition ddo_page (fn : str) : loc :=
  if str_eqb fn (py "hus.html") then page_hus
  else if str_eqb fn (py "bil.html") then page_without_artikel
  else if str_eqb fn (py "Aar.html") then page_second_without_indent
  else page_without_banner.

Definition broken_html : list str := [py "hus.html"; py "bil.html"].

Definition broken_page (fn : str) : loc :=
  if str_eqb fn (py "hus.html") then page_without_banner else page_hus.

(** The directory [ddo_html] on disk, and the same with "bil.html" holding
    bytes that are not UTF-8. *)
Definition ddo_disk (fn : str) : res loc := Ok (ddo_page fn).

Definition undecodable_disk (fn : str) : res loc :=
  if str_eqb fn (py "bil.html") then Raise UnicodeDecodeError
  else Ok (ddo_page fn).

(** A fixed expression the example of which has no citation text. *)
Definition page_expression_without_citat : loc :=
  artikel [banner_box [txt "hus"];
           el "div" (Some "content-faste-udtryk"%string) []
              [el "div" (Some "udtryk-1"%string) [] [span "match" "holde hus"];
               indent [box None []
                         [el "div" None ["citat-box"%string]
                             [span "kilde" "avis"]]]]].

End Pages.

(* ================================================================== *)
(** * What the extractors give, section by section *)
(* ================================================================== *)

Module Output.

(** ** Pronunciation rows *)

(** An audio reference is [None] or the target of a link that ends in
    [.mp3], a final newline after it apart. *)
Definition mp3_or_none (audio : option str) : Prop :=
  audio = None
  \/ exists u,
       audio = Some u
       /\ (endswith u (py ".mp3") = true
           \/ endswith u (py ".mp3" ++ [newline]) = true).

(** The row [row] is the one of the transcription node [node]. *)
Definition row_of (node : loc) (row : pyval) : Prop :=
  exists audio label,
    row = udtale_row (get_text " " (here node)) audio label
    /\ mp3_or_none audio.

(** ** Citations *)

Definition citat_of (cite : loc) : option loc :=
  select_one [with_class (tag_ "span") "citat"] cite.

Definition kilde_of (cite : loc) : option loc :=
  select_one [with_class (tag_ "span") "kilde"] cite.

(** The example [ex] is the one of the citation box [cite]. *)
Definition example_of (cite : loc) (ex : pyval) : Prop :=
  exists citat,
    citat_of cite = Some citat
    /\ ex = PDict [(py "text", PStr (get_text " " (here citat)));
                   (py "source",
                    opt_str (option_map (fun s => get_text "" (here s))
                                        (kilde_of cite)))].

(** One turn of the loop over the citation boxes of a sense. *)
Definition example_step (examples : list pyval) (cite : loc) : M (list pyval) :=
  c <- citation cite ;;
  ret (examples ++ [PDict [(py "text", PStr (fst c)); (py "source", snd c)]]).

Definition citat_boxes (indent : loc) : list loc :=
  select [with_class (tag_ "div") "citat-box"] indent.


(** A number marker the sense of which raises: it is bound to an indent
    block, and a citation box of the block has no citation text. *)
Definition sense_raises (num_tag : loc) : Prop :=
  exists indent,
    find_indent num_tag = Some indent
    /\ Exists (fun cite => citat_of cite = None) (citat_boxes indent).

(** ** The log of a page *)

Definition unbound_markers (soup : loc) : list loc :=
  filter (fun m => negb (Shape.is_some (find_indent m))) (Shape.number_markers soup).

Definition has_udtale_block (soup : loc) : bool :=
  Shape.is_some (select_one [with_id (tag_ "div") "id-udt"] soup).

Definition expected_log (fn : str) (soup : loc) : list str :=
  (if has_udtale_block soup then []
   else [py "Note " ++ fn ++ py ": no pronunciation block"])
  ++ map (fun m => no_indent_warning fn (get_text "" (here m)))
         (unbound_markers soup).

(** ** Etymology *)

(** The rich-text node after the "Oprindelse" label. *)
Definition etymology_span (soup : loc) : option loc :=
  match find_stempel Oprindelse soup with
  | None => None
  | Some box =>
      find (fun x => has_name "span" (here x) && has_class "tekstmedium" (here x))
           (find_next_siblings box)
  end.

(** A child that ends a segment: a [span.ordform], or any link. *)
Definition is_form_reference (n : node) : bool :=
  (has_name "span" n || has_name "a" n)
  && (has_class "ordform" n || has_name "a" n).

Definition space_or_comma (c : char) : bool := existsb (N.eqb c) (py " ,").

(** The segment [seg] is the one of the form reference [n]. *)
Definition segment_of (n : node) (seg : pyval) : Prop :=
  exists description,
    seg = PDict [(py "form", PStr (get_text "" n));
                 (py "description", PStr description)]
    /\ starts_with space_or_comma description = false
    /\ ends_with space_or_comma description = false.

(** ** Word formation *)

Definition orddannelser_boxes (soup : loc) : list loc :=
  match select_one [with_id any "content-orddannelser"] soup with
  | None => []
  | Some cont => find_all_class true "div" "definitionBox" cont
  end.

(** The category label of a box, if it has one. *)
Definition category (box : loc) : option str :=
  option_map (fun st => get_text "" (here st))
             (select_one [with_class (tag_ "span") "stempel"] box).

Definition has_category (k : str) (box : loc) : bool :=
  match category box with
  | Some c => str_eqb c k
  | None => false
  end.

Definition box_items (box : loc) : pyval :=
  str_list (orddannelser_items
              (select_one [with_class (tag_ "span") "inlineList"] box)).

(** One turn of the loop over the boxes of the word-formation block. *)
Definition orddannelser_step (result : dict) (box : loc) : M dict :=
  st <- deref (select_one [with_class (tag_ "span") "stempel"] box) ;;
  let cat := get_text "" (here st) in
  let inline := select_one [with_class (tag_ "span") "inlineList"] box in
  ret (dict_set result cat (str_list (orddannelser_items inline))).

(** ** Fixed expressions *)

Definition fixed_expression_containers (soup : loc) : list loc :=
  match select_one [with_class (tag_ "div") "artikel"] soup with
  | None => []
  | Some art =>
      match select_one [with_id any "content-faste-udtryk"] art with
      | None => []
      | Some sec => find_all_udtryk sec
      end
  end.

Definition has_match (ud : loc) : bool :=
  Shape.is_some (select_one [with_class (tag_ "span") "match"] ud).

(** A detail record: its tag decides its keys. *)
Definition well_tagged (d : pyval) : Prop :=
  (exists text, d = detail_text "definition" text)
  \/ (exists items, d = detail_items "see_also" items)
  \/ (exists items, d = detail_items "related" items)
  \/ (exists text, d = detail_text "grammar" text)
  \/ (exists text, d = detail_text "usage" text)
  \/ (exists text source,
         d = PDict [(py "type", PStr (py "example"));
                    (py "text", PStr text); (py "source", opt_str source)]).

(** The record [v] is the one of the container [ud]. *)
Definition expression_of (ud : loc) (v : pyval) : Prop :=
  exists m details,
    select_one [with_class (tag_ "span") "match"] ud = Some m
    /\ v = PDict [(py "expression", PStr (get_text "" (here m)));
                  (py "details", PList details)]
    /\ Forall well_tagged details.

(** ** What makes a page raise *)

(** The boxes the walk after an expression container looks at, in the
    order in which it does. *)
Fixpoint detail_boxes (above : list (str * attrs)) (sibs : list node) : list loc :=
  match sibs with
  | [] => []
  | node :: rest =>
      if negb (truthy node) then []
      else if is_tag node then
        if has_name "div" node && startswith (get_id node) (py "udtryk-")
        then []
        else if has_class "definitionIndent" node then
          find_all_class false "div" "definitionBox" (mk_loc node above rest)
          ++ detail_boxes above rest
        else detail_boxes above rest
      else detail_boxes above rest
  end.

(** [st and st.get_text(strip=True) == "SPROGBRUG"] *)
Definition is_sprogbrug (box : loc) : bool :=
  match select_one [with_class (tag_ "span") "stempel"] box with
  | Some s => str_eqb (get_text "" (here s)) (py "SPROGBRUG")
  | None => false
  end.

(** A box that is none of the five kinds tested before the citation. *)
Definition example_box (ud_id : str) (box : loc) : bool :=
  negb (nonempty ud_id
        && startswith (get_id (here box)) (ud_id ++ py "-betydning"))
  && negb (has_class "onym" (here box))
  && negb (has_class "rel-begreber" (here box))
  && negb (has_class "grammatik" (here box))
  && negb (is_sprogbrug box).

(** A box at which the walk raises: its first citation box has no citation
    text. *)
Definition box_raises (ud_id : str) (box : loc) : Prop :=
  example_box ud_id box = true
  /\ exists cite,
       select_one [with_class (tag_ "div") "citat-box"] box = Some cite
       /\ citat_of cite = None.

Definition expression_raises (ud : loc) : Prop :=
  has_match ud = true
  /\ Exists (box_raises (get_id (here ud))) (detail_boxes (up ud) (next ud)).

(** A page at which [parse_entry] raises. *)
Definition page_raises (soup : loc) : Prop :=
  exists art,
    select_one [with_class (tag_ "div") "artikel"] soup = Some art
    /\ (select_one (banner "match") art = None
        \/ Exists sense_raises (Shape.number_markers soup)
        \/ Exists expression_raises (fixed_expression_containers soup)
        \/ Exists (fun box => category box = None) (orddannelser_boxes soup)).

(** A file at which [parse_entry] raises: it cannot be read, or its page
    raises. *)
Definition file_raises (file : res loc) : Prop :=
  match file with
  | Ok soup => page_raises soup
  | Raise _ => True
  end.

(** A file [parse_entry] gets through: it is read, and its page does not
    raise. *)
Definition file_passes (file : res loc) : Prop :=
  exists soup, file = Ok soup /\ ~ page_raises soup.

(** ** Cleaned links and word forms *)

(** A cleaned link is not empty, does not start with white space and does
    not end with a digit. *)
Definition clean_item (t : str) : Prop :=
  t <> [] /\ starts_with isspace t = false /\ ends_with isdigit t = false.

(** A word form is not empty, holds no comma and is trimmed. *)
Definition clean_form (f : str) : Prop :=
  f <> [] /\ ~ In comma f /\ strip f = f.

End Output.

(* ================================================================== *)
(** * Reading the entries back: dedupe_ddo_entries.py *)
(* ================================================================== *)

(** Python operations on the values [json.load] gives back from the file
    [main] writes: null, strings, lists and objects. *)
Module Json.

Inductive error := AttributeError | TypeError | ValueError.

Inductive answer (A : Type) :=
| Return (a : A)
| Fail (e : error).
Arguments Return {A} a.
Arguments Fail {A} e.

Definition and_then {A B} (m : answer A) (f : A -> answer B) : answer B :=
  match m with
  | Return a => f a
  | Fail e => Fail e
  end.

(** [v.get(k, default)]: only an object has [get]. *)
Definition get (v : pyval) (k : string) (default : pyval) : answer pyval :=
  match v with
  | PDict d => Return (match dict_get d (py k) with
                       | Some x => x
                       | None => default
                       end)
  | _ => Fail AttributeError
  end.

(** [len(v)]: [None] has no length. *)
Definition len (v : pyval) : answer nat :=
  match v with
  | PNone => Fail TypeError
  | PStr s => Return (length s)
  | PList l => Return (length l)
  | PDict d => Return (length d)
  end.

(** [v.values()]: only an object has [values]. *)
Definition values (v : pyval) : answer (list pyval) :=
  match v with
  | PDict d => Return (map snd d)
  | _ => Fail AttributeError
  end.

(** A loop over a list that may fail. *)
Fixpoint fold {S A} (body : S -> A -> answer S) (xs : list A) (s : S) : answer S :=
  match xs with
  | [] => Return s
  | x :: xs' => and_then (body s x) (fold body xs')
  end.

(** A comprehension that may fail. *)
Fixpoint traverse {A B} (f : A -> answer B) (xs : list A) : answer (list B) :=
  match xs with
  | [] => Return []
  | x :: xs' =>
      and_then (f x) (fun y => and_then (traverse f xs') (fun ys => Return (y :: ys)))
  end.

End Json.

Module Dedupe.

(** [score += len(v)] *)
Definition add_len (score : nat) (v : pyval) : Json.answer nat :=
  Json.and_then (Json.len v) (fun n => Json.Return (score + n)).

Definition richness_score (entry : pyval) : Json.answer nat :=
  let score := 0 in
  Json.and_then (Json.get entry "definitions" (PList [])) (fun v =>
  Json.and_then (add_len score v) (fun score =>
  Json.and_then (Json.get entry "fixed_expressions" (PList [])) (fun v =>
  Json.and_then (add_len score v) (fun score =>
  Json.and_then (Json.get entry "wordforms" (PList [])) (fun v =>
  Json.and_then (add_len score v) (fun score =>
  Json.and_then (Json.get entry "udtale" (PList [])) (fun v =>
  Json.and_then (add_len score v) (fun score =>
  Json.and_then (Json.get entry "orddannelser" (PDict [])) (fun od =>
  Json.and_then (Json.values od) (fun lsts =>
  Json.fold add_len lsts score)))))))))).

(** The keys of [groups]: a list or an object cannot be a key. *)
Definition hashable (k : pyval) : bool :=
  match k with
  | PNone | PStr _ => true
  | PList _ | PDict _ => false
  end.

(** Equality of two keys. *)
Definition key_eqb (a b : pyval) : bool :=
  match a, b with
  | PNone, PNone => true
  | PStr x, PStr y => str_eqb x y
  | _, _ => false
  end.

(** [groups], a [defaultdict(list)], keeps its keys in insertion order. *)
Definition groups : Type := list (pyval * list pyval).

(** [groups[hw].append(entry)] *)
Fixpoint append_to_group (g : groups) (hw entry : pyval) : groups :=
  match g with
  | [] => [(hw, [entry])]
  | (k, lst) :: g' =>
      if key_eqb k hw then (k, lst ++ [entry]) :: g'
      else (k, lst) :: append_to_group g' hw entry
  end.

(** One turn of the grouping loop; [entry.get("headword")] is [None]
    without the key. *)
Definition group_step (g : groups) (entry : pyval) : Json.answer groups :=
  Json.and_then (Json.get entry "headword" PNone) (fun hw =>
  if hashable hw then Json.Return (append_to_group g hw entry)
  else Json.Fail Json.TypeError).

(** [max(lst, key=richness_score)]: the key of every element is computed;
    a later element replaces the best one only with a greater key. *)
Fixpoint max_rest (best : pyval) (best_key : nat) (rest : list pyval)
  : Json.answer pyval :=
  match rest with
  | [] => Json.Return best
  | x :: rest' =>
      Json.and_then (richness_score x) (fun k =>
      if Nat.ltb best_key k then max_rest x k rest'
      else max_rest best best_key rest')
  end.

Definition max_by_richness (lst : list pyval) : Json.answer pyval :=
  match lst with
  | [] => Json.Fail Json.ValueError
  | x :: rest => Json.and_then (richness_score x) (fun k => max_rest x k rest)
  end.

(** [f"{hw}"] for a key. *)
Definition str_of_key (hw : pyval) : str :=
  match hw with
  | PStr s => s
  | _ => py "None"
  end.

(** The lines printed between the grouping and the selection. *)
Definition statistics (entries : list pyval) (g : groups) : list str :=
  let total_entries := length entries in
  let unique_headwords := length g in
  let duplicates := total_entries - unique_headwords in
  [ py "Total entries: " ++ str_of_nat total_entries;
    py "Unique headwords: " ++ str_of_nat unique_headwords;
    py "Duplicate entries: " ++ str_of_nat duplicates ++ [newline];
    py "Duplicate headwords and their counts:" ]
  ++ flat_map (fun kv : pyval * list pyval =>
                 if Nat.ltb 1 (length (snd kv))
                 then [py "  " ++ str_of_key (fst kv) ++ py ": "
                       ++ str_of_nat (length (snd kv))]
                 else [])
              g.

Definition done_line : str :=
  [newline; 10004%N]
  ++ py " Deduplication complete. File saved as 'ddo_entries_unique.json'.".

(** The script: [entries] is the content of [ddo_entries.json]; the value
    is what is written to [ddo_entries_unique.json], beside the lines
    printed. *)
Definition dedupe (entries : list pyval) : list str * Json.answer (list pyval) :=
  match Json.fold group_step entries [] with
  | Json.Fail e => ([], Json.Fail e)
  | Json.Return g =>
      match Json.traverse (fun kv => max_by_richness (snd kv)) g with
      | Json.Fail e => (statistics entries g, Json.Fail e)
      | Json.Return unique_entries =>
          (statistics entries g ++ [done_line], Json.Return unique_entries)
      end
  end.

(** ** What the script is to give *)

(** The headword an entry is grouped under. *)
Definition key_of (entry : pyval) : pyval :=
  match Json.get entry "headword" PNone with
  | Json.Return k => k
  | Json.Fail _ => PNone
  end.

Definition same_key (k : pyval) (entry : pyval) : bool := key_eqb k (key_of entry).

(** An entry the grouping accepts: an object whose headword can be a key. *)
Definition groupable (entry : pyval) : Prop :=
  exists k, Json.get entry "headword" PNone = Json.Return k /\ hashable k = true.

(** The headwords in the order of their first occurrence. *)
Definition add_key (ks : list pyval) (k : pyval) : list pyval :=
  if existsb (key_eqb k) ks then ks else ks ++ [k].

Definition first_keys (entries : list pyval) : list pyval :=
  fold_left (fun ks e => add_key ks (key_of e)) entries [].

Definition grouped (entries : list pyval) : groups :=
  map (fun k => (k, filter (same_key k) entries)) (first_keys entries).

(** [u] is the best of [lst]: its score is greater than every score
    before it and at least every score after it. *)
Definition best_of (lst : list pyval) (u : pyval) : Prop :=
  exists pre post n,
    lst = pre ++ u :: post
    /\ richness_score u = Json.Return n
    /\ Forall (fun e => exists m, richness_score e = Json.Return m /\ m < n) pre
    /\ Forall (fun e => exists m, richness_score e = Json.Return m /\ m <= n) post.

(** The length of a list value. *)
Definition list_length (v : option pyval) : nat :=
  match v with
  | Some (PList l) => length l
  | _ => 0
  end.

(** The number of items of a word-formation mapping, all categories
    together. *)
Definition orddannelser_count (v : option pyval) : nat :=
  match v with
  | Some (PDict od) => list_sum (map (fun kv => list_length (Some (snd kv))) od)
  | _ => 0
  end.

(** Every entry has a score. *)
Definition all_score (entries : list pyval) : Prop :=
  Forall (fun e => exists n, richness_score e = Json.Return n) entries.

(** An Entry some page gives. *)
Definition generated (e : dict) : Prop :=
  exists fn soup, outcome (parse_entry fn soup) = Ok (Some e).

(** ** Sample entries *)

Definition sample (headword : string) (definitions wordforms : nat) : pyval :=
  PDict [(py "headword", PStr (py headword));
         (py "definitions", PList (repeat PNone definitions));
         (py "wordforms", PList (repeat (PStr (py "x")) wordforms))].

(** Two entries for "hus", the richer one second, then one for "bil" and a
    third for "hus" as rich as the second. *)
Definition sample_entries : list pyval :=
  [sample "hus" 1 0; sample "hus" 2 1; sample "bil" 1 1; sample "hus" 3 0].

End Dedupe.

(* ================================================================== *)
(** * The card fields: dansk.py *)
(* ================================================================== *)

Module Dansk.

(** Truth value of a value read from the file. *)
Definition truth (v : pyval) : bool :=
  match v with
  | PNone => false
  | PStr s => nonempty s
  | PList [] => false
  | PList (_ :: _) => true
  | PDict [] => false
  | PDict (_ :: _) => true
  end.

Definition brace_open : char := 123%N.
Definition brace_close : char := 125%N.

(** [s.replace(c, "")] for a one-character [c]. *)
Definition remove (c : char) (s : str) : str :=
  filter (fun x => negb (N.eqb x c)) s.

(** [sanitize(text)]: a false value gives the empty string; of the true
    values only a string has [replace]. *)
Definition sanitize (text : pyval) : Json.answer str :=
  if truth text then
    match text with
    | PStr s => Json.Return (strip (remove brace_close (remove brace_open s)))
    | _ => Json.Fail Json.AttributeError
    end
  else Json.Return [].

(** [for x in v]: the elements of a list, the characters of a string, the
    keys of an object. *)
Definition iter (v : pyval) : Json.answer (list pyval) :=
  match v with
  | PNone => Json.Fail Json.TypeError
  | PStr s => Json.Return (map (fun c => PStr [c]) s)
  | PList l => Json.Return l
  | PDict d => Json.Return (map (fun kv => PStr (fst kv)) d)
  end.

(** One turn of the loop of [extract_definitions]. *)
Definition definition_step (parts : list str) (d : pyval)
  : Json.answer (list str) :=
  Json.and_then (Json.get d "number" (PStr [])) (fun v =>
  Json.and_then (sanitize v) (fun num =>
  Json.and_then (Json.get d "definition" (PStr [])) (fun v =>
  Json.and_then (sanitize v) (fun txt =>
  if nonempty txt then Json.Return (parts ++ [strip (num ++ py " " ++ txt)])
  else Json.Return parts)))).

Definition extract_definitions (entry : pyval) : Json.answer str :=
  Json.and_then (Json.get entry "definitions" (PList [])) (fun defs =>
  Json.and_then (iter defs) (fun ds =>
  Json.and_then (Json.fold definition_step ds []) (fun parts =>
  Json.Return (join (py "<br>") parts)))).

(** The inner loop of [extract_first_example]: the first example with a
    text, if there is one. *)
Fixpoint first_example (exs : list pyval) : Json.answer (option str) :=
  match exs with
  | [] => Json.Return None
  | ex :: rest =>
      Json.and_then (Json.get ex "text" (PStr [])) (fun v =>
      Json.and_then (sanitize v) (fun txt =>
      if nonempty txt then Json.Return (Some txt) else first_example rest))
  end.

(** The outer loop; [d.get("examples") or []] is the list looked at. *)
Fixpoint first_example_in (defs : list pyval) : Json.answer str :=
  match defs with
  | [] => Json.Return []
  | d :: rest =>
      Json.and_then (Json.get d "examples" PNone) (fun v =>
      Json.and_then (iter (if truth v then v else PList [])) (fun exs =>
      Json.and_then (first_example exs) (fun found =>
      match found with
      | Some txt => Json.Return txt
      | None => first_example_in rest
      end)))
  end.

Definition extract_first_example (entry : pyval) : Json.answer str :=
  Json.and_then (Json.get entry "definitions" (PList [])) (fun defs =>
  Json.and_then (iter defs) first_example_in).

(** ** What the fields are to hold *)

(** The sanitized value of a key of a record, empty without the key. *)
Definition field (d : pyval) (k : string) : str :=
  match Json.get d k (PStr []) with
  | Json.Return v =>
      match sanitize v with
      | Json.Return t => t
      | Json.Fail _ => []
      end
  | Json.Fail _ => []
  end.

Definition definitions_of (e : dict) : list pyval :=
  match dict_get e (py "definitions") with
  | Some (PList l) => l
  | _ => []
  end.

Definition examples_of (d : pyval) : list pyval :=
  match Json.get d "examples" PNone with
  | Json.Return (PList l) => l
  | _ => []
  end.

Definition has_definition (d : pyval) : bool := nonempty (field d "definition").

(** The line of a definition: its number, a space, its text. *)
Definition line_of (d : pyval) : str :=
  strip (field d "number" ++ py " " ++ field d "definition").

(** The texts of all examples of an entry, in the order of the file. *)
Definition example_texts (e : dict) : list str :=
  map (fun ex => field ex "text") (flat_map examples_of (definitions_of e)).

(** The records [parse_definitions] writes. *)
Definition example_record (ex : pyval) : Prop :=
  exists text source, ex = PDict [(py "text", PStr text); (py "source", source)].

Definition definition_record (v : pyval) : Prop :=
  exists d num examples,
    v = PDict d
    /\ dict_get d (py "number") = Some (PStr num)
    /\ (dict_get d (py "definition") = Some PNone
        \/ exists text, dict_get d (py "definition") = Some (PStr text))
    /\ dict_get d (py "examples") = Some (PList examples)
    /\ Forall example_record examples.

End Dansk.

(* ================================================================== *)
(** * Strings: equality, stripping, joining *)
(* ================================================================== *)

Section StrFacts.

Lemma str_eqb_eq (a b : str) : str_eqb a b = true <-> a = b.
Proof.
  revert b; induction a as [|x a IH]; intros [|y b]; simpl; split;
    try congruence; try reflexivity.
  - intros H. apply andb_true_iff in H as [Hx Hab].
    apply N.eqb_eq in Hx. apply IH in Hab. congruence.
  - intros H. injection H as -> ->.
    apply andb_true_iff. split; [apply N.eqb_refl | now apply IH].
Qed.

Lemma str_eqb_refl (a : str) : str_eqb a a = true.
Proof. now apply str_eqb_eq. Qed.

Lemma str_eqb_neq (a b : str) : str_eqb a b = false <-> a <> b.
Proof.
  split.
  - intros H E. apply str_eqb_eq in E. congruence.
  - intros H. destruct (str_eqb a b) eqn:E; [|reflexivity].
    apply str_eqb_eq in E. contradiction.
Qed.

Lemma nonempty_true (s : str) : nonempty s = true <-> s <> [].
Proof.
  unfold nonempty. rewrite negb_true_iff. apply str_eqb_neq.
Qed.

Variable p : char -> bool.

Lemma forallb_rev (s : str) : forallb p (rev s) = forallb p s.
Proof.
  induction s as [|c s IH]; simpl; [reflexivity|].
  rewrite forallb_app, IH. simpl. rewrite andb_true_r. apply andb_comm.
Qed.

Lemma drop_while_head (s : str) : starts_with p (drop_while p s) = false.
Proof.
  induction s as [|c s IH]; simpl; [reflexivity|].
  destruct (p c) eqn:E; [exact IH | simpl; exact E].
Qed.

Lemma drop_while_id (s : str) : starts_with p s = false -> drop_while p s = s.
Proof.
  destruct s as [|c s]; simpl; [reflexivity|]. now intros ->.
Qed.

Lemma drop_while_nil (s : str) : drop_while p s = [] <-> forallb p s = true.
Proof.
  induction s as [|c s IH]; simpl; [tauto|].
  destruct (p c); simpl; [exact IH | split; discriminate].
Qed.

(** What [drop_while] removes is a run of [p] characters. *)
Lemma drop_while_split (s : str) :
  exists run, s = run ++ drop_while p s /\ forallb p run = true.
Proof.
  induction s as [|c s (run & E & H)]; simpl.
  - exists []. split; reflexivity.
  - destruct (p c) eqn:Ec.
    + exists (c :: run). simpl. rewrite Ec, H. split; [congruence | reflexivity].
    + exists []. split; reflexivity.
Qed.

Lemma rstrip_by_end (s : str) : ends_with p (rstrip_by p s) = false.
Proof.
  unfold ends_with, rstrip_by. rewrite rev_involutive. apply drop_while_head.
Qed.

Lemma rstrip_by_id (s : str) : ends_with p s = false -> rstrip_by p s = s.
Proof.
  unfold ends_with, rstrip_by. intros H.
  rewrite drop_while_id; [apply rev_involutive | exact H].
Qed.

Lemma rstrip_by_nil (s : str) : rstrip_by p s = [] <-> forallb p s = true.
Proof.
  unfold rstrip_by. rewrite <- (rev_involutive s) at 2. rewrite forallb_rev.
  rewrite <- drop_while_nil. split.
  - intros H. apply (f_equal (@rev char)) in H.
    now rewrite rev_involutive in H.
  - now intros ->.
Qed.

(** [rstrip_by] keeps a prefix and removes a run of [p] characters. *)
Lemma rstrip_by_split (s : str) :
  exists run, s = rstrip_by p s ++ run /\ forallb p run = true.
Proof.
  destruct (drop_while_split (rev s)) as (run & E & H).
  exists (rev run). split.
  - unfold rstrip_by. rewrite <- rev_app_distr, <- E. now rewrite rev_involutive.
  - now rewrite forallb_rev.
Qed.

Lemma rstrip_by_keeps_start (s : str) (q : char -> bool) :
  rstrip_by p s <> [] -> starts_with q (rstrip_by p s) = starts_with q s.
Proof.
  destruct (rstrip_by_split s) as (run & E & _).
  intros H. rewrite E at 2.
  destruct (rstrip_by p s); [contradiction | reflexivity].
Qed.

Lemma ends_with_app (a b : str) :
  b <> [] -> ends_with p (a ++ b) = ends_with p b.
Proof.
  unfold ends_with. rewrite rev_app_distr.
  destruct (rev b) eqn:E; [|reflexivity].
  intros H. apply (f_equal (@rev char)) in E. rewrite rev_involutive in E.
  contradiction.
Qed.

Lemma starts_with_app (a b : str) :
  a <> [] -> starts_with p (a ++ b) = starts_with p a.
Proof. destruct a; [contradiction | reflexivity]. Qed.

End StrFacts.

Section StripFacts.

Lemma strip_end (s : str) : ends_with isspace (strip s) = false.
Proof. apply rstrip_by_end. Qed.

Lemma strip_start (s : str) :
  strip s <> [] -> starts_with isspace (strip s) = false.
Proof.
  unfold strip. intros H. rewrite rstrip_by_keeps_start by exact H.
  apply drop_while_head.
Qed.

Lemma strip_id (s : str) :
  starts_with isspace s = false -> ends_with isspace s = false -> strip s = s.
Proof.
  intros Hs He. unfold strip, lstrip_by.
  rewrite drop_while_id by exact Hs. now apply rstrip_by_id.
Qed.

(** A string that starts with a character that is not white space does
    not strip to nothing. *)
Lemma strip_not_nil (c : char) (s : str) :
  isspace c = false -> strip (c :: s) <> [].
Proof.
  intros Hc H. unfold strip, lstrip_by in H. simpl in H. rewrite Hc in H.
  apply rstrip_by_nil in H. simpl in H. now rewrite Hc in H.
Qed.

Lemma ends_with_weaken (p q : char -> bool) (s : str) :
  (forall c, q c = true -> p c = true) ->
  ends_with p s = false -> ends_with q s = false.
Proof.
  unfold ends_with. intros H. destruct (rev s) as [|c r]; [reflexivity|].
  intros Hp. destruct (q c) eqn:Hq; [|reflexivity].
  apply H in Hq. congruence.
Qed.

Lemma ends_with_newline (s : str) :
  ends_with isspace s = false -> ends_with (N.eqb newline) s = false.
Proof.
  apply ends_with_weaken. intros c H. apply N.eqb_eq in H. now subst c.
Qed.

(** ** Joining stripped strings *)

Variable p : char -> bool.

Lemma join_not_nil (sep : str) (xs : list str) :
  xs <> [] -> Forall (fun s => s <> []) xs -> join sep xs <> [].
Proof.
  destruct xs as [|x xs]; [contradiction|]. intros _ H.
  apply Forall_inv in H. destruct x as [|c x]; [contradiction|].
  destruct xs; simpl; discriminate.
Qed.

Lemma join_end (sep : str) (xs : list str) :
  Forall (fun s => s <> [] /\ ends_with p s = false) xs ->
  ends_with p (join sep xs) = false.
Proof.
  induction xs as [|x xs IH]; intros H; [reflexivity|].
  apply Forall_cons_iff in H as [[Hx Hend] Hxs].
  destruct xs as [|y xs]; [exact Hend|].
  change (join sep (x :: y :: xs)) with (x ++ sep ++ join sep (y :: xs)).
  rewrite app_assoc. rewrite ends_with_app.
  - now apply IH.
  - apply join_not_nil; [discriminate|].
    eapply Forall_impl; [|exact Hxs]. now intros s [Hs _].
Qed.

Lemma join_start (sep : str) (xs : list str) :
  Forall (fun s => s <> [] /\ starts_with p s = false) xs ->
  starts_with p (join sep xs) = false.
Proof.
  destruct xs as [|x xs]; intros H; [reflexivity|].
  apply Forall_cons_iff in H as [[Hx Hstart] _].
  destruct xs as [|y xs]; [exact Hstart|].
  change (join sep (x :: y :: xs)) with (x ++ sep ++ join sep (y :: xs)).
  now rewrite starts_with_app.
Qed.

End StripFacts.

Section GetTextFacts.

Lemma stripped_pieces (n : node) :
  Forall (fun s => s <> [] /\ ends_with isspace s = false
                   /\ starts_with isspace s = false)
         (filter (fun s => negb (str_eqb s [])) (map strip (all_strings n))).
Proof.
  apply Forall_forall. intros s Hin.
  apply filter_In in Hin as [Hin Hne].
  apply in_map_iff in Hin as (t & <- & _).
  apply negb_true_iff, str_eqb_neq in Hne.
  repeat split; [exact Hne | apply strip_end | now apply strip_start].
Qed.

(** [get_text(sep, strip=True)] neither ends nor starts with white space. *)
Lemma get_text_end (sep : string) (n : node) :
  ends_with isspace (get_text sep n) = false.
Proof.
  unfold get_text. apply join_end.
  eapply Forall_impl; [|apply stripped_pieces]. simpl. tauto.
Qed.

Lemma get_text_start (sep : string) (n : node) :
  starts_with isspace (get_text sep n) = false.
Proof.
  unfold get_text. apply join_start.
  eapply Forall_impl; [|apply stripped_pieces]. simpl. tauto.
Qed.

Lemma get_text_stripped (sep : string) (n : node) :
  strip (get_text sep n) = get_text sep n.
Proof. apply strip_id; [apply get_text_start | apply get_text_end]. Qed.

End GetTextFacts.

Section ReFacts.

(** On a string that does not end with a newline, [\d+$] removes the
    trailing run of digits and nothing else. *)
Lemma DIGITS_TRAIL_RE_sub_spec (s : str) :
  ends_with (N.eqb newline) s = false ->
  DIGITS_TRAIL_RE_sub s = Spec.strip_trailing_digits s.
Proof.
  unfold ends_with, DIGITS_TRAIL_RE_sub, Spec.strip_trailing_digits, rstrip_by.
  destruct (rev s) as [|c r] eqn:E; intros H; [reflexivity|].
  rewrite N.eqb_sym in H. now rewrite H.
Qed.

(** On a form that does not end with a newline, [SUFFIX_RE] matches a
    hyphen followed by one to six letters and nothing else. *)
Lemma SUFFIX_RE_match_spec (f : str) :
  ends_with (N.eqb newline) f = false ->
  SUFFIX_RE_match f = Spec.suffix_form f.
Proof.
  destruct f as [|c rest]; [reflexivity|].
  unfold ends_with. change (rev (c :: rest)) with (rev rest ++ [c]).
  unfold SUFFIX_RE_match, Spec.suffix_form.
  destruct (rev rest) as [|l r] eqn:E.
  - intros _. now rewrite !andb_assoc.
  - change ((l :: r) ++ [c]) with (l :: (r ++ [c])). cbv iota beta.
    intros H. rewrite N.eqb_sym in H. rewrite H. now rewrite !andb_assoc.
Qed.

End ReFacts.

(* ================================================================== *)
(** * Loops *)
(* ================================================================== *)

Section LoopFacts.

Context {S A B : Type}.

(** A loop that only appends to its list is a [flat_map]. *)
Lemma for_pure_append (body : list B -> A -> list B) (g : A -> list B) :
  (forall out x, body out x = out ++ g x) ->
  forall xs out, for_pure body xs out = out ++ flat_map g xs.
Proof.
  intros H. unfold for_pure. induction xs as [|x xs IH]; intros out; simpl.
  - now rewrite app_nil_r.
  - now rewrite IH, H, app_assoc.
Qed.

Lemma outcome_bind {X Y} (m : M X) (f : X -> M Y) :
  outcome (bind m f) =
  match outcome m with
  | Ok a => outcome (f a)
  | Raise e => Raise e
  end.
Proof.
  destruct m as [out [a|e]]; simpl; [|reflexivity].
  now destruct (f a).
Qed.

Lemma printed_bind {X Y} (m : M X) (f : X -> M Y) :
  printed (bind m f) =
  printed m ++ match outcome m with
               | Ok a => printed (f a)
               | Raise e => []
               end.
Proof.
  destruct m as [out [a|e]]; simpl; [|now rewrite app_nil_r].
  now destruct (f a).
Qed.

Lemma bind_ret_l {X Y} (a : X) (f : X -> M Y) : bind (ret a) f = f a.
Proof. unfold ret, bind. now destruct (f a). Qed.

Lemma bind_assoc {X Y Z} (m : M X) (f : X -> M Y) (g : Y -> M Z) :
  bind (bind m f) g = bind m (fun a => bind (f a) g).
Proof.
  destruct m as [out [a|e]]; simpl; [|reflexivity].
  destruct (f a) as [out' [b|e]]; simpl; [|reflexivity].
  destruct (g b). now rewrite app_assoc.
Qed.

Lemma bind_ext {X Y} (m : M X) (f g : X -> M Y) :
  (forall a, f a = g a) -> bind m f = bind m g.
Proof.
  intros H. destruct m as [out [a|e]]; simpl; [|reflexivity]. now rewrite H.
Qed.

Lemma for_each_app (body : S -> A -> M S) (xs ys : list A) (s : S) :
  for_each body (xs ++ ys) s = bind (for_each body xs s) (for_each body ys).
Proof.
  revert s; induction xs as [|x xs IH]; intros s.
  - change (for_each body [] s) with (ret s). now rewrite bind_ret_l.
  - change (for_each body ((x :: xs) ++ ys) s)
      with (bind (body s x) (for_each body (xs ++ ys))).
    change (for_each body (x :: xs) s) with (bind (body s x) (for_each body xs)).
    rewrite bind_assoc. apply bind_ext. exact IH.
Qed.

End LoopFacts.

(* ================================================================== *)
(** * Link cleaning and suffix expansion *)
(* ================================================================== *)

Section Cleaning.

Lemma anchor_text_no_newline (a : loc) :
  ends_with (N.eqb newline) (Spec.anchor_text a) = false.
Proof. apply ends_with_newline, get_text_end. Qed.

(** What one anchor adds to the result. *)
Lemma clean_links_flat (a_tags : list loc) :
  clean_links a_tags =
  flat_map (fun a =>
              let txt := Spec.anchor_text a in
              if str_in txt UNWANTED_TEXTS then []
              else if nonempty (DIGITS_TRAIL_RE_sub txt)
                   then [DIGITS_TRAIL_RE_sub txt] else [])
           a_tags.
Proof.
  unfold clean_links. rewrite for_pure_append with (g := fun a =>
    let txt := Spec.anchor_text a in
    if str_in txt UNWANTED_TEXTS then []
    else if nonempty (DIGITS_TRAIL_RE_sub txt)
         then [DIGITS_TRAIL_RE_sub txt] else []); [reflexivity|].
  intros out a. unfold Spec.anchor_text. cbv zeta.
  destruct (str_in _ UNWANTED_TEXTS); [now rewrite app_nil_r|].
  destruct (nonempty _); [reflexivity | now rewrite app_nil_r].
Qed.

(** C6.  For every list of anchors, [clean_links] gives the link-cleaning
    rule applied to their texts: the texts equal to one of the three
    boilerplate strings are dropped, the trailing digit run of every other
    text is stripped, the texts left empty are dropped, and the rest stay
    in their order.  The anchors "...vis mere", "begreb12", "ord" give
    "begreb", "ord". *)
Theorem clean_links_is_link_cleaning :
  (forall a_tags : list loc,
      clean_links a_tags = Spec.link_cleaning (map Spec.anchor_text a_tags))
  /\ map Spec.anchor_text Pages.three_anchors
       = [py "...vis mere"; py "begreb12"; py "ord"]
  /\ clean_links Pages.three_anchors = [py "begreb"; py "ord"].
Proof.
  split; [|split; reflexivity].
  intros a_tags. rewrite clean_links_flat. unfold Spec.link_cleaning.
  induction a_tags as [|a rest IH]; [reflexivity|].
  cbn [flat_map map filter]. cbv zeta. rewrite IH.
  destruct (str_in (Spec.anchor_text a) UNWANTED_TEXTS); cbn [negb]; [reflexivity|].
  cbn [map filter].
  rewrite (DIGITS_TRAIL_RE_sub_spec _ (anchor_text_no_newline a)).
  now destruct (nonempty (Spec.strip_trailing_digits (Spec.anchor_text a))).
Qed.

Lemma transform_wordforms_map (headword : str) (forms : list str) :
  transform_wordforms headword forms =
  map (fun f => if SUFFIX_RE_match f then headword ++ tl f else f) forms.
Proof.
  unfold transform_wordforms.
  rewrite for_pure_append with (g := fun f =>
    [if SUFFIX_RE_match f then headword ++ tl f else f]).
  - simpl. induction forms as [|f forms IH]; simpl; [reflexivity | now rewrite IH].
  - intros out f. destruct (SUFFIX_RE_match f); [|reflexivity].
    now destruct f.
Qed.

(** C7.  For every headword and every list of word forms none of which
    ends with a newline (the Word-Form Extractor trims every form), suffix
    expansion rewrites exactly the forms made of a hyphen and one to six
    letters, the Danish vowels included, to the headword followed by the
    form without its hyphen, and leaves every other form as it is. *)
Theorem transform_wordforms_expands (headword : str) (forms : list str) :
  Forall (fun f => ends_with (N.eqb newline) f = false) forms ->
  transform_wordforms headword forms = Spec.suffix_expansion headword forms.
Proof.
  intros H. rewrite transform_wordforms_map. unfold Spec.suffix_expansion.
  apply map_ext_in. intros f Hin. unfold Spec.expand.
  rewrite Forall_forall in H. now rewrite (SUFFIX_RE_match_spec _ (H f Hin)).
Qed.

(** The forms "-et", "-ene" of "hus" become "huset", "husene". *)
Lemma transform_wordforms_expands_witness :
  Forall (fun f => ends_with (N.eqb newline) f = false) [py "-et"; py "-ene"]
  /\ transform_wordforms (py "hus") [py "-et"; py "-ene"]
     = Spec.suffix_expansion (py "hus") [py "-et"; py "-ene"]
  /\ Spec.suffix_expansion (py "hus") [py "-et"; py "-ene"]
     = [py "huset"; py "husene"].
Proof.
  split; [repeat constructor|]. split; [|reflexivity].
  apply (transform_wordforms_expands (py "hus") [py "-et"; py "-ene"]).
  repeat constructor.
Defined.

(** The forms [parse_entry] hands to [transform_wordforms] are trimmed. *)
Lemma parse_wordforms_trimmed (soup : loc) :
  Forall (fun f => ends_with (N.eqb newline) f = false) (parse_wordforms soup).
Proof.
  unfold parse_wordforms. destruct (find_stempel Boejning soup); [|constructor].
  apply Forall_forall. intros f Hin. apply in_map_iff in Hin as (g & <- & _).
  apply ends_with_newline, strip_end.
Qed.

End Cleaning.

(* ================================================================== *)
(** * Pronunciation labels *)
(* ================================================================== *)

Section Udtale.

Lemma scan_label_cons (prev : node) (rest : list node) :
  scan_label (prev :: rest) =
  if negb (is_tag prev) then scan_label rest
  else if has_class "diskret" prev then Some (get_text " " prev)
  else if has_class "lydskrift" prev then None
  else scan_label rest.
Proof. reflexivity. Qed.

Lemma attached_pending_after (seen : list loc) :
  Spec.attached (Shape.pending_after seen) = scan_label (rev (map here seen)).
Proof.
  unfold Shape.pending_after. now destruct (scan_label _).
Qed.

(** One node seen: the slot of the machine moves as the backward search
    over one more child does, and the machine emits what the loop of the
    code appends. *)
Lemma machine_step_tracks (seen rest : list loc) (node : loc) (out : list pyval) :
  Spec.machine_step (Shape.pending_after seen, out) node =
  (Shape.pending_after (seen ++ [node]),
   udtale_step ((seen ++ [node]) ++ rest) out (length seen, node)).
Proof.
  unfold Spec.machine_step, udtale_step, Spec.is_transcription,
    Spec.is_discrete_label, is_lydskrift.
  cbn [fst snd].
  rewrite <- app_assoc, firstn_app, Nat.sub_diag, firstn_all, firstn_O, app_nil_r.
  rewrite attached_pending_after.
  unfold Shape.pending_after at 3.
  rewrite map_app, rev_app_distr. cbn [map rev app]. rewrite scan_label_cons.
  destruct (is_tag (here node)); cbn [negb andb].
  - destruct (has_class "lydskrift" (here node)),
             (has_class "diskret" (here node)); reflexivity.
  - reflexivity.
Qed.

Lemma udtale_loop (rest seen : list loc) (out : list pyval) :
  for_pure (udtale_step (seen ++ rest))
           (combine (seq (length seen) (length rest)) rest) out
  = snd (fold_left Spec.machine_step rest (Shape.pending_after seen, out)).
Proof.
  unfold for_pure. revert seen out.
  induction rest as [|node rest IH]; intros seen out; [reflexivity|].
  cbn [length seq combine fold_left].
  rewrite (machine_step_tracks seen rest node out).
  replace (seen ++ node :: rest) with ((seen ++ [node]) ++ rest)
    by now rewrite <- app_assoc.
  replace (Datatypes.S (length seen)) with (length (seen ++ [node]))
    by (rewrite length_app; simpl; lia).
  apply IH.
Qed.

(** C5.  For every list of children of the pronunciation block, the rows
    the code builds with its backward search from every transcription are
    the rows of the single forward pass of the pending-label machine; a
    node that is both a transcription and a discrete label takes the
    pending label first and then fills the slot for the transcription that
    follows.  On the children label "navneord", transcription,
    transcription, the first transcription is labelled "navneord" and the
    second has no label. *)
Theorem udtale_rows_is_forward_pass :
  (forall children : list loc,
      udtale_rows children = Spec.forward_pass children)
  /\ map (fun row => match row with
                     | PDict d => dict_get d (py "label")
                     | _ => None
                     end)
         (udtale_rows Pages.udtale_children)
     = [Some (PStr (py "navneord")); Some PNone].
Proof.
  split; [|reflexivity].
  intros children. unfold udtale_rows, Spec.forward_pass, enumerate.
  exact (udtale_loop children [] []).
Qed.

(** A label does not reach past a transcription: after a transcription
    that is not a label itself, and nodes that are no labels, the next
    transcription gets none. *)
Lemma label_does_not_cross (seen between : list node) (t : node) :
  is_tag t = true -> has_class "lydskrift" t = true ->
  has_class "diskret" t = false ->
  Forall (fun n => has_class "diskret" n = false) between ->
  scan_label (rev (seen ++ t :: between)) = None.
Proof.
  intros Ht Hl Hd Hb.
  replace (seen ++ t :: between) with ((seen ++ [t]) ++ between)
    by now rewrite <- app_assoc.
  rewrite rev_app_distr. revert Hb.
  induction between as [|n between IH] using rev_ind; intros Hb.
  - cbn [rev app]. rewrite rev_app_distr. cbn [rev app].
    now rewrite scan_label_cons, Ht, Hd, Hl.
  - apply Forall_app in Hb as [Hb Hn]. apply Forall_inv in Hn.
    rewrite rev_app_distr. cbn [rev app]. rewrite scan_label_cons, Hn.
    destruct (is_tag n); cbn [negb]; [|exact (IH Hb)].
    destruct (has_class "lydskrift" n); [reflexivity | exact (IH Hb)].
Qed.

End Udtale.

(* ================================================================== *)
(** * Senses and their indent blocks *)
(* ================================================================== *)

Section Senses.

Lemma has_class_is_tag (c : string) (n : node) :
  has_class c n = true -> is_tag n = true.
Proof. destruct n; simpl; congruence. Qed.

(** The scan finds the first following sibling that carries the indent
    marker, whatever comes before it. *)
Lemma find_indent_first (num_tag : loc) (pre post : list node) (ind : node) :
  next num_tag = pre ++ ind :: post ->
  has_class "definitionIndent" ind = true ->
  Forall (fun n => has_class "definitionIndent" n = false) pre ->
  find_indent num_tag = Some (mk_loc ind (up num_tag) post).
Proof.
  intros Hnext Hind Hpre. unfold find_indent, find_next_siblings.
  rewrite Hnext. clear Hnext.
  induction Hpre as [|n pre Hn Hpre IH].
  - cbn [app place filter here]. rewrite (has_class_is_tag _ _ Hind).
    cbn [find here]. now rewrite Hind.
  - cbn [app place filter here].
    destruct (is_tag n); [cbn [find here]; rewrite Hn|]; exact IH.
Qed.

Lemma find_indent_none (num_tag : loc) :
  Forall (fun n => has_class "definitionIndent" n = false) (next num_tag) ->
  find_indent num_tag = None.
Proof.
  unfold find_indent, find_next_siblings.
  generalize (up num_tag) as above. intros above H.
  induction H as [|n rest Hn Hrest IH]; [reflexivity|].
  cbn [place filter here].
  destruct (is_tag n); [cbn [find here]; rewrite Hn|]; exact IH.
Qed.

(** The step the loop repeats: the next tag, tested, else on from there. *)
Lemma find_indent_unfold (num_tag : loc) :
  find_indent num_tag =
  match find_next_sibling num_tag with
  | None => None
  | Some indent =>
      if has_class "definitionIndent" (here indent) then Some indent
      else find_indent indent
  end.
Proof.
  unfold find_indent, find_next_sibling, find_next_siblings.
  generalize (up num_tag) as above. intros above.
  induction (next num_tag) as [|n rest IH]; [reflexivity|].
  cbn [place filter here].
  destruct (is_tag n); [reflexivity | exact IH].
Qed.

(** A sense bound to an indent block and not raising appends one record,
    read from that block. *)
Lemma sense_bound (fn : str) (out out' : list pyval) (num_tag indent : loc) :
  find_indent num_tag = Some indent ->
  outcome (sense fn out num_tag) = Ok out' ->
  exists v, out' = out ++ [v] /\ Shape.record_of num_tag v.
Proof.
  intros Hfind. unfold sense. rewrite Hfind. rewrite outcome_bind.
  destruct (outcome (for_each _ _ _)) as [examples|e]; [|discriminate].
  intros [= <-]. eexists. split; [reflexivity|].
  exists indent. eexists. split; [exact Hfind|]. split; [reflexivity|].
  destruct (select_one (definition_box "onym") indent),
           (select_one (definition_box "rel-begreber") indent);
    repeat split.
Qed.

Lemma sense_dropped (fn : str) (out : list pyval) (num_tag : loc) :
  find_indent num_tag = None ->
  sense fn out num_tag =
  ([no_indent_warning fn (get_text "" (here num_tag))], Ok out).
Proof. unfold sense. now intros ->. Qed.

Lemma dropped_sense_leaves_rest (fn : str) (num_tag : loc)
  (before after : list loc) (out : list pyval) :
  find_indent num_tag = None ->
  outcome (for_each (sense fn) (before ++ num_tag :: after) out)
  = outcome (for_each (sense fn) (before ++ after) out).
Proof.
  intros H. rewrite !for_each_app, !outcome_bind.
  destruct (outcome (for_each (sense fn) before out)) as [s|e]; [|reflexivity].
  change (for_each (sense fn) (num_tag :: after) s)
    with (bind (sense fn s num_tag) (for_each (sense fn) after)).
  now rewrite outcome_bind, (sense_dropped fn s num_tag H).
Qed.

(** C1, as amended.  For every number marker, the sense binds the first
    following sibling that carries the indent marker, wherever it lies
    among the following siblings, and its record is read from that block;
    when no following sibling carries the marker, the miss is logged, the
    sense alone is dropped, and the other markers of the block give what
    they give without it. *)
Theorem sense_binds_first_indent (fn : str) (num_tag : loc) :
  (forall pre ind post,
      next num_tag = pre ++ ind :: post ->
      has_class "definitionIndent" ind = true ->
      Forall (fun n => has_class "definitionIndent" n = false) pre ->
      find_indent num_tag = Some (mk_loc ind (up num_tag) post)
      /\ forall out out',
           outcome (sense fn out num_tag) = Ok out' ->
           exists v, out' = out ++ [v] /\ Shape.record_of num_tag v)
  /\ (Forall (fun n => has_class "definitionIndent" n = false) (next num_tag) ->
      (forall out,
          sense fn out num_tag =
          ([no_indent_warning fn (get_text "" (here num_tag))], Ok out))
      /\ (forall before after out,
             outcome (for_each (sense fn) (before ++ num_tag :: after) out)
             = outcome (for_each (sense fn) (before ++ after) out))).
Proof.
  split.
  - intros pre ind post Hnext Hind Hpre.
    assert (Hfind := find_indent_first num_tag pre post ind Hnext Hind Hpre).
    split; [exact Hfind|]. intros out out'. now apply sense_bound with (1 := Hfind).
  - intros H. apply find_indent_none in H. split.
    + intros out. now apply sense_dropped.
    + intros before after out. now apply dropped_sense_leaves_rest.
Qed.

(** On the block [1., 2., indent] the first marker binds the indent block
    that lies after the second marker; on [1., indent, 2.] the second
    marker has none, is logged and dropped. *)
Lemma sense_binds_first_indent_witness :
  find_indent Pages.first_marker
    = Some (mk_loc Pages.bygning (up Pages.first_marker) [])
  /\ nth_error (Shape.number_markers Pages.page_second_without_indent) 1
     = Some Pages.last_marker
  /\ sense (py "hus.html") [Shape.bare_record "1." "bygning"] Pages.last_marker
     = ([no_indent_warning (py "hus.html") (py "2.")],
        Ok [Shape.bare_record "1." "bygning"])
  /\ parse_definitions Pages.page_second_without_indent (py "hus.html")
     = ([no_indent_warning (py "hus.html") (py "2.")],
        Ok [Shape.bare_record "1." "bygning"]).
Proof.
  split; [|split; [reflexivity|split; [|reflexivity]]].
  - apply (proj1 (sense_binds_first_indent (py "hus.html") Pages.first_marker)
             [Pages.number "2."] Pages.bygning []).
    + reflexivity.
    + reflexivity.
    + repeat constructor.
  - apply (proj2 (sense_binds_first_indent (py "hus.html") Pages.last_marker)).
    constructor.
Defined.

(** The claim as worded fails: in the block [1., 2., indent] the scan from
    the first marker, were it given up at the next number marker, would
    find nothing; the code binds the indent block beyond the second
    marker, logs nothing and gives two senses with the same definition. *)
Lemma scan_passes_number_marker :
  hd_error (Shape.number_markers Pages.page_two_markers_one_indent)
    = Some Pages.first_marker
  /\ Spec.bounded_find_indent Pages.first_marker = None
  /\ find_indent Pages.first_marker
     = Some (mk_loc Pages.bygning (up Pages.first_marker) [])
  /\ parse_definitions Pages.page_two_markers_one_indent (py "hus.html")
     = ([], Ok [Shape.bare_record "1." "bygning";
                Shape.bare_record "2." "bygning"]).
Proof. repeat split. Qed.

End Senses.

(* ================================================================== *)
(** * The keys of the records *)
(* ================================================================== *)

Section Keys.

(** The records of a run of the loop are those of the markers an indent
    block follows, one for one and in order. *)
Lemma senses_of_markers (fn : str) (markers : list loc) :
  forall out out',
    outcome (for_each (sense fn) markers out) = Ok out' ->
    exists records,
      out' = out ++ records
      /\ Forall2 Shape.record_of
           (filter (fun m => Shape.is_some (find_indent m)) markers) records.
Proof.
  induction markers as [|m markers IH]; intros out out'.
  - intros [= <-]. exists []. split; [now rewrite app_nil_r | constructor].
  - change (for_each (sense fn) (m :: markers) out)
      with (bind (sense fn out m) (for_each (sense fn) markers)).
    rewrite outcome_bind.
    destruct (outcome (sense fn out m)) as [s|e] eqn:Hs; [|discriminate].
    intros H. apply IH in H as (records & -> & Hrec).
    cbn [filter]. destruct (find_indent m) as [indent|] eqn:Hfind; cbn [Shape.is_some].
    + destruct (sense_bound fn out s m indent Hfind Hs) as (v & -> & Hv).
      exists (v :: records). split; [now rewrite <- app_assoc|].
      now constructor.
    + rewrite (sense_dropped fn out m Hfind) in Hs. injection Hs as <-.
      now exists records.
Qed.

Lemma parse_definitions_records (fn : str) (soup : loc) (definitions : list pyval) :
  outcome (parse_definitions soup fn) = Ok definitions ->
  Forall2 Shape.record_of (Shape.bound_markers soup) definitions.
Proof.
  unfold parse_definitions, Shape.bound_markers, Shape.number_markers.
  destruct (find_id "content-betydninger" soup) as [container|].
  - intros H. apply senses_of_markers in H as (records & -> & H). exact H.
  - intros [= <-]. constructor.
Qed.

(** What [parse_entry] has done when it returns an Entry. *)
Lemma parse_entry_some (fn : str) (soup : loc) (e : dict) :
  outcome (parse_entry fn soup) = Ok (Some e) ->
  exists art head udtale definitions fixed_expressions orddannelser,
    select_one [with_class (tag_ "div") "artikel"] soup = Some art
    /\ select_one (banner "match") art = Some head
    /\ outcome (parse_definitions soup fn) = Ok definitions
    /\ e = [(py "file", PStr fn);
            (py "headword",
             PStr (strip (DIGITS_TRAIL_RE_sub (strip (get_text "" (here head))))));
            (py "pos",
             opt_str (option_map (fun p => get_text "" (here p))
                                 (select_one (banner "tekstmedium") art)));
            (py "udtale", PList udtale);
            (py "wordforms",
             str_list
               (transform_wordforms
                  (strip (DIGITS_TRAIL_RE_sub (strip (get_text "" (here head)))))
                  (filter (fun f => negb (str_eqb f (get_text "" (here head))))
                          (parse_wordforms soup))));
            (py "etymology", parse_etymology soup);
            (py "definitions", PList definitions);
            (py "fixed_expressions", PList fixed_expressions);
            (py "orddannelser", PDict orddannelser)].
Proof.
  unfold parse_entry.
  destruct (select_one [with_class (tag_ "div") "artikel"] soup) as [art|] eqn:Hart;
    [|discriminate].
  destruct (select_one (banner "match") art) as [head|] eqn:Hhead; [|discriminate].
  cbn [deref]. rewrite bind_ret_l. cbv zeta.
  rewrite outcome_bind.
  destruct (outcome (parse_udtale soup fn)) as [udtale|]; [|discriminate].
  rewrite outcome_bind.
  destruct (outcome (parse_definitions soup fn)) as [definitions|]; [|discriminate].
  rewrite outcome_bind.
  destruct (outcome (parse_fixed_expressions soup)) as [fixed|]; [|discriminate].
  rewrite outcome_bind.
  destruct (outcome (parse_orddannelser soup)) as [ordd|]; [|discriminate].
  intros [= <-].
  exists art, head, udtale, definitions, fixed, ordd. now repeat split.
Qed.

End Keys.

(* ================================================================== *)
(** * Missing markup *)
(* ================================================================== *)

Section MissingMarkup.

(** A page without the root article is skipped. *)
Lemma parse_entry_without_artikel (fn : str) (soup : loc) :
  select_one [with_class (tag_ "div") "artikel"] soup = None ->
  parse_entry fn soup = ret None.
Proof. unfold parse_entry. now intros ->. Qed.

(** A page with the root article and without the banner raises. *)
Lemma parse_entry_without_banner (fn : str) (soup art : loc) :
  select_one [with_class (tag_ "div") "artikel"] soup = Some art ->
  select_one (banner "match") art = None ->
  parse_entry fn soup = ([], Raise AttributeError).
Proof. unfold parse_entry. now intros -> ->. Qed.

(** C3.  The code at three pages it can be given, each with its root
    article: without the banner, [parse_entry] raises; so it does when a
    word-formation box has no category label, and when a citation box has
    no citation text.  None of the three is reported as skipped. *)
Theorem missing_markup_raises :
  parse_entry (py "hus.html") Pages.page_without_banner
    = ([], Raise AttributeError)
  /\ outcome (parse_orddannelser Pages.page_box_without_stempel)
     = Raise AttributeError
  /\ outcome (parse_entry (py "hus.html") Pages.page_box_without_stempel)
     = Raise AttributeError
  /\ outcome (parse_definitions Pages.page_citat_box_without_citat (py "hus.html"))
     = Raise AttributeError
  /\ outcome (parse_entry (py "hus.html") Pages.page_citat_box_without_citat)
     = Raise AttributeError.
Proof. repeat split. Qed.

End MissingMarkup.

(* ================================================================== *)
(** * The headword *)
(* ================================================================== *)

Section Headword.

Lemma headword_of_banner (raw : str) :
  starts_with isspace raw = false ->
  ends_with isspace raw = false ->
  let r := Spec.strip_trailing_digits raw in
  strip (DIGITS_TRAIL_RE_sub (strip raw)) = strip r
  /\ (strip r = [] <-> forallb isdigit raw = true)
  /\ ends_with isspace (strip r) = false
  /\ (ends_with isspace r = false ->
      strip r = r /\ ends_with isdigit (strip r) = false).
Proof.
  intros Hstart Hend r.
  assert (Hr : r <> [] -> starts_with isspace r = false).
  { intros H. unfold r, Spec.strip_trailing_digits.
    now rewrite rstrip_by_keeps_start. }
  split; [|split; [|split]].
  - rewrite (strip_id raw Hstart Hend).
    now rewrite DIGITS_TRAIL_RE_sub_spec by now apply ends_with_newline.
  - split.
    + intros H. apply rstrip_by_nil. fold (Spec.strip_trailing_digits raw).
      fold r. destruct r as [|c r'] eqn:E; [reflexivity|].
      exfalso. apply (strip_not_nil c r'); [|exact H].
      apply Hr. discriminate.
    + intros H. apply rstrip_by_nil in H.
      unfold r, Spec.strip_trailing_digits. now rewrite H.
  - apply strip_end.
  - intros H.
    assert (Hid : strip r = r).
    { destruct r as [|c r'] eqn:E; [reflexivity|].
      apply strip_id; [apply Hr; discriminate | exact H]. }
    split; [exact Hid|]. rewrite Hid. apply rstrip_by_end.
Qed.

Lemma parse_udtale_returns (soup : loc) (fn : str) :
  exists rows, outcome (parse_udtale soup fn) = Ok rows.
Proof.
  unfold parse_udtale.
  destruct (select_one _ soup) as [container|]; [|now exists []].
  destruct (select_one _ container); eexists; reflexivity.
Qed.

(** No test stands between the banner and the Entry: with the root
    article and the banner there, and the extractors that can raise not
    raising, the page yields an Entry, whatever its headword. *)
Lemma parse_entry_yields (fn : str) (soup art head : loc)
  (definitions fixed_expressions : list pyval) (orddannelser : dict) :
  select_one [with_class (tag_ "div") "artikel"] soup = Some art ->
  select_one (banner "match") art = Some head ->
  outcome (parse_definitions soup fn) = Ok definitions ->
  outcome (parse_fixed_expressions soup) = Ok fixed_expressions ->
  outcome (parse_orddannelser soup) = Ok orddannelser ->
  exists e, outcome (parse_entry fn soup) = Ok (Some e).
Proof.
  intros Hart Hhead Hdefs Hfixed Hordd. unfold parse_entry.
  rewrite Hart, Hhead. cbn [deref]. rewrite bind_ret_l. cbv zeta.
  destruct (parse_udtale_returns soup fn) as (rows & Hrows).
  rewrite outcome_bind, Hrows, outcome_bind, Hdefs, outcome_bind, Hfixed,
    outcome_bind, Hordd.
  eexists. reflexivity.
Qed.

(** C4, as amended.  For every page that yields an Entry, the headword is
    the banner text without its trailing digit run, trimmed.  It is empty
    exactly when the banner text consists of digits only, and such a page
    still yields an Entry.  It never ends with white space, and it has no
    trailing digit when the banner text has no white space just before
    its trailing digit run. *)
Theorem headword_of_entry (fn : str) (soup : loc) (e : dict) :
  outcome (parse_entry fn soup) = Ok (Some e) ->
  exists art head,
    select_one [with_class (tag_ "div") "artikel"] soup = Some art
    /\ select_one (banner "match") art = Some head
    /\ let raw := get_text "" (here head) in
       let headword := strip (Spec.strip_trailing_digits raw) in
       dict_get e (py "headword") = Some (PStr headword)
       /\ (headword = [] <-> forallb isdigit raw = true)
       /\ ends_with isspace headword = false
       /\ (ends_with isspace (Spec.strip_trailing_digits raw) = false ->
           headword = Spec.strip_trailing_digits raw
           /\ ends_with isdigit headword = false).
Proof.
  intros H.
  apply parse_entry_some in H
    as (art & head & udtale & definitions & fixed & ordd & Hart & Hhead & _ & ->).
  exists art, head. split; [exact Hart|]. split; [exact Hhead|].
  destruct (headword_of_banner (get_text "" (here head))
              (get_text_start "" (here head)) (get_text_end "" (here head)))
    as (Hsub & Hnil & Hend & Hdigit).
  cbv zeta. split; [|split; [exact Hnil | split; [exact Hend | exact Hdigit]]].
  change (dict_get _ (py "headword"))
    with (Some (PStr (strip (DIGITS_TRAIL_RE_sub
                               (strip (get_text "" (here head))))))).
  now rewrite Hsub.
Qed.

(** [page_hus], with the banner text "hus3", has the headword "hus". *)
Lemma headword_of_entry_witness :
  exists e,
    outcome (parse_entry (py "hus.html") Pages.page_hus) = Ok (Some e)
    /\ dict_get e (py "headword") = Some (PStr (py "hus")).
Proof.
  eexists. split; [vm_compute; reflexivity|].
  destruct (headword_of_entry (py "hus.html") Pages.page_hus _ eq_refl)
    as (art & head & Hart & Hhead & Hword & _).
  vm_compute in Hart. injection Hart as <-.
  vm_compute in Hhead. injection Hhead as <-.
  exact Hword.
Defined.

(** The claim as worded fails: a banner text of digits only gives an Entry
    all the same, with the empty headword; and the banner text "hus1 2"
    gives the headword "hus1", which ends with a digit. *)
Lemma empty_headword_yields_entry :
  (exists e,
      outcome (parse_entry (py "123.html") Pages.page_digits_only) = Ok (Some e)
      /\ dict_get e (py "headword") = Some (PStr []))
  /\ (exists e,
         outcome (parse_entry (py "hus.html") Pages.page_digit_space_digit)
           = Ok (Some e)
         /\ dict_get e (py "headword") = Some (PStr (py "hus1"))
         /\ ends_with isdigit (py "hus1") = true).
Proof.
  split; eexists; (split; [vm_compute; reflexivity|]); repeat split.
Qed.

End Headword.

(* ================================================================== *)
(** * Fixed expressions *)
(* ================================================================== *)

Section FixedExpressions.

Lemma is_udtryk_stops_walk (n : node) :
  is_udtryk n = true ->
  truthy n = true /\ is_tag n = true
  /\ has_name "div" n && startswith (get_id n) (py "udtryk-") = true.
Proof.
  unfold is_udtryk. destruct n as [s|s|nm a ch]; try discriminate.
  intros H. apply andb_true_iff in H as [Hname Hid].
  repeat split. rewrite Hname. cbn [andb get_id].
  destruct (attr_id a) as [i|]; [|discriminate].
  cbn [attr_test] in Hid. unfold udtryk_re_search in Hid.
  now apply andb_true_iff in Hid as [Hid _].
Qed.

(** The walk of an expression ends at the next container: the details are
    those of the siblings before it. *)
Lemma collect_details_stops (ud_id : str) (above : list (str * attrs))
  (container : node) (pre post : list node) :
  is_udtryk container = true ->
  forall details,
    collect_details ud_id above (pre ++ container :: post) details
    = collect_details ud_id above pre details.
Proof.
  intros H. apply is_udtryk_stops_walk in H as (Htruthy & Htag & Hstop).
  induction pre as [|n pre IH]; intros details.
  - cbn [app collect_details]. now rewrite Htruthy, Htag, Hstop.
  - cbn [app collect_details].
    destruct (truthy n); cbn [negb]; [|reflexivity].
    destruct (is_tag n); [|apply IH].
    destruct (has_name "div" n && startswith (get_id n) (py "udtryk-"));
      [reflexivity|].
    destruct (has_class "definitionIndent" n); [|apply IH].
    apply bind_ext. exact IH.
Qed.

Lemma fixed_expression_without_match (out : list pyval) (ud : loc) :
  select_one [with_class (tag_ "span") "match"] ud = None ->
  fixed_expression out ud = ret out.
Proof. unfold fixed_expression. now intros ->. Qed.

(** C10, as amended.  A [div] the id of which matches the pattern of the
    containers and that has no highlighted match span gives no record,
    prints nothing and raises nothing; the records of a run over the
    containers are those of the run without it; and the walk of an
    expression that has it among its following siblings ends at it: the
    details of that expression are those of the siblings before the
    container, and nothing that follows the container is attached to
    it.  Nothing is said of a matched [div] that no such walk meets. *)
Theorem container_without_match_skipped (ud : loc) :
  is_udtryk (here ud) = true ->
  select_one [with_class (tag_ "span") "match"] ud = None ->
  (forall out, fixed_expression out ud = ([], Ok out))
  /\ (forall before after out,
         for_each fixed_expression (before ++ ud :: after) out
         = for_each fixed_expression (before ++ after) out)
  /\ (forall ud_id above pre post details,
         collect_details ud_id above (pre ++ here ud :: post) details
         = collect_details ud_id above pre details).
Proof.
  intros Hud Hmatch. split; [|split].
  - intros out. now apply fixed_expression_without_match.
  - intros before after out. rewrite !for_each_app. apply bind_ext. intros s.
    change (for_each fixed_expression (ud :: after) s)
      with (bind (fixed_expression s ud) (for_each fixed_expression after)).
    now rewrite (fixed_expression_without_match s ud Hmatch), bind_ret_l.
  - intros ud_id above pre post details.
    now apply collect_details_stops.
Qed.

(** In [page_hus] the container [udtryk-2] has no match span: the page has
    the records of "holde hus" and "hus og hjem" only, and the grammar box
    after [udtryk-2] is in neither.  The pattern of the containers also
    matches the box [udtryk-1-betydning-1], found before [udtryk-2]; it
    has no match span either and goes the same way. *)
Lemma container_without_match_skipped_witness :
  In Pages.udtryk_2
     (match select_one [with_id any "content-faste-udtryk"] Pages.page_hus with
      | Some sec => find_all_udtryk sec
      | None => []
      end)
  /\ fixed_expression [] Pages.udtryk_2 = ([], Ok [])
  /\ parse_fixed_expressions Pages.page_hus
     = ([], Ok [PDict [(py "expression", PStr (py "holde hus"));
                       (py "details",
                        PList [detail_text "definition" (py "regere")])];
                PDict [(py "expression", PStr (py "hus og hjem"));
                       (py "details",
                        PList [PDict [(py "type", PStr (py "example"));
                                      (py "text", PStr (py "fra hus og hjem"));
                                      (py "source", PStr (py "roman"))]])]]).
Proof.
  split; [do 2 right; left; reflexivity|]. split; [|reflexivity].
  apply (proj1 (container_without_match_skipped Pages.udtryk_2 eq_refl eq_refl)).
Defined.

(** The pattern of the containers also matches a sense box inside an
    indent block.  In [page_sense_box] the box [udtryk-1-betydning-1] is
    such a container without match span, and the see-also box that
    follows it is attached to the record of "holde hus". *)
Lemma sense_box_followers_attached :
  exists ud onym,
    In ud (Output.fixed_expression_containers Pages.page_sense_box)
    /\ is_udtryk (here ud) = true
    /\ select_one [with_class (tag_ "span") "match"] ud = None
    /\ fixed_expression [] ud = ([], Ok [])
    /\ next ud = [onym]
    /\ box_detail (py "udtryk-1") [] (mk_loc onym (up ud) [])
       = ([], Ok [detail_items "see_also" [py "styre"]])
    /\ parse_fixed_expressions Pages.page_sense_box
       = ([], Ok [PDict [(py "expression", PStr (py "holde hus"));
                         (py "details",
                          PList [detail_text "definition" (py "regere");
                                 detail_items "see_also" [py "styre"]])]]).
Proof.
  eexists. eexists. split; [right; left; reflexivity|].
  repeat split.
Qed.

End FixedExpressions.

(* ================================================================== *)
(** * The batch *)
(* ================================================================== *)

Section Batch.

Lemma for_each_invariant {S A} (P : S -> Prop) (body : S -> A -> M S) :
  (forall s x s', P s -> outcome (body s x) = Ok s' -> P s') ->
  forall xs s s', P s -> outcome (for_each body xs s) = Ok s' -> P s'.
Proof.
  intros Hbody. induction xs as [|x xs IH]; intros s s' Hs.
  - now intros [= <-].
  - change (for_each body (x :: xs) s) with (bind (body s x) (for_each body xs)).
    rewrite outcome_bind. destruct (outcome (body s x)) as [s1|e] eqn:E;
      [|discriminate].
    apply IH. now apply (Hbody s x).
Qed.

Lemma parse_entry_file (fn : str) (soup : loc) (e : dict) :
  outcome (parse_entry fn soup) = Ok (Some e) ->
  Shape.file_of e = Some (PStr fn).
Proof.
  intros H. apply parse_entry_some in H as (? & ? & ? & ? & ? & ? & _ & _ & _ & ->).
  reflexivity.
Qed.

(** Only a page without the root article is skipped. *)
Lemma parse_entry_none (fn : str) (soup : loc) :
  outcome (parse_entry fn soup) = Ok None ->
  select_one [with_class (tag_ "div") "artikel"] soup = None.
Proof.
  unfold parse_entry.
  destruct (select_one [with_class (tag_ "div") "artikel"] soup) as [art|];
    [|reflexivity].
  rewrite outcome_bind.
  destruct (outcome (deref _)); [|discriminate]. cbv zeta.
  rewrite outcome_bind.
  destruct (outcome (parse_udtale soup fn)); [|discriminate].
  rewrite outcome_bind.
  destruct (outcome (parse_definitions soup fn)); [|discriminate].
  rewrite outcome_bind.
  destruct (outcome (parse_fixed_expressions soup)); [|discriminate].
  rewrite outcome_bind.
  destruct (outcome (parse_orddannelser soup)); discriminate.
Qed.

Lemma main_step_from_html (page : str -> loc) (st st' : batch) (fn : str) :
  Shape.from_html st -> outcome (main_step page st fn) = Ok st' ->
  Shape.from_html st'.
Proof.
  destruct st as [entries skipped]. intros [He Hs]. unfold main_step.
  destruct (endswith fn (py ".html")) eqn:Hhtml; cbn [negb].
  - rewrite outcome_bind.
    destruct (outcome (parse_entry fn (page fn))) as [[e|]|] eqn:Hp;
      intros [= <-]; split; cbn [fst snd] in *; try assumption.
    + apply Forall_app. split; [exact He|]. constructor; [|constructor].
      exists fn. split; [now apply parse_entry_file with (soup := page fn) | exact Hhtml].
    + apply Forall_app. split; [exact Hs|]. now constructor.
  - now intros [= <-].
Qed.

Lemma main_loop_from_html (listdir : list str) (page : str -> loc) (st : batch) :
  outcome (main_loop listdir page) = Ok st -> Shape.from_html st.
Proof.
  unfold main_loop. apply for_each_invariant.
  - intros s x s'. apply main_step_from_html.
  - split; constructor.
Qed.

Lemma main_step_override (page : str -> loc) (fn : str) (doc : loc)
  (st : batch) (name : str) :
  endswith fn (py ".html") = false ->
  main_step (Shape.override page fn doc) st name = main_step page st name.
Proof.
  intros Hfn. unfold main_step, Shape.override. destruct st as [entries skipped].
  destruct (endswith name (py ".html")) eqn:Hname; cbn [negb]; [|reflexivity].
  destruct (str_eqb name fn) eqn:E; [|reflexivity].
  apply str_eqb_eq in E. congruence.
Qed.

Lemma for_each_ext {S A} (f g : S -> A -> M S) (xs : list A) (s : S) :
  (forall s x, f s x = g s x) -> for_each f xs s = for_each g xs s.
Proof.
  intros H. revert s. induction xs as [|x xs IH]; intros s; [reflexivity|].
  cbn [for_each]. rewrite H. apply bind_ext. exact IH.
Qed.

(** C9.  A file of the directory whose name does not end in ".html" is
    not parsed: the whole run of [main], printed lines and written
    entries, is the same whatever the file holds.  And when the loop
    ends, the name is not among the skipped names and no Entry comes
    from it. *)
Theorem non_html_file_ignored (listdir : list str) (page : str -> loc) (fn : str) :
  endswith fn (py ".html") = false ->
  (forall doc, main listdir (Shape.override page fn doc) = main listdir page)
  /\ (forall entries skipped_files,
         outcome (main_loop listdir page) = Ok (entries, skipped_files) ->
         ~ In fn skipped_files
         /\ forall e, In e entries -> Shape.file_of e <> Some (PStr fn)).
Proof.
  intros Hfn. split.
  - intros doc. unfold main, main_loop.
    rewrite for_each_ext with (g := main_step page); [reflexivity|].
    intros s x. now apply main_step_override.
  - intros entries skipped H. apply main_loop_from_html in H as [He Hs].
    cbn [fst snd] in *. split.
    + intros Hin. rewrite Forall_forall in Hs. apply Hs in Hin.
      unfold Shape.is_html in Hin. congruence.
    + intros e Hin Hfile. rewrite Forall_forall in He.
      destruct (He e Hin) as (name & Hname & Hhtml).
      unfold Shape.is_html in Hhtml. congruence.
Qed.

(** The directory [ddo_html] holds "notes.txt" beside three pages. *)
Lemma non_html_file_ignored_witness :
  In (py "notes.txt") Pages.ddo_html
  /\ endswith (py "notes.txt") (py ".html") = false
  /\ (forall doc,
         main Pages.ddo_html (Shape.override Pages.ddo_page (py "notes.txt") doc)
         = main Pages.ddo_html Pages.ddo_page)
  /\ (forall entries skipped_files,
         outcome (main_loop Pages.ddo_html Pages.ddo_page)
           = Ok (entries, skipped_files) ->
         ~ In (py "notes.txt") skipped_files
         /\ forall e, In e entries -> Shape.file_of e <> Some (PStr (py "notes.txt"))).
Proof.
  split; [right; left; reflexivity|]. split; [reflexivity|].
  apply (non_html_file_ignored Pages.ddo_html Pages.ddo_page (py "notes.txt")).
  reflexivity.
Defined.

End Batch.

(* ================================================================== *)
(** * The order of the batch and its report *)
(* ================================================================== *)

Section Order.

Lemma str_leb_total (a b : str) : str_leb a b = false -> str_leb b a = true.
Proof.
  revert b; induction a as [|x a IH]; intros [|y b]; simpl; try congruence.
  intros H. apply orb_false_iff in H as [Hlt H].
  apply N.ltb_ge in Hlt.
  destruct (N.eqb x y) eqn:E.
  - apply N.eqb_eq in E. subst y. rewrite N.eqb_refl. simpl in H.
    rewrite (IH b H). apply orb_true_r.
  - apply N.eqb_neq in E. apply orb_true_iff. left. apply N.ltb_lt. lia.
Qed.

Lemma str_leb_antisym (a b : str) :
  str_leb a b = true -> str_leb b a = true -> a = b.
Proof.
  revert b; induction a as [|x a IH]; intros [|y b]; simpl; try congruence.
  intros H1 H2.
  apply orb_true_iff in H1 as [H1|H1]; apply orb_true_iff in H2 as [H2|H2].
  - apply N.ltb_lt in H1, H2. lia.
  - apply N.ltb_lt in H1. apply andb_true_iff in H2 as [H2 _].
    apply N.eqb_eq in H2. lia.
  - apply N.ltb_lt in H2. apply andb_true_iff in H1 as [H1 _].
    apply N.eqb_eq in H1. lia.
  - apply andb_true_iff in H1 as [E H1]. apply andb_true_iff in H2 as [_ H2].
    apply N.eqb_eq in E. subst y. f_equal. now apply IH.
Qed.

Lemma str_leb_trans (a b c : str) :
  str_leb a b = true -> str_leb b c = true -> str_leb a c = true.
Proof.
  revert b c; induction a as [|x a IH]; intros [|y b] [|z c]; simpl;
    try congruence.
  intros H1 H2.
  apply orb_true_iff in H1 as [H1|H1]; apply orb_true_iff in H2 as [H2|H2];
    apply orb_true_iff.
  - left. apply N.ltb_lt in H1, H2. apply N.ltb_lt. lia.
  - apply andb_true_iff in H2 as [E _]. apply N.eqb_eq in E. subst z. now left.
  - apply andb_true_iff in H1 as [E _]. apply N.eqb_eq in E. subst y. now left.
  - apply andb_true_iff in H1 as [E1 H1]. apply andb_true_iff in H2 as [E2 H2].
    apply N.eqb_eq in E1, E2. subst y z. right. rewrite N.eqb_refl.
    now apply IH with (b := b).
Qed.

Lemma insert_sorted_Permutation (x : str) (l : list str) :
  Permutation (x :: l) (insert_sorted x l).
Proof.
  induction l as [|y l IH]; simpl; [reflexivity|].
  destruct (str_leb x y); [reflexivity|].
  rewrite perm_swap. now constructor.
Qed.

Lemma insert_sorted_Sorted (x : str) (l : list str) :
  Sorted str_le l -> Sorted str_le (insert_sorted x l).
Proof.
  induction 1 as [|y l Hl IH Hhd]; simpl.
  - repeat constructor.
  - destruct (str_leb x y) eqn:E.
    + constructor; [now constructor | now constructor].
    + constructor; [exact IH|].
      apply str_leb_total in E.
      destruct l as [|z l]; simpl; [now constructor|].
      destruct (str_leb x z); constructor; [exact E | now inversion Hhd].
Qed.

(** [sorted] gives the names of the listing, each as often as it is
    there, in ascending order. *)
Lemma sorted_Permutation (l : list str) : Permutation l (sorted l).
Proof.
  induction l as [|x l IH]; simpl; [reflexivity|].
  rewrite <- insert_sorted_Permutation. now constructor.
Qed.

Lemma sorted_Sorted (l : list str) : Sorted str_le (sorted l).
Proof.
  induction l as [|x l IH]; simpl; [constructor | now apply insert_sorted_Sorted].
Qed.

Lemma sorted_StronglySorted (l : list str) : StronglySorted str_le (sorted l).
Proof.
  apply Sorted_StronglySorted; [|apply sorted_Sorted].
  intros a b c. apply str_leb_trans.
Qed.

Lemma StronglySorted_unique (l1 l2 : list str) :
  StronglySorted str_le l1 -> StronglySorted str_le l2 ->
  Permutation l1 l2 -> l1 = l2.
Proof.
  intros H1. revert l2. induction H1 as [|x l1 H1 IH Hx]; intros l2 H2 Hp.
  - now apply Permutation_nil in Hp.
  - destruct H2 as [|y l2 H2 Hy].
    + apply Permutation_sym, Permutation_nil in Hp. discriminate.
    + assert (x = y) as <-.
      { assert (Hxin : In x (y :: l2)) by (eapply Permutation_in; [exact Hp | now left]).
        assert (Hyin : In y (x :: l1))
          by (eapply Permutation_in; [symmetry; exact Hp | now left]).
        rewrite Forall_forall in Hx, Hy.
        destruct Hxin as [->|Hxin]; [reflexivity|].
        destruct Hyin as [->|Hyin]; [reflexivity|].
        apply str_leb_antisym; [now apply Hx | now apply Hy]. }
      f_equal. apply IH; [exact H2 | now apply Permutation_cons_inv in Hp].
Qed.

(** The order of the batch does not depend on the order of the listing. *)
Lemma sorted_deterministic (l1 l2 : list str) :
  Permutation l1 l2 -> sorted l1 = sorted l2.
Proof.
  intros Hp. apply StronglySorted_unique; try apply sorted_StronglySorted.
  now rewrite <- !sorted_Permutation.
Qed.

End Order.

Section Report.

Lemma for_each_print (f : str -> str) (names : list str) :
  for_each (fun _ name => print (f name)) names tt = (map f names, Ok tt).
Proof.
  induction names as [|n names IH]; [reflexivity|].
  cbn [for_each]. unfold print at 1. cbn [bind]. now rewrite IH.
Qed.

Lemma report_prints (entries : list dict) (skipped_files : list str) :
  report (entries, skipped_files)
  = (Shape.report_lines entries skipped_files, Ok tt).
Proof.
  unfold report, Shape.report_lines.
  destruct skipped_files as [|n names]; [reflexivity|].
  unfold print at 1 2. cbn [bind]. now rewrite for_each_print.
Qed.

(** When the loop ends, [main] prints the report after what the pages
    printed and writes the entries. *)
Lemma main_reports (listdir : list str) (page : str -> loc)
  (entries : list dict) (skipped_files : list str) :
  outcome (main_loop listdir page) = Ok (entries, skipped_files) ->
  main listdir page
  = (printed (main_loop listdir page)
       ++ Shape.report_lines entries skipped_files,
     Ok entries).
Proof.
  unfold main. destruct (main_loop listdir page) as [out [st|e]]; [|discriminate].
  cbn [outcome snd printed fst]. intros [= ->].
  cbn [bind]. rewrite report_prints. cbn [bind ret fst]. now rewrite app_nil_r.
Qed.

(** A run in which no page raises: the skipped names are the [.html]
    names whose page has no root article, the entries come from the
    others, both in ascending order of the names. *)
Lemma main_loop_when_no_page_raises (page : str -> loc) (names : list str) :
  (forall fn e, In fn names -> Shape.is_html fn = true ->
                outcome (parse_entry fn (page fn)) <> Raise e) ->
  forall entries skipped_files,
  exists entries',
    outcome (for_each (main_step page) names (entries, skipped_files))
    = Ok (entries ++ entries',
          skipped_files
            ++ filter (fun fn => Shape.is_html fn
                                 && negb (Shape.has_artikel (page fn))) names)
    /\ map Shape.file_of entries'
       = map (fun fn => Some (PStr fn))
             (filter (fun fn => Shape.is_html fn && Shape.has_artikel (page fn))
                     names).
Proof.
  induction names as [|fn names IH]; intros Hok entries skipped.
  - exists []. now rewrite !app_nil_r.
  - assert (Hok' : forall fn e, In fn names -> Shape.is_html fn = true ->
                     outcome (parse_entry fn (page fn)) <> Raise e).
    { intros g e Hin. apply Hok. now right. }
    change (for_each (main_step page) (fn :: names) (entries, skipped))
      with (bind (main_step page (entries, skipped) fn)
                 (for_each (main_step page) names)).
    rewrite outcome_bind. unfold main_step at 1. cbn [filter].
    change (endswith fn (py ".html")) with (Shape.is_html fn).
    destruct (Shape.is_html fn) eqn:Hhtml; cbn [negb andb].
    + rewrite outcome_bind.
      destruct (outcome (parse_entry fn (page fn))) as [[e|]|e] eqn:Hp.
      * assert (Hart : Shape.has_artikel (page fn) = true).
        { apply parse_entry_some in Hp as (art & ? & ? & ? & ? & ? & Hart & _).
          unfold Shape.has_artikel. now rewrite Hart. }
        rewrite Hart. cbn [negb outcome ret snd].
        destruct (IH Hok' (entries ++ [e]) skipped) as (entries' & Hrun & Hfiles).
        exists (e :: entries'). rewrite Hrun, <- app_assoc. split; [reflexivity|].
        cbn [map]. rewrite Hfiles.
        now rewrite (parse_entry_file fn (page fn) e Hp).
      * assert (Hart : Shape.has_artikel (page fn) = false).
        { apply parse_entry_none in Hp. unfold Shape.has_artikel. now rewrite Hp. }
        rewrite Hart. cbn [negb outcome ret snd].
        destruct (IH Hok' entries (skipped ++ [fn])) as (entries' & Hrun & Hfiles).
        exists entries'. rewrite Hrun, <- app_assoc. now split.
      * exfalso. apply (Hok fn e); [now left | exact Hhtml | exact Hp].
    + cbn [outcome ret snd]. apply IH. exact Hok'.
Qed.

(** The whole of [main] when no page raises: it returns, the entries come
    from the [.html] names that have a root article, in ascending order of
    the names, and the report counts them and lists every other [.html]
    name as skipped. *)
Lemma main_when_no_page_raises (listdir : list str) (page : str -> loc) :
  (forall fn e, In fn listdir -> Shape.is_html fn = true ->
                outcome (parse_entry fn (page fn)) <> Raise e) ->
  exists entries,
    let skipped_files :=
      filter (fun fn => Shape.is_html fn && negb (Shape.has_artikel (page fn)))
             (sorted listdir) in
    main listdir page
    = (printed (main_loop listdir page)
         ++ Shape.report_lines entries skipped_files,
       Ok entries)
    /\ map Shape.file_of entries
       = map (fun fn => Some (PStr fn))
             (filter (fun fn => Shape.is_html fn && Shape.has_artikel (page fn))
                     (sorted listdir)).
Proof.
  intros Hok.
  destruct (main_loop_when_no_page_raises page (sorted listdir)) with
    (entries := @nil dict) (skipped_files := @nil str)
    as (entries & Hrun & Hfiles).
  - intros fn e Hin. apply Hok.
    eapply Permutation_in; [symmetry; apply sorted_Permutation | exact Hin].
  - exists entries. cbv zeta. split; [|exact Hfiles].
    apply main_reports. exact Hrun.
Qed.

(** C8.  The code on a directory of two pages it can be given: "bil.html"
    parses, "hus.html" has its root article and no banner.  The batch
    ends in the exception: the entry parsed before is not written and no
    report is printed. *)
Theorem batch_aborts_on_missing_banner :
  sorted Pages.broken_html = [py "bil.html"; py "hus.html"]
  /\ (exists e, outcome (parse_entry (py "bil.html") (Pages.broken_page (py "bil.html")))
                = Ok (Some e))
  /\ main Pages.broken_html Pages.broken_page
     = ([no_indent_warning (py "bil.html") (py "2.")], Raise AttributeError).
Proof.
  split; [reflexivity|]. split; [|vm_compute; reflexivity].
  eexists. vm_compute. reflexivity.
Qed.

End Report.

(* ================================================================== *)
(** * Loops that raise, loops that print *)
(* ================================================================== *)

Section MoreLoops.

Context {S A : Type}.

(** A loop raises exactly when the body raises at some element, provided
    that whether the body raises does not depend on the loop state. *)
Lemma for_each_raises (body : S -> A -> M S) (R : A -> Prop) :
  (forall s x, (exists e, outcome (body s x) = Raise e) <-> R x) ->
  forall xs s,
    (exists e, outcome (for_each body xs s) = Raise e) <-> Exists R xs.
Proof.
  intros Hbody. induction xs as [|x xs IH]; intros s.
  - split; [intros [e He]; discriminate | intros H; inversion H].
  - change (for_each body (x :: xs) s) with (bind (body s x) (for_each body xs)).
    rewrite outcome_bind.
    destruct (outcome (body s x)) as [s1|e] eqn:E.
    + rewrite IH. split; [now right|].
      intros H. inversion H as [? ? Hx|]; [|assumption].
      apply Hbody with (s := s) in Hx as [e He]. congruence.
    + split; [|now exists e].
      intros _. left. apply (Hbody s x). now exists e.
Qed.

(** What a loop that does not raise has printed. *)
Lemma for_each_printed (body : S -> A -> M S) (line : A -> list str) :
  (forall s x s', outcome (body s x) = Ok s' -> printed (body s x) = line x) ->
  forall xs s s',
    outcome (for_each body xs s) = Ok s' ->
    printed (for_each body xs s) = flat_map line xs.
Proof.
  intros Hbody. induction xs as [|x xs IH]; intros s s'; [reflexivity|].
  change (for_each body (x :: xs) s) with (bind (body s x) (for_each body xs)).
  rewrite outcome_bind, printed_bind.
  destruct (outcome (body s x)) as [s1|e] eqn:E; [|discriminate].
  intros H. cbn [flat_map]. now rewrite (Hbody s x s1 E), (IH s1 s' H).
Qed.

End MoreLoops.

Section Selecting.

Lemma hd_error_filter_true {X} (f : X -> bool) (l : list X) (x : X) :
  hd_error (filter f l) = Some x -> f x = true /\ In x l.
Proof.
  induction l as [|y l IH]; [discriminate|]. cbn [filter].
  destruct (f y) eqn:E.
  - intros [= <-]. split; [exact E | now left].
  - intros H. apply IH in H as [H1 H2]. split; [exact H1 | now right].
Qed.

(** What [select_one] returns matches the selector and lies below. *)
Lemma select_one_matches (sel : selector) (l x : loc) :
  select_one sel l = Some x ->
  matches_selector sel x = true /\ In x (descendants l).
Proof. apply hd_error_filter_true. Qed.

End Selecting.

(* ================================================================== *)
(** * Pronunciation rows *)
(* ================================================================== *)

Section Rows.

Lemma lydskrift_row_of (node : loc) (label : option str) :
  Output.row_of node (lydskrift_row node label).
Proof.
  unfold Output.row_of, lydskrift_row. cbv zeta.
  destruct (select_one [with_href_suffix (tag_ "a") ".mp3"] node) as [a|] eqn:E.
  - exists (get_href (here a)), label. split; [reflexivity|].
    apply select_one_matches in E as [E _].
    unfold matches_selector in E. destruct (here a) as [s|s|nm at_ ch];
      try discriminate.
    apply andb_true_iff in E as [E _]. unfold matches_compound in E.
    apply andb_true_iff in E as [_ E]. cbn [get_href].
    cbn [with_href_suffix s_href_suffix opt_test] in E.
    destruct (attr_href at_) as [u|]; [|discriminate].
    right. exists u. split; [reflexivity|].
    cbn [attr_test] in E. unfold attr_suffix in E.
    now apply orb_true_iff in E.
  - exists None, label. split; [reflexivity | now left].
Qed.

Lemma udtale_loop_rows (cs : list loc) (l : list (nat * loc)) :
  forall nodes acc,
    Forall2 Output.row_of nodes acc ->
    Forall2 Output.row_of (nodes ++ filter is_lydskrift (map snd l))
            (for_pure (udtale_step cs) l acc).
Proof.
  unfold for_pure. induction l as [|[idx node] l IH]; intros nodes acc H.
  - cbn [map filter fold_left]. now rewrite app_nil_r.
  - cbn [map snd filter fold_left]. unfold udtale_step at 2.
    destruct (is_lydskrift node); cbn [negb].
    + replace (nodes ++ node :: filter is_lydskrift (map snd l))
        with ((nodes ++ [node]) ++ filter is_lydskrift (map snd l))
        by now rewrite <- app_assoc.
      apply IH. apply Forall2_app; [exact H|].
      constructor; [apply lydskrift_row_of | constructor].
    + now apply IH.
Qed.

Lemma enumerate_snd {X} (l : list X) : map snd (enumerate l) = l.
Proof.
  unfold enumerate. generalize 0. induction l as [|x l IH]; intros n;
    [reflexivity|].
  cbn [length seq combine map snd]. now rewrite IH.
Qed.

(** X1.  The rows of a pronunciation block are those of its transcription
    children, one for one and in document order: the row of a node has
    the text of the node as ipa, and its audio is null or a link target
    that ends in ".mp3" or in ".mp3" and one final newline, which the
    selector takes as well. *)
Theorem one_row_per_transcription (children : list loc) :
  Forall2 Output.row_of (filter is_lydskrift children) (udtale_rows children).
Proof.
  unfold udtale_rows.
  rewrite <- (enumerate_snd children) at 1.
  apply (udtale_loop_rows children (enumerate children) [] []). constructor.
Qed.

(** A link target that ends with ".mp3" and a newline is taken as it is. *)
Example audio_with_final_newline :
  udtale_rows Pages.udtale_newline
  = [udtale_row (py "[hus]") (Some (py "hus.mp3" ++ [newline])) None].
Proof. reflexivity. Qed.

End Rows.

(* ================================================================== *)
(** * Citations, and when the definitions raise *)
(* ================================================================== *)

Section Citations.

Lemma citation_outcome (cite : loc) :
  outcome (citation cite) =
  match Output.citat_of cite with
  | Some citat =>
      Ok (get_text " " (here citat),
          opt_str (option_map (fun s => get_text "" (here s))
                              (Output.kilde_of cite)))
  | None => Raise AttributeError
  end.
Proof.
  unfold citation, Output.citat_of, Output.kilde_of.
  now destruct (select_one [with_class (tag_ "span") "citat"] cite).
Qed.

Lemma citation_printed (cite : loc) : printed (citation cite) = [].
Proof.
  unfold citation.
  now destruct (select_one [with_class (tag_ "span") "citat"] cite).
Qed.


Lemma example_step_outcome (examples : list pyval) (cite : loc) :
  outcome (Output.example_step examples cite) =
  match Output.citat_of cite with
  | Some citat =>
      Ok (examples ++
            [PDict [(py "text", PStr (get_text " " (here citat)));
                    (py "source",
                     opt_str (option_map (fun s => get_text "" (here s))
                                         (Output.kilde_of cite)))]])
  | None => Raise AttributeError
  end.
Proof.
  unfold Output.example_step. rewrite outcome_bind, citation_outcome.
  now destruct (Output.citat_of cite).
Qed.

Lemma example_step_printed (examples : list pyval) (cite : loc) :
  printed (Output.example_step examples cite) = [].
Proof.
  unfold Output.example_step. rewrite printed_bind, citation_printed.
  now destruct (outcome (citation cite)).
Qed.

Lemma examples_loop (cites : list loc) :
  forall acc examples,
    outcome (for_each Output.example_step cites acc) = Ok examples ->
    exists new, examples = acc ++ new /\ Forall2 Output.example_of cites new.
Proof.
  induction cites as [|cite cites IH]; intros acc examples.
  - intros [= <-]. exists []. split; [now rewrite app_nil_r | constructor].
  - change (for_each Output.example_step (cite :: cites) acc)
      with (bind (Output.example_step acc cite) (for_each Output.example_step cites)).
    rewrite outcome_bind, example_step_outcome.
    destruct (Output.citat_of cite) as [citat|] eqn:E; [|discriminate].
    intros H. apply IH in H as (new & -> & Hnew).
    eexists. split; [now rewrite <- app_assoc|].
    constructor; [|exact Hnew]. exists citat. now split.
Qed.

Lemma examples_loop_raises (cites : list loc) (acc : list pyval) :
  (exists e, outcome (for_each Output.example_step cites acc) = Raise e)
  <-> Exists (fun cite => Output.citat_of cite = None) cites.
Proof.
  apply for_each_raises. intros s x. rewrite example_step_outcome.
  destruct (Output.citat_of x); split; try discriminate; try reflexivity.
  - intros [e He]. discriminate.
  - intros _. now exists AttributeError.
Qed.

Lemma examples_loop_printed (cites : list loc) (acc : list pyval) :
  printed (for_each Output.example_step cites acc) = [].
Proof.
  revert acc. induction cites as [|cite cites IH]; intros acc; [reflexivity|].
  change (for_each Output.example_step (cite :: cites) acc)
    with (bind (Output.example_step acc cite) (for_each Output.example_step cites)).
  rewrite printed_bind, example_step_printed.
  destruct (outcome (Output.example_step acc cite)); [apply IH | reflexivity].
Qed.

(** The record of a bound sense, with its examples. *)
Lemma sense_examples (fn : str) (out out' : list pyval) (num_tag indent : loc) :
  find_indent num_tag = Some indent ->
  outcome (sense fn out num_tag) = Ok out' ->
  exists d examples,
    out' = out ++ [PDict d]
    /\ dict_get d (py "examples") = Some (PList examples)
    /\ Forall2 Output.example_of (Output.citat_boxes indent) examples.
Proof.
  intros Hfind. unfold sense. rewrite Hfind. rewrite outcome_bind.
  fold Output.example_step. fold (Output.citat_boxes indent).
  destruct (outcome (for_each _ _ _)) as [examples|e] eqn:E; [|discriminate].
  intros [= <-]. apply examples_loop in E as (new & -> & Hnew).
  eexists. exists new. split; [reflexivity|]. split; [|exact Hnew].
  destruct (select_one (definition_box "onym") indent),
           (select_one (definition_box "rel-begreber") indent); reflexivity.
Qed.

Lemma sense_raises_iff (fn : str) (out : list pyval) (num_tag : loc) :
  (exists e, outcome (sense fn out num_tag) = Raise e)
  <-> Output.sense_raises num_tag.
Proof.
  unfold sense, Output.sense_raises.
  destruct (find_indent num_tag) as [indent|].
  - rewrite outcome_bind.
    fold Output.example_step. fold (Output.citat_boxes indent).
    split.
    + intros [e He]. exists indent. split; [reflexivity|].
      apply (examples_loop_raises _ []).
      destruct (outcome (for_each _ _ _)) as [x|e']; [discriminate | now exists e'].
    + intros (i & [= <-] & H). apply (examples_loop_raises _ []) in H as [e He].
      exists e. now rewrite He.
  - split; [intros [e He]; discriminate | intros (i & H & _); discriminate].
Qed.

Lemma sense_printed (fn : str) (out out' : list pyval) (num_tag : loc) :
  outcome (sense fn out num_tag) = Ok out' ->
  printed (sense fn out num_tag) =
  if Shape.is_some (find_indent num_tag) then []
  else [no_indent_warning fn (get_text "" (here num_tag))].
Proof.
  unfold sense. destruct (find_indent num_tag) as [indent|]; [|reflexivity].
  intros _. rewrite printed_bind.
  fold Output.example_step. fold (Output.citat_boxes indent).
  rewrite examples_loop_printed.
  now destruct (outcome (for_each _ _ _)).
Qed.

(** X2.  [parse_definitions] raises exactly when some number marker is
    bound to an indent block one citation box of which has no citation
    text; a missing definitions block, a marker without indent block, a
    missing definition, grammar note or source never make it raise. *)
Theorem parse_definitions_raises_iff (soup : loc) (fn : str) :
  (exists e, outcome (parse_definitions soup fn) = Raise e)
  <-> Exists Output.sense_raises (Shape.number_markers soup).
Proof.
  unfold parse_definitions, Shape.number_markers.
  destruct (find_id "content-betydninger" soup) as [container|].
  - apply for_each_raises. intros s x. apply sense_raises_iff.
  - split; [intros [e He]; discriminate | intros H; inversion H].
Qed.

(** The records of a run of the loop, with their examples. *)
Lemma senses_with_examples (fn : str) (markers : list loc) :
  forall out out',
    outcome (for_each (sense fn) markers out) = Ok out' ->
    exists records,
      out' = out ++ records
      /\ Forall2 (fun m v =>
                    exists indent d examples,
                      find_indent m = Some indent
                      /\ v = PDict d
                      /\ dict_get d (py "examples") = Some (PList examples)
                      /\ Forall2 Output.example_of
                                 (Output.citat_boxes indent) examples)
           (filter (fun m => Shape.is_some (find_indent m)) markers) records.
Proof.
  induction markers as [|m markers IH]; intros out out'.
  - intros [= <-]. exists []. split; [now rewrite app_nil_r | constructor].
  - change (for_each (sense fn) (m :: markers) out)
      with (bind (sense fn out m) (for_each (sense fn) markers)).
    rewrite outcome_bind.
    destruct (outcome (sense fn out m)) as [s|e] eqn:Hs; [|discriminate].
    intros H. apply IH in H as (records & -> & Hrec).
    cbn [filter]. destruct (find_indent m) as [indent|] eqn:Hfind; cbn [Shape.is_some].
    + destruct (sense_examples fn out s m indent Hfind Hs)
        as (d & examples & -> & Hex & Hall).
      exists (PDict d :: records). split; [now rewrite <- app_assoc|].
      constructor; [|exact Hrec]. now exists indent, d, examples.
    + rewrite (sense_dropped fn out m Hfind) in Hs. injection Hs as <-.
      now exists records.
Qed.

(** X3.  When [parse_definitions] returns, the examples of every
    definition record are the citation boxes of its indent block, one for
    one and in document order: the text of the citation, and its source
    or null when the box names none. *)
Theorem examples_are_the_citation_boxes (soup : loc) (fn : str)
  (definitions : list pyval) :
  outcome (parse_definitions soup fn) = Ok definitions ->
  Forall2 (fun m v =>
             exists indent d examples,
               find_indent m = Some indent
               /\ v = PDict d
               /\ dict_get d (py "examples") = Some (PList examples)
               /\ Forall2 Output.example_of (Output.citat_boxes indent) examples)
          (Shape.bound_markers soup) definitions.
Proof.
  unfold parse_definitions, Shape.bound_markers, Shape.number_markers.
  destruct (find_id "content-betydninger" soup) as [container|].
  - intros H. apply senses_with_examples in H as (records & -> & H). exact H.
  - intros [= <-]. constructor.
Qed.

(** [page_hus] has one bound sense, with the example "et stort hus" from
    "avis". *)
Lemma examples_are_the_citation_boxes_witness :
  exists definitions,
    outcome (parse_definitions Pages.page_hus (py "hus.html")) = Ok definitions
    /\ Forall2 (fun m v =>
                  exists indent d examples,
                    find_indent m = Some indent
                    /\ v = PDict d
                    /\ dict_get d (py "examples") = Some (PList examples)
                    /\ Forall2 Output.example_of
                               (Output.citat_boxes indent) examples)
               (Shape.bound_markers Pages.page_hus) definitions.
Proof.
  eexists. split; [vm_compute; reflexivity|].
  apply (examples_are_the_citation_boxes Pages.page_hus (py "hus.html")).
  vm_compute; reflexivity.
Defined.

(** ** The whole record of a sense *)






End Citations.

(* ================================================================== *)
(** * What a page prints *)
(* ================================================================== *)

Section Log.

Lemma for_each_silent {S A} (body : S -> A -> M S) :
  (forall s x, printed (body s x) = []) ->
  forall xs s, printed (for_each body xs s) = [].
Proof.
  intros Hbody. induction xs as [|x xs IH]; intros s; [reflexivity|].
  change (for_each body (x :: xs) s) with (bind (body s x) (for_each body xs)).
  rewrite printed_bind, Hbody.
  destruct (outcome (body s x)); [apply IH | reflexivity].
Qed.

Lemma parse_udtale_printed (soup : loc) (fn : str) :
  printed (parse_udtale soup fn) =
  if Output.has_udtale_block soup then []
  else [py "Note " ++ fn ++ py ": no pronunciation block"].
Proof.
  unfold parse_udtale, Output.has_udtale_block.
  destruct (select_one [with_id (tag_ "div") "id-udt"] soup) as [container|];
    [|reflexivity].
  now destruct (select_one _ container).
Qed.

Lemma parse_definitions_printed (soup : loc) (fn : str) (definitions : list pyval) :
  outcome (parse_definitions soup fn) = Ok definitions ->
  printed (parse_definitions soup fn) =
  map (fun m => no_indent_warning fn (get_text "" (here m)))
      (Output.unbound_markers soup).
Proof.
  unfold parse_definitions, Output.unbound_markers, Shape.number_markers.
  destruct (find_id "content-betydninger" soup) as [container|]; [|reflexivity].
  intros H.
  rewrite for_each_printed with
    (line := fun m => if Shape.is_some (find_indent m) then []
                      else [no_indent_warning fn (get_text "" (here m))])
    (s' := definitions); [| intros s x s'; apply sense_printed | exact H].
  clear H. induction (select _ container) as [|m ms IH]; [reflexivity|].
  cbn [flat_map filter]. rewrite IH.
  now destruct (Shape.is_some (find_indent m)).
Qed.

Lemma box_detail_printed (ud_id : str) (details : list pyval) (box : loc) :
  printed (box_detail ud_id details box) = [].
Proof.
  unfold box_detail. cbv zeta.
  destruct (nonempty ud_id && _); [reflexivity|].
  destruct (has_class "onym" (here box)); [reflexivity|].
  destruct (has_class "rel-begreber" (here box)); [reflexivity|].
  destruct (has_class "grammatik" (here box)); [reflexivity|].
  destruct (match select_one [with_class (tag_ "span") "stempel"] box with
            | Some s => _ | None => false end).
  - now destruct (select_one [with_class (tag_ "span") "tekstnormal"] box).
  - destruct (select_one [with_class (tag_ "div") "citat-box"] box) as [cite|];
      [|reflexivity].
    rewrite printed_bind, citation_printed.
    now destruct (outcome (citation cite)).
Qed.

Lemma collect_details_printed (ud_id : str) (above : list (str * attrs))
  (sibs : list node) :
  forall details, printed (collect_details ud_id above sibs details) = [].
Proof.
  induction sibs as [|n sibs IH]; intros details; [reflexivity|].
  cbn [collect_details].
  destruct (truthy n); cbn [negb]; [|reflexivity].
  destruct (is_tag n); [|apply IH].
  destruct (has_name "div" n && _); [reflexivity|].
  destruct (has_class "definitionIndent" n); [|apply IH].
  rewrite printed_bind, for_each_silent by (intros; apply box_detail_printed).
  destruct (outcome _); [apply IH | reflexivity].
Qed.

Lemma parse_fixed_expressions_printed (soup : loc) :
  printed (parse_fixed_expressions soup) = [].
Proof.
  unfold parse_fixed_expressions. cbv zeta.
  destruct (match select_one [with_class (tag_ "div") "artikel"] soup with
            | Some a => _ | None => None end) as [sec|]; [|reflexivity].
  apply for_each_silent. intros out ud. unfold fixed_expression.
  destruct (select_one _ ud); [|reflexivity].
  rewrite printed_bind, collect_details_printed.
  now destruct (outcome _).
Qed.

Lemma parse_orddannelser_printed (soup : loc) :
  printed (parse_orddannelser soup) = [].
Proof.
  unfold parse_orddannelser.
  destruct (select_one [with_id any "content-orddannelser"] soup) as [cont|];
    [|reflexivity].
  apply for_each_silent. intros result box.
  now destruct (select_one [with_class (tag_ "span") "stempel"] box).
Qed.

(** X4.  When [parse_entry] returns, what it has printed is known from the
    page: nothing for a skipped page; for an Entry, the note on a missing
    pronunciation block if there is none, then one warning for every
    number marker without indent block, in document order, and nothing
    else. *)
Theorem log_of_a_page (fn : str) (soup : loc) (r : option dict) :
  outcome (parse_entry fn soup) = Ok r ->
  printed (parse_entry fn soup) =
  match r with
  | Some _ => Output.expected_log fn soup
  | None => []
  end.
Proof.
  unfold parse_entry, Output.expected_log.
  destruct (select_one [with_class (tag_ "div") "artikel"] soup) as [art|].
  - destruct (select_one (banner "match") art) as [head|]; [|discriminate].
    cbn [deref]. rewrite bind_ret_l. cbv zeta.
    rewrite outcome_bind, printed_bind, parse_udtale_printed.
    destruct (outcome (parse_udtale soup fn)) as [udtale|]; [|discriminate].
    rewrite outcome_bind, printed_bind.
    destruct (outcome (parse_definitions soup fn)) as [definitions|] eqn:Hdefs;
      [|discriminate].
    rewrite (parse_definitions_printed soup fn definitions Hdefs).
    rewrite outcome_bind, printed_bind, parse_fixed_expressions_printed.
    destruct (outcome (parse_fixed_expressions soup)) as [fixed|]; [|discriminate].
    rewrite outcome_bind, printed_bind, parse_orddannelser_printed.
    destruct (outcome (parse_orddannelser soup)) as [ordd|]; [|discriminate].
    intros [= <-]. cbn [printed ret fst]. now rewrite !app_nil_r.
  - now intros [= <-].
Qed.

(** [page_second_without_indent] has no pronunciation block and a second
    marker without indent block: two lines. *)
Lemma log_of_a_page_witness :
  exists e,
    outcome (parse_entry (py "hus.html") Pages.page_second_without_indent)
      = Ok (Some e)
    /\ printed (parse_entry (py "hus.html") Pages.page_second_without_indent)
       = [py "Note hus.html: no pronunciation block";
          py "Warning hus.html: no definitionIndent for sense 2."].
Proof.
  eexists. split; [vm_compute; reflexivity|].
  rewrite (log_of_a_page (py "hus.html") Pages.page_second_without_indent _ eq_refl).
  reflexivity.
Defined.

End Log.

(* ================================================================== *)
(** * Skipped pages *)
(* ================================================================== *)

Section Skipped.

(** X5.  [parse_entry] returns the skip signal exactly when the page has
    no root article, and then it has printed nothing: every other page
    gives an Entry or raises. *)
Theorem skipped_iff_no_artikel (fn : str) (soup : loc) :
  (outcome (parse_entry fn soup) = Ok None
   <-> select_one [with_class (tag_ "div") "artikel"] soup = None)
  /\ (outcome (parse_entry fn soup) = Ok None ->
      printed (parse_entry fn soup) = []).
Proof.
  split; [split|].
  - apply parse_entry_none.
  - intros H. now rewrite (parse_entry_without_artikel fn soup H).
  - intros H. apply parse_entry_none in H.
    now rewrite (parse_entry_without_artikel fn soup H).
Qed.

(** A page without root article is skipped, and silently. *)
Lemma skipped_iff_no_artikel_witness :
  outcome (parse_entry (py "404.html") Pages.page_without_artikel) = Ok None
  /\ printed (parse_entry (py "404.html") Pages.page_without_artikel) = [].
Proof.
  destruct (skipped_iff_no_artikel (py "404.html") Pages.page_without_artikel)
    as [Hiff Hsilent].
  assert (H : outcome (parse_entry (py "404.html") Pages.page_without_artikel)
              = Ok None).
  { apply Hiff. vm_compute; reflexivity. }
  split; [exact H|]. apply Hsilent, H.
Defined.

End Skipped.

(* ================================================================== *)
(** * Dictionaries *)
(* ================================================================== *)

Section Dicts.

Lemma dict_get_set (d : dict) (k k' : str) (v : pyval) :
  dict_get (dict_set d k v) k' =
  if str_eqb k k' then Some v else dict_get d k'.
Proof.
  induction d as [|[k0 v0] d IH]; cbn [dict_set dict_get].
  - reflexivity.
  - destruct (str_eqb k0 k) eqn:E0; cbn [dict_get].
    + apply str_eqb_eq in E0. subst k0.
      now destruct (str_eqb k k').
    + rewrite IH. destruct (str_eqb k0 k') eqn:E1; [|reflexivity].
      destruct (str_eqb k k') eqn:E2; [|reflexivity].
      apply str_eqb_eq in E1, E2. subst. now rewrite str_eqb_refl in E0.
Qed.

Lemma keys_dict_set (d : dict) (k : str) (v : pyval) :
  keys (dict_set d k v) = if has_key d k then keys d else keys d ++ [k].
Proof.
  unfold has_key, keys. induction d as [|[k0 v0] d IH]; cbn [dict_set dict_get map fst].
  - reflexivity.
  - destruct (str_eqb k0 k); cbn [map fst]; [reflexivity|].
    rewrite IH. now destruct (dict_get d k).
Qed.

Lemma has_key_In (d : dict) (k : str) : has_key d k = false -> ~ In k (keys d).
Proof.
  unfold has_key, keys. induction d as [|[k0 v0] d IH]; cbn [dict_get map fst].
  - intros _ [].
  - destruct (str_eqb k0 k) eqn:E; [discriminate|].
    intros H [->|Hin]; [now rewrite str_eqb_refl in E | now apply IH].
Qed.

Lemma dict_set_NoDup (d : dict) (k : str) (v : pyval) :
  NoDup (keys d) -> NoDup (keys (dict_set d k v)).
Proof.
  intros H. rewrite keys_dict_set. destruct (has_key d k) eqn:E; [exact H|].
  apply NoDup_app; [exact H | repeat constructor; intros [] |].
  intros x Hx [Hk|[]]. subst x. now apply (has_key_In d k).
Qed.

Lemma find_app {X} (f : X -> bool) (l1 l2 : list X) :
  find f (l1 ++ l2) =
  match find f l1 with
  | Some x => Some x
  | None => find f l2
  end.
Proof.
  induction l1 as [|x l1 IH]; [reflexivity|]. cbn [app find].
  now destruct (f x).
Qed.

End Dicts.

(* ================================================================== *)
(** * Word formation *)
(* ================================================================== *)

Section Orddannelser.

Lemma orddannelser_step_outcome (result : dict) (box : loc) :
  outcome (Output.orddannelser_step result box) =
  match Output.category box with
  | Some c => Ok (dict_set result c (Output.box_items box))
  | None => Raise AttributeError
  end.
Proof.
  unfold Output.orddannelser_step, Output.category, Output.box_items.
  now destruct (select_one [with_class (tag_ "span") "stempel"] box).
Qed.

Lemma parse_orddannelser_loop (soup : loc) :
  parse_orddannelser soup =
  for_each Output.orddannelser_step (Output.orddannelser_boxes soup) [].
Proof.
  unfold parse_orddannelser, Output.orddannelser_boxes.
  now destruct (select_one [with_id any "content-orddannelser"] soup).
Qed.

Lemma orddannelser_loop_lookup (boxes : list loc) :
  forall result0 result,
    outcome (for_each Output.orddannelser_step boxes result0) = Ok result ->
    forall k,
      dict_get result k =
      match find (Output.has_category k) (rev boxes) with
      | Some b => Some (Output.box_items b)
      | None => dict_get result0 k
      end.
Proof.
  induction boxes as [|b boxes IH]; intros result0 result.
  - now intros [= <-].
  - change (for_each Output.orddannelser_step (b :: boxes) result0)
      with (bind (Output.orddannelser_step result0 b)
                 (for_each Output.orddannelser_step boxes)).
    rewrite outcome_bind, orddannelser_step_outcome.
    destruct (Output.category b) as [c|] eqn:Hc; [|discriminate].
    intros H k. rewrite (IH _ _ H k). cbn [rev]. rewrite find_app.
    destruct (find (Output.has_category k) (rev boxes)); [reflexivity|].
    cbn [find]. unfold Output.has_category at 1. rewrite Hc, dict_get_set.
    now destruct (str_eqb c k).
Qed.

Lemma orddannelser_loop_keys (boxes : list loc) :
  forall result0 result,
    outcome (for_each Output.orddannelser_step boxes result0) = Ok result ->
    NoDup (keys result0) -> NoDup (keys result).
Proof.
  intros result0 result H H0. revert H.
  apply for_each_invariant with (P := fun d : dict => NoDup (keys d));
    [|exact H0].
  intros s x s' Hs. rewrite orddannelser_step_outcome.
  destruct (Output.category x); [|discriminate].
  intros [= <-]. now apply dict_set_NoDup.
Qed.

(** X6.  When [parse_orddannelser] returns, the mapping holds, for every
    key, the items of the last box of the block that has this category
    label, and nothing for a label no box has; its keys are distinct.  A
    later box with the same label replaces an earlier one. *)
Theorem orddannelser_last_box_wins (soup : loc) (result : dict) :
  outcome (parse_orddannelser soup) = Ok result ->
  (forall k,
      dict_get result k =
      option_map Output.box_items
                 (find (Output.has_category k)
                       (rev (Output.orddannelser_boxes soup))))
  /\ NoDup (keys result).
Proof.
  rewrite parse_orddannelser_loop. intros H. split.
  - intros k. rewrite (orddannelser_loop_lookup _ _ _ H k).
    now destruct (find _ _).
  - apply (orddannelser_loop_keys _ _ _ H). constructor.
Qed.

(** [page_hus] has one word-formation box, "Sammensaetninger". *)
Lemma orddannelser_last_box_wins_witness :
  exists result,
    outcome (parse_orddannelser Pages.page_hus) = Ok result
    /\ dict_get result (py "Sammensaetninger")
       = Some (str_list [py "husbaad"; py "hustag sj."])
    /\ NoDup (keys result).
Proof.
  eexists. split; [vm_compute; reflexivity|].
  destruct (orddannelser_last_box_wins Pages.page_hus _ eq_refl) as [Hget Hkeys].
  split; [|exact Hkeys].
  rewrite Hget. reflexivity.
Defined.

(** X7.  [parse_orddannelser] raises exactly when some box of the block
    has no category label, and it never prints; without the block the
    mapping is empty. *)
Theorem parse_orddannelser_raises_iff (soup : loc) :
  ((exists e, outcome (parse_orddannelser soup) = Raise e)
   <-> Exists (fun box => Output.category box = None)
              (Output.orddannelser_boxes soup))
  /\ printed (parse_orddannelser soup) = []
  /\ (select_one [with_id any "content-orddannelser"] soup = None ->
      parse_orddannelser soup = ([], Ok [])).
Proof.
  split; [|split].
  - rewrite parse_orddannelser_loop. apply for_each_raises.
    intros s x. rewrite orddannelser_step_outcome.
    destruct (Output.category x); split; try discriminate.
    + intros [e He]. discriminate.
    + reflexivity.
    + intros _. now exists AttributeError.
  - apply parse_orddannelser_printed.
  - unfold parse_orddannelser. now intros ->.
Qed.

(** A page without word-formation block. *)
Lemma parse_orddannelser_raises_iff_witness :
  parse_orddannelser Pages.page_without_banner = ([], Ok []).
Proof.
  apply (parse_orddannelser_raises_iff Pages.page_without_banner).
  vm_compute; reflexivity.
Defined.

(** The values of the mapping are lists of strings. *)
Lemma orddannelser_values (soup : loc) (result : dict) :
  outcome (parse_orddannelser soup) = Ok result ->
  Forall (fun kv => exists items, snd kv = str_list items) result.
Proof.
  rewrite parse_orddannelser_loop.
  apply for_each_invariant with
    (P := Forall (fun kv : str * pyval => exists items, snd kv = str_list items));
    [|constructor].
  intros s x s' Hs. rewrite orddannelser_step_outcome.
  destruct (Output.category x) as [c|]; [|discriminate].
  intros [= <-]. unfold Output.box_items.
  induction Hs as [|[k0 v0] d Hk Hd IH]; cbn [dict_set].
  - constructor; [|constructor]. now eexists.
  - destruct (str_eqb k0 c); constructor; try assumption. now eexists.
Qed.

End Orddannelser.

(* ================================================================== *)
(** * Etymology, word forms, cleaned links *)
(* ================================================================== *)

Section Etymology.

Lemma strip_chars_trimmed (chars s : str) :
  let p := fun c => existsb (N.eqb c) chars in
  starts_with p (strip_chars chars s) = false
  /\ ends_with p (strip_chars chars s) = false.
Proof.
  intros p. unfold strip_chars. fold p. split; [|apply rstrip_by_end].
  destruct (rstrip_by p (lstrip_by p s)) as [|c r] eqn:E; [reflexivity|].
  rewrite <- E. rewrite rstrip_by_keeps_start by (rewrite E; discriminate).
  apply drop_while_head.
Qed.

(** X8.  [parse_etymology] gives null exactly when the "Oprindelse" label
    or the rich-text node after it is missing.  Otherwise its segments
    are those of the form references among the children of that node (the
    [span.ordform] tags and the links), one for one and in order: the
    form is the text of the reference, and the description, the text
    gathered since the previous reference, neither starts nor ends with a
    space or a comma.  Text after the last reference is in no segment. *)
Theorem etymology_segments (soup : loc) :
  match Output.etymology_span soup with
  | None => parse_etymology soup = PNone
  | Some span =>
      exists segments,
        parse_etymology soup
        = PDict [(py "raw", PStr (get_text " " (here span)));
                 (py "segments", PList segments)]
        /\ Forall2 Output.segment_of
                   (filter Output.is_form_reference (contents span)) segments
  end.
Proof.
  unfold Output.etymology_span, parse_etymology.
  destruct (find_stempel Oprindelse soup) as [box|]; [|reflexivity].
  destruct (find _ (find_next_siblings box)) as [span|]; [|reflexivity].
  cbv zeta. eexists. split; [reflexivity|].
  unfold for_pure.
  match goal with |- context [fold_left ?F _ _] => set (step := F) end.
  assert (H : forall l nodes segs desc,
             Forall2 Output.segment_of nodes segs ->
             Forall2 Output.segment_of
                     (nodes ++ filter Output.is_form_reference l)
                     (fst (fold_left step l (segs, desc)))).
  { induction l as [|n l IH]; intros nodes segs desc Hn.
    - cbn [filter fold_left fst]. now rewrite app_nil_r.
    - cbn [filter fold_left]. unfold step at 2.
      destruct n as [s|s|nm a ch].
      + now apply IH.
      + now apply IH.
      + change (Output.is_form_reference (Tag nm a ch))
          with ((has_name "span" (Tag nm a ch) || has_name "a" (Tag nm a ch))
                && (has_class "ordform" (Tag nm a ch) || has_name "a" (Tag nm a ch))).
        destruct ((has_name "span" (Tag nm a ch) || has_name "a" (Tag nm a ch))
                  && (has_class "ordform" (Tag nm a ch) || has_name "a" (Tag nm a ch))).
        * replace (nodes ++ Tag nm a ch :: filter Output.is_form_reference l)
            with ((nodes ++ [Tag nm a ch]) ++ filter Output.is_form_reference l)
            by now rewrite <- app_assoc.
          apply IH. apply Forall2_app; [exact Hn|].
          constructor; [|constructor].
          eexists. split; [reflexivity|].
          apply (strip_chars_trimmed (py " ,") desc).
        * destruct (has_class "dividerDot" (Tag nm a ch)); now apply IH. }
  apply (H (contents span) [] [] []). constructor.
Qed.

End Etymology.

Section WordForms.

Lemma split_no_separator (c : char) (s : str) :
  Forall (fun piece => ~ In c piece) (split c s).
Proof.
  induction s as [|x s IH]; cbn [split].
  - constructor; [intros [] | constructor].
  - destruct (N.eqb x c) eqn:E.
    + constructor; [intros [] | exact IH].
    + apply N.eqb_neq in E. destruct (split c s) as [|h t].
      * constructor; [|constructor]. intros [H|[]]. congruence.
      * apply Forall_cons_iff in IH as [Hh Ht].
        constructor; [|exact Ht]. intros [H|H]; [congruence | contradiction].
Qed.

Lemma drop_while_In (p : char -> bool) (s : str) (c : char) :
  In c (drop_while p s) -> In c s.
Proof.
  induction s as [|x s IH]; [intros []|]. cbn [drop_while].
  destruct (p x); [intros H; right; now apply IH | trivial].
Qed.

Lemma strip_In (s : str) (c : char) : In c (strip s) -> In c s.
Proof.
  unfold strip, rstrip_by, lstrip_by. intros H.
  apply in_rev, drop_while_In in H. apply in_rev in H.
  now apply drop_while_In in H.
Qed.

Lemma strip_idempotent (s : str) : strip (strip s) = strip s.
Proof.
  destruct (strip s) as [|c r] eqn:E; [reflexivity|]. rewrite <- E.
  apply strip_id; [apply strip_start; rewrite E; discriminate | apply strip_end].
Qed.

(** X9.  Every form [parse_wordforms] returns is not empty, holds no
    comma and has no white space at either end; without the "Boejning"
    label there is none. *)
Theorem wordforms_are_clean (soup : loc) :
  Forall Output.clean_form (parse_wordforms soup)
  /\ (find_stempel Boejning soup = None -> parse_wordforms soup = []).
Proof.
  split; [|unfold parse_wordforms; now intros ->].
  unfold parse_wordforms. destruct (find_stempel Boejning soup); [|constructor].
  apply Forall_forall. intros f Hin.
  apply in_map_iff in Hin as (piece & <- & Hin).
  apply filter_In in Hin as [Hin Hne].
  apply nonempty_true in Hne. repeat split.
  - exact Hne.
  - intros Hc. apply strip_In in Hc.
    match type of Hin with
    | In _ (split _ ?text) => pose proof (split_no_separator comma text) as Hs
    end.
    rewrite Forall_forall in Hs. now apply (Hs piece Hin).
  - apply strip_idempotent.
Qed.

(** A page without inflection label. *)
Lemma wordforms_are_clean_witness :
  parse_wordforms Pages.page_without_banner = [].
Proof.
  apply (wordforms_are_clean Pages.page_without_banner).
  vm_compute; reflexivity.
Defined.

End WordForms.

Section CleanLinks.

(** X10.  No link that [clean_links] returns is empty, starts with white
    space or ends with a digit, and there are at most as many as there
    are anchors. *)
Theorem cleaned_links_are_clean (a_tags : list loc) :
  Forall Output.clean_item (clean_links a_tags)
  /\ length (clean_links a_tags) <= length a_tags.
Proof.
  rewrite clean_links_flat. split.
  - apply Forall_forall. intros t Hin.
    apply in_flat_map in Hin as (a & _ & Hin). cbv zeta in Hin.
    destruct (str_in _ UNWANTED_TEXTS); [destruct Hin|].
    destruct (nonempty _) eqn:Hne; [|destruct Hin].
    destruct Hin as [<-|[]].
    rewrite (DIGITS_TRAIL_RE_sub_spec _ (anchor_text_no_newline a)) in *.
    apply nonempty_true in Hne. unfold Spec.strip_trailing_digits in *.
    repeat split.
    + exact Hne.
    + rewrite rstrip_by_keeps_start by exact Hne. apply get_text_start.
    + apply rstrip_by_end.
  - cbv zeta. induction a_tags as [|a rest IH]; [reflexivity|].
    cbn [flat_map length]. rewrite length_app.
    destruct (str_in _ UNWANTED_TEXTS); cbn [length]; [lia|].
    destruct (nonempty _); cbn [length]; lia.
Qed.

End CleanLinks.

(* ================================================================== *)
(** * The records of the fixed expressions *)
(* ================================================================== *)

Section Details.

Lemma box_detail_tagged (ud_id : str) (details details' : list pyval) (box : loc) :
  Forall Output.well_tagged details ->
  outcome (box_detail ud_id details box) = Ok details' ->
  Forall Output.well_tagged details'.
Proof.
  intros Hd. unfold box_detail. cbv zeta.
  assert (Hadd : forall d, Output.well_tagged d ->
                           Forall Output.well_tagged (details ++ [d])).
  { intros d H. apply Forall_app. split; [exact Hd | now constructor]. }
  destruct (nonempty ud_id && _).
  { intros [= <-]. apply Hadd. left. now eexists. }
  destruct (has_class "onym" (here box)).
  { intros [= <-]. apply Hadd. right; left. now eexists. }
  destruct (has_class "rel-begreber" (here box)).
  { intros [= <-]. apply Hadd. do 2 right; left. now eexists. }
  destruct (has_class "grammatik" (here box)).
  { intros [= <-]. apply Hadd. do 3 right; left. now eexists. }
  destruct (match select_one [with_class (tag_ "span") "stempel"] box with
            | Some s => _ | None => false end).
  - destruct (select_one [with_class (tag_ "span") "tekstnormal"] box).
    + intros [= <-]. apply Hadd. do 4 right; left. now eexists.
    + now intros [= <-].
  - destruct (select_one [with_class (tag_ "div") "citat-box"] box) as [cite|].
    + rewrite outcome_bind, citation_outcome.
      destruct (Output.citat_of cite); [|discriminate].
      intros [= <-]. apply Hadd. do 5 right. cbn [fst snd]. now do 2 eexists.
    + now intros [= <-].
Qed.

Lemma collect_details_tagged (ud_id : str) (above : list (str * attrs))
  (sibs : list node) :
  forall details details',
    Forall Output.well_tagged details ->
    outcome (collect_details ud_id above sibs details) = Ok details' ->
    Forall Output.well_tagged details'.
Proof.
  induction sibs as [|n sibs IH]; intros details details' Hd.
  - now intros [= <-].
  - cbn [collect_details].
    destruct (truthy n); cbn [negb]; [|now intros [= <-]].
    destruct (is_tag n); [|now apply IH].
    destruct (has_name "div" n && _); [now intros [= <-]|].
    destruct (has_class "definitionIndent" n); [|now apply IH].
    rewrite outcome_bind.
    destruct (outcome (for_each _ _ _)) as [d1|e] eqn:E; [|discriminate].
    apply IH. revert E. apply for_each_invariant; [|exact Hd].
    intros s x s'. apply box_detail_tagged.
Qed.

Lemma fixed_expressions_loop (uds : list loc) :
  forall out out',
    outcome (for_each fixed_expression uds out) = Ok out' ->
    exists records,
      out' = out ++ records
      /\ Forall2 Output.expression_of (filter Output.has_match uds) records.
Proof.
  induction uds as [|ud uds IH]; intros out out'.
  - intros [= <-]. exists []. split; [now rewrite app_nil_r | constructor].
  - change (for_each fixed_expression (ud :: uds) out)
      with (bind (fixed_expression out ud) (for_each fixed_expression uds)).
    rewrite outcome_bind. unfold fixed_expression at 1. cbn [filter].
    unfold Output.has_match at 1.
    destruct (select_one [with_class (tag_ "span") "match"] ud) as [m|] eqn:Hm;
      cbn [Shape.is_some].
    + rewrite outcome_bind.
      destruct (outcome (collect_details _ _ _ _)) as [details|e] eqn:E;
        [|discriminate].
      intros H. apply IH in H as (records & -> & Hrec).
      eexists. split; [now rewrite <- app_assoc|].
      constructor; [|exact Hrec].
      exists m, details. split; [exact Hm|]. split; [reflexivity|].
      apply (collect_details_tagged _ _ _ _ _ (Forall_nil _) E).
    + intros H. apply IH in H as (records & -> & Hrec). now exists records.
Qed.

(** X11.  When [parse_fixed_expressions] returns, its records are those of
    the expression containers that have a match span, one for one and in
    document order; the expression is the text of the match span, and
    every detail record carries one of the six tags with the keys of that
    tag: text for definition, grammar and usage, items for see_also and
    related, text and source for example. *)
Theorem fixed_expression_records (soup : loc) (out : list pyval) :
  outcome (parse_fixed_expressions soup) = Ok out ->
  Forall2 Output.expression_of
          (filter Output.has_match (Output.fixed_expression_containers soup)) out.
Proof.
  unfold parse_fixed_expressions, Output.fixed_expression_containers. cbv zeta.
  destruct (select_one [with_class (tag_ "div") "artikel"] soup) as [art|].
  - destruct (select_one [with_id any "content-faste-udtryk"] art) as [sec|].
    + intros H. apply fixed_expressions_loop in H as (records & -> & H). exact H.
    + intros [= <-]. constructor.
  - intros [= <-]. constructor.
Qed.

(** [page_hus] has four containers by the pattern, two of them with a
    match span. *)
Lemma fixed_expression_records_witness :
  exists out,
    outcome (parse_fixed_expressions Pages.page_hus) = Ok out
    /\ length out = 2
    /\ Forall2 Output.expression_of
               (filter Output.has_match
                       (Output.fixed_expression_containers Pages.page_hus)) out.
Proof.
  eexists. split; [vm_compute; reflexivity|]. split; [reflexivity|].
  apply (fixed_expression_records Pages.page_hus). vm_compute; reflexivity.
Defined.

End Details.

(* ================================================================== *)
(** * The batch, whatever the listing *)
(* ================================================================== *)

Section Listing.

(** X12.  The run of [main] does not depend on the order in which the
    directory lists its names: two listings of the same names give the
    same printed lines and the same entries, in the same order. *)
Theorem main_ignores_listing_order (listdir listdir' : list str)
  (page : str -> loc) :
  Permutation listdir listdir' ->
  main listdir page = main listdir' page.
Proof.
  intros H. unfold main, main_loop. now rewrite (sorted_deterministic _ _ H).
Qed.

Lemma main_ignores_listing_order_witness :
  Permutation Pages.ddo_html (rev Pages.ddo_html)
  /\ main Pages.ddo_html Pages.ddo_page = main (rev Pages.ddo_html) Pages.ddo_page.
Proof.
  split; [apply Permutation_rev|].
  apply (main_ignores_listing_order Pages.ddo_html (rev Pages.ddo_html)).
  apply Permutation_rev.
Defined.

Lemma filter_Permutation {X} (f : X -> bool) (l l' : list X) :
  Permutation l l' -> Permutation (filter f l) (filter f l').
Proof.
  induction 1 as [|x l l' H IH|x y l|l l' l'' H1 IH1 H2 IH2]; cbn [filter].
  - constructor.
  - destruct (f x); [now constructor | exact IH].
  - destruct (f x), (f y); try reflexivity. apply perm_swap.
  - now transitivity (filter f l').
Qed.

Lemma filter_split_Permutation {X} (f g : X -> bool) (l : list X) :
  Permutation (filter (fun x => f x && g x) l
               ++ filter (fun x => f x && negb (g x)) l)
              (filter f l).
Proof.
  induction l as [|x l IH]; cbn [filter]; [constructor|].
  destruct (f x), (g x); cbn [andb negb app]; try exact IH.
  - now constructor.
  - rewrite <- Permutation_middle. now constructor.
Qed.

(** X13.  In a run in which no page raises, every name of the directory
    that ends in ".html" is accounted for exactly once: either an Entry
    comes from it or it is among the skipped names, and the two together
    are the ".html" names of the listing. *)
Theorem every_html_file_accounted (listdir : list str) (page : str -> loc) :
  (forall fn e, In fn listdir -> Shape.is_html fn = true ->
                outcome (parse_entry fn (page fn)) <> Raise e) ->
  exists entries names skipped_files,
    outcome (main_loop listdir page) = Ok (entries, skipped_files)
    /\ map Shape.file_of entries = map (fun fn => Some (PStr fn)) names
    /\ Permutation (names ++ skipped_files) (filter Shape.is_html listdir).
Proof.
  intros Hok.
  destruct (main_loop_when_no_page_raises page (sorted listdir)) with
    (entries := @nil dict) (skipped_files := @nil str)
    as (entries & Hrun & Hfiles).
  - intros fn e Hin. apply Hok.
    eapply Permutation_in; [symmetry; apply sorted_Permutation | exact Hin].
  - do 3 eexists. split; [exact Hrun|]. split; [exact Hfiles|].
    cbn [app]. rewrite (filter_split_Permutation Shape.is_html
                          (fun fn => Shape.has_artikel (page fn)) (sorted listdir)).
    apply filter_Permutation. symmetry. apply sorted_Permutation.
Qed.

Lemma every_html_file_accounted_witness :
  exists entries names skipped_files,
    outcome (main_loop Pages.ddo_html Pages.ddo_page) = Ok (entries, skipped_files)
    /\ map Shape.file_of entries = map (fun fn => Some (PStr fn)) names
    /\ Permutation (names ++ skipped_files)
                   (filter Shape.is_html Pages.ddo_html).
Proof.
  apply (every_html_file_accounted Pages.ddo_html Pages.ddo_page).
  intros fn e Hin Hhtml.
  destruct Hin as [<-|[<-|[<-|[<-|[]]]]]; vm_compute; discriminate.
Defined.

End Listing.

(* ================================================================== *)
(** * Deduplication: the groups *)
(* ================================================================== *)

Section Grouping.

Lemma key_eqb_eq (a b : pyval) : Dedupe.key_eqb a b = true -> a = b.
Proof.
  destruct a, b; try discriminate; [reflexivity|].
  cbn [Dedupe.key_eqb]. intros H. apply str_eqb_eq in H. now subst.
Qed.

Lemma key_eqb_refl (k : pyval) :
  Dedupe.hashable k = true -> Dedupe.key_eqb k k = true.
Proof. destruct k; try discriminate; [reflexivity | intros _; apply str_eqb_refl]. Qed.

Lemma key_eqb_sym (a b : pyval) : Dedupe.key_eqb a b = Dedupe.key_eqb b a.
Proof.
  destruct a, b; try reflexivity. cbn [Dedupe.key_eqb].
  destruct (str_eqb s s0) eqn:E.
  - apply str_eqb_eq in E. subst. now rewrite str_eqb_refl.
  - symmetry. apply str_eqb_neq. apply str_eqb_neq in E. congruence.
Qed.

Lemma key_eqb_neq (a b : pyval) : a <> b -> Dedupe.key_eqb a b = false.
Proof.
  intros H. destruct (Dedupe.key_eqb a b) eqn:E; [|reflexivity].
  now apply key_eqb_eq in E.
Qed.

Lemma existsb_key_In (k : pyval) (ks : list pyval) :
  existsb (Dedupe.key_eqb k) ks = true -> In k ks.
Proof.
  intros H. apply existsb_exists in H as (x & Hin & E).
  apply key_eqb_eq in E. now subst.
Qed.

Lemma In_existsb_key (k : pyval) (ks : list pyval) :
  Dedupe.hashable k = true -> In k ks -> existsb (Dedupe.key_eqb k) ks = true.
Proof.
  intros Hh Hin. apply existsb_exists. exists k. split; [exact Hin|].
  now apply key_eqb_refl.
Qed.

Lemma groupable_key (e : pyval) :
  Dedupe.groupable e ->
  Json.get e "headword" PNone = Json.Return (Dedupe.key_of e)
  /\ Dedupe.hashable (Dedupe.key_of e) = true.
Proof.
  intros (k & Hget & Hh). unfold Dedupe.key_of. rewrite Hget. now split.
Qed.

Lemma first_keys_snoc (seen : list pyval) (e : pyval) :
  Dedupe.first_keys (seen ++ [e])
  = Dedupe.add_key (Dedupe.first_keys seen) (Dedupe.key_of e).
Proof. unfold Dedupe.first_keys. now rewrite fold_left_app. Qed.

(** The headwords kept: distinct, those of the entries seen, and every
    entry seen has its own among them. *)
Lemma first_keys_facts (seen : list pyval) :
  Forall Dedupe.groupable seen ->
  NoDup (Dedupe.first_keys seen)
  /\ (forall k, In k (Dedupe.first_keys seen) <->
                 exists e, In e seen /\ Dedupe.key_of e = k).
Proof.
  induction seen as [|e seen IH] using rev_ind; intros H.
  - split; [constructor|]. intros k. split; [intros [] | intros (e & [] & _)].
  - apply Forall_app in H as [Hseen He]. apply Forall_inv in He.
    destruct (IH Hseen) as [Hnd Hin]. apply groupable_key in He as [_ Hh].
    rewrite first_keys_snoc. unfold Dedupe.add_key.
    destruct (existsb _ _) eqn:E.
    + split; [exact Hnd|]. intros k. rewrite Hin. split.
      * intros (x & Hx & Hk). exists x. split; [apply in_or_app; now left | exact Hk].
      * intros (x & Hx & Hk). apply in_app_or in Hx as [Hx|[<-|[]]].
        -- now exists x.
        -- apply Hin. subst k. now apply existsb_key_In.
    + assert (Hnot : ~ In (Dedupe.key_of e) (Dedupe.first_keys seen)).
      { intros Hk. apply In_existsb_key in Hk; [congruence | exact Hh]. }
      split.
      * apply NoDup_app; [exact Hnd | repeat constructor; intros [] |].
        intros x Hx [Hk|[]]. now subst x.
      * intros k. rewrite in_app_iff, Hin. split.
        -- intros [(x & Hx & Hk)|[<-|[]]].
           ++ exists x. split; [apply in_or_app; now left | exact Hk].
           ++ exists e. split; [apply in_or_app; right; now left | reflexivity].
        -- intros (x & Hx & Hk). apply in_app_or in Hx as [Hx|[<-|[]]].
           ++ left. now exists x.
           ++ right. now left.
Qed.

Lemma append_to_known_group (ks : list pyval) (f : pyval -> list pyval)
  (hw e : pyval) :
  NoDup ks -> existsb (Dedupe.key_eqb hw) ks = true ->
  Dedupe.append_to_group (map (fun k => (k, f k)) ks) hw e
  = map (fun k => (k, f k ++ if Dedupe.key_eqb k hw then [e] else [])) ks.
Proof.
  induction ks as [|k ks IH]; [discriminate|].
  intros Hnd Hex. apply NoDup_cons_iff in Hnd as [Hk Hnd].
  cbn [map Dedupe.append_to_group].
  destruct (Dedupe.key_eqb k hw) eqn:E.
  - f_equal. apply map_ext_in. intros k' Hin.
    rewrite key_eqb_neq; [now rewrite app_nil_r|].
    apply key_eqb_eq in E. subst hw. intros ->. contradiction.
  - rewrite app_nil_r. f_equal. apply IH; [exact Hnd|].
    cbn [existsb] in Hex. now rewrite key_eqb_sym, E in Hex.
Qed.

Lemma append_to_new_group (ks : list pyval) (f : pyval -> list pyval)
  (hw e : pyval) :
  existsb (Dedupe.key_eqb hw) ks = false ->
  Dedupe.append_to_group (map (fun k => (k, f k)) ks) hw e
  = map (fun k => (k, f k)) ks ++ [(hw, [e])].
Proof.
  induction ks as [|k ks IH]; [reflexivity|].
  cbn [existsb map Dedupe.append_to_group app]. intros H.
  apply orb_false_iff in H as [Hk H].
  rewrite key_eqb_sym, Hk. f_equal. now apply IH.
Qed.

Lemma filter_none {X} (f : X -> bool) (l : list X) :
  (forall x, In x l -> f x = false) -> filter f l = [].
Proof.
  induction l as [|x l IH]; [reflexivity|]. intros H. cbn [filter].
  rewrite (H x (or_introl eq_refl)). apply IH. intros y Hy. apply H. now right.
Qed.

Lemma filter_snoc {X} (f : X -> bool) (l : list X) (x : X) :
  filter f (l ++ [x]) = filter f l ++ if f x then [x] else [].
Proof. rewrite filter_app. reflexivity. Qed.

(** One entry more: the group of its headword gets it at the end, or a
    new group is opened after the others. *)
Lemma grouped_snoc (seen : list pyval) (e : pyval) :
  Forall Dedupe.groupable seen -> Dedupe.groupable e ->
  Dedupe.append_to_group (Dedupe.grouped seen) (Dedupe.key_of e) e
  = Dedupe.grouped (seen ++ [e]).
Proof.
  intros Hseen He. destruct (first_keys_facts seen Hseen) as [Hnd Hin].
  apply groupable_key in He as [_ Hh].
  unfold Dedupe.grouped. rewrite first_keys_snoc. unfold Dedupe.add_key.
  destruct (existsb _ _) eqn:E.
  - rewrite append_to_known_group by assumption.
    apply map_ext. intros k. now rewrite filter_snoc.
  - rewrite append_to_new_group by assumption. rewrite map_app. cbn [map].
    f_equal.
    + apply map_ext_in. intros k Hk. rewrite filter_snoc.
      assert (Dedupe.same_key k e = false) as ->; [|now rewrite app_nil_r].
      apply key_eqb_neq. intros ->.
      apply In_existsb_key in Hk; [congruence | exact Hh].
    + f_equal. f_equal. rewrite filter_snoc.
      assert (Dedupe.same_key (Dedupe.key_of e) e = true) as ->
          by now apply key_eqb_refl.
      rewrite filter_none; [reflexivity|].
      intros x Hx. destruct (Dedupe.same_key (Dedupe.key_of e) x) eqn:Ex;
        [|reflexivity].
      apply key_eqb_eq in Ex.
      assert (Hk : In (Dedupe.key_of e) (Dedupe.first_keys seen))
        by (apply Hin; now exists x).
      apply In_existsb_key in Hk; [congruence | exact Hh].
Qed.

Lemma group_step_groupable (g g' : Dedupe.groups) (e : pyval) :
  Dedupe.group_step g e = Json.Return g' ->
  Dedupe.groupable e
  /\ g' = Dedupe.append_to_group g (Dedupe.key_of e) e.
Proof.
  unfold Dedupe.group_step, Dedupe.groupable, Dedupe.key_of.
  destruct (Json.get e "headword" PNone) as [k|err]; [|discriminate].
  cbn [Json.and_then]. destruct (Dedupe.hashable k) eqn:Hh; [|discriminate].
  intros [= <-]. split; [now exists k | reflexivity].
Qed.

(** The grouping loop ends well exactly on entries that can be grouped,
    and then [groups] holds, for every headword in the order of first
    occurrence, the entries with that headword in their order. *)
Lemma grouping_loop (rest : list pyval) :
  forall seen g,
    Forall Dedupe.groupable seen ->
    Json.fold Dedupe.group_step rest (Dedupe.grouped seen) = Json.Return g ->
    Forall Dedupe.groupable rest /\ g = Dedupe.grouped (seen ++ rest).
Proof.
  induction rest as [|e rest IH]; intros seen g Hseen.
  - intros [= <-]. split; [constructor | now rewrite app_nil_r].
  - cbn [Json.fold].
    destruct (Dedupe.group_step (Dedupe.grouped seen) e) as [g1|err] eqn:E;
      [|discriminate].
    cbn [Json.and_then]. apply group_step_groupable in E as [He ->].
    rewrite (grouped_snoc seen e Hseen He). intros H.
    apply IH in H as [Hrest ->].
    + split; [now constructor | now rewrite <- app_assoc].
    + apply Forall_app. split; [exact Hseen | now constructor].
Qed.

Lemma grouping_succeeds (rest : list pyval) :
  forall seen,
    Forall Dedupe.groupable seen -> Forall Dedupe.groupable rest ->
    Json.fold Dedupe.group_step rest (Dedupe.grouped seen)
    = Json.Return (Dedupe.grouped (seen ++ rest)).
Proof.
  induction rest as [|e rest IH]; intros seen Hseen Hrest.
  - now rewrite app_nil_r.
  - apply Forall_cons_iff in Hrest as [He Hrest]. cbn [Json.fold].
    assert (Hstep : Dedupe.group_step (Dedupe.grouped seen) e
                    = Json.Return (Dedupe.grouped (seen ++ [e]))).
    { rewrite <- (grouped_snoc seen e Hseen He).
      apply groupable_key in He as [Hget Hh].
      unfold Dedupe.group_step. rewrite Hget. cbn [Json.and_then].
      now rewrite Hh. }
    rewrite Hstep. cbn [Json.and_then].
    rewrite IH; [now rewrite <- app_assoc | | exact Hrest].
    apply Forall_app. split; [exact Hseen | now constructor].
Qed.

End Grouping.

(* ================================================================== *)
(** * Deduplication: the best of a group *)
(* ================================================================== *)

Section Best.

Lemma max_rest_best (rest : list pyval) :
  forall pre best mid best_key u,
    Dedupe.richness_score best = Json.Return best_key ->
    Forall (fun e => exists m, Dedupe.richness_score e = Json.Return m
                               /\ m < best_key) pre ->
    Forall (fun e => exists m, Dedupe.richness_score e = Json.Return m
                               /\ m <= best_key) mid ->
    Dedupe.max_rest best best_key rest = Json.Return u ->
    Dedupe.best_of (pre ++ best :: mid ++ rest) u.
Proof.
  induction rest as [|x rest IH]; intros pre best mid bk u Hbest Hpre Hmid.
  - intros [= <-]. exists pre, mid, bk. rewrite app_nil_r. now repeat split.
  - cbn [Dedupe.max_rest].
    destruct (Dedupe.richness_score x) as [k|err] eqn:Hx; [|discriminate].
    cbn [Json.and_then]. destruct (Nat.ltb bk k) eqn:Hlt.
    + apply Nat.ltb_lt in Hlt. intros H.
      replace (pre ++ best :: mid ++ x :: rest)
        with ((pre ++ best :: mid) ++ x :: [] ++ rest)
        by (rewrite <- app_assoc; reflexivity).
      apply (IH (pre ++ best :: mid) x [] k u Hx); [|constructor|exact H].
      apply Forall_app. split.
      * eapply Forall_impl; [|exact Hpre]. intros e (m & Hm & Hle).
        exists m. split; [exact Hm | lia].
      * constructor; [exists bk; split; [exact Hbest | lia]|].
        eapply Forall_impl; [|exact Hmid]. intros e (m & Hm & Hle).
        exists m. split; [exact Hm | lia].
    + apply Nat.ltb_ge in Hlt. intros H.
      replace (pre ++ best :: mid ++ x :: rest)
        with (pre ++ best :: (mid ++ [x]) ++ rest)
        by (rewrite <- app_assoc; reflexivity).
      apply (IH pre best (mid ++ [x]) bk u Hbest Hpre); [|exact H].
      apply Forall_app. split; [exact Hmid|].
      constructor; [|constructor]. exists k. now split.
Qed.

Lemma max_by_richness_best (lst : list pyval) (u : pyval) :
  Dedupe.max_by_richness lst = Json.Return u -> Dedupe.best_of lst u.
Proof.
  destruct lst as [|x rest]; [discriminate|]. cbn [Dedupe.max_by_richness].
  destruct (Dedupe.richness_score x) as [k|err] eqn:Hx; [|discriminate].
  cbn [Json.and_then]. intros H.
  apply (max_rest_best rest [] x [] k u Hx); [constructor | constructor | exact H].
Qed.

Lemma max_by_richness_single (u : pyval) (n : nat) :
  Dedupe.richness_score u = Json.Return n ->
  Dedupe.max_by_richness [u] = Json.Return u.
Proof. intros H. cbn [Dedupe.max_by_richness]. now rewrite H. Qed.

Lemma max_rest_succeeds (rest : list pyval) :
  forall best best_key,
    Dedupe.all_score rest ->
    exists u, Dedupe.max_rest best best_key rest = Json.Return u.
Proof.
  induction rest as [|x rest IH]; intros best bk H; [now exists best|].
  apply Forall_cons_iff in H as [(k & Hk) H]. cbn [Dedupe.max_rest].
  rewrite Hk. cbn [Json.and_then]. destruct (Nat.ltb bk k); now apply IH.
Qed.

Lemma max_by_richness_succeeds (lst : list pyval) :
  lst <> [] -> Dedupe.all_score lst ->
  exists u, Dedupe.max_by_richness lst = Json.Return u.
Proof.
  destruct lst as [|x rest]; [contradiction|]. intros _ H.
  apply Forall_cons_iff in H as [(k & Hk) H]. cbn [Dedupe.max_by_richness].
  rewrite Hk. cbn [Json.and_then]. now apply max_rest_succeeds.
Qed.

Lemma traverse_Forall2 {A B} (f : A -> Json.answer B) (xs : list A) :
  forall ys, Json.traverse f xs = Json.Return ys ->
             Forall2 (fun x y => f x = Json.Return y) xs ys.
Proof.
  induction xs as [|x xs IH]; intros ys.
  - intros [= <-]. constructor.
  - cbn [Json.traverse]. destruct (f x) as [y|e] eqn:E; [|discriminate].
    cbn [Json.and_then].
    destruct (Json.traverse f xs) as [ys'|e]; [|discriminate].
    cbn [Json.and_then]. intros [= <-]. constructor; [exact E | now apply IH].
Qed.

Lemma traverse_succeeds {A B} (f : A -> Json.answer B) (xs : list A) :
  Forall (fun x => exists y, f x = Json.Return y) xs ->
  exists ys, Json.traverse f xs = Json.Return ys.
Proof.
  induction 1 as [|x xs (y & Hy) _ (ys & Hys)]; [now exists []|].
  exists (y :: ys). cbn [Json.traverse]. now rewrite Hy, Hys.
Qed.

(** What the script has done when it ends well. *)
Lemma dedupe_returns (entries unique : list pyval) :
  snd (Dedupe.dedupe entries) = Json.Return unique ->
  Forall Dedupe.groupable entries
  /\ Forall2 (fun k u => Dedupe.best_of (filter (Dedupe.same_key k) entries) u)
             (Dedupe.first_keys entries) unique.
Proof.
  unfold Dedupe.dedupe.
  destruct (Json.fold Dedupe.group_step entries []) as [g|e] eqn:Hg;
    [|discriminate].
  apply (grouping_loop entries [] g (Forall_nil _)) in Hg as [Hall ->].
  cbn [app].
  destruct (Json.traverse _ (Dedupe.grouped entries)) as [us|e] eqn:Ht;
    [|discriminate].
  cbn [snd]. intros [= <-]. split; [exact Hall|].
  apply traverse_Forall2 in Ht. unfold Dedupe.grouped in Ht.
  apply Forall2_flip in Ht. apply Forall2_flip.
  remember (Dedupe.first_keys entries) as ks eqn:Eks. clear Eks.
  revert us Ht. induction ks as [|k ks IH]; intros us H.
  - inversion H. constructor.
  - inversion H as [|u kv us' g' Hu Hrest]; subst. constructor.
    + cbn [snd] in Hu. now apply max_by_richness_best.
    + now apply IH.
Qed.

(** X14.  When the deduplication ends well, it has kept one entry for
    every headword, in the order in which the headwords first occur; the
    entry kept has, among the entries with its headword, a score greater
    than every earlier one and at least that of every later one: the
    first of the richest. *)
Theorem dedupe_keeps_first_of_richest (entries unique : list pyval) :
  snd (Dedupe.dedupe entries) = Json.Return unique ->
  Forall2 (fun k u => Dedupe.best_of (filter (Dedupe.same_key k) entries) u)
          (Dedupe.first_keys entries) unique.
Proof. intros H. now apply dedupe_returns in H. Qed.

(** Of the sample entries, the second "hus" is kept, which ties with the
    fourth, then "bil". *)
Lemma dedupe_keeps_first_of_richest_witness :
  snd (Dedupe.dedupe Dedupe.sample_entries)
    = Json.Return [Dedupe.sample "hus" 2 1; Dedupe.sample "bil" 1 1]
  /\ Forall2 (fun k u =>
                Dedupe.best_of (filter (Dedupe.same_key k) Dedupe.sample_entries) u)
             (Dedupe.first_keys Dedupe.sample_entries)
             [Dedupe.sample "hus" 2 1; Dedupe.sample "bil" 1 1].
Proof.
  split; [reflexivity|].
  apply (dedupe_keeps_first_of_richest Dedupe.sample_entries). reflexivity.
Defined.

End Best.

(* ================================================================== *)
(** * Deduplication: one entry per headword *)
(* ================================================================== *)

Section OnePerHeadword.

Lemma best_of_In (lst : list pyval) (u : pyval) :
  Dedupe.best_of lst u ->
  In u lst
  /\ exists n, Dedupe.richness_score u = Json.Return n
               /\ forall e, In e lst ->
                            exists m, Dedupe.richness_score e = Json.Return m
                                      /\ m <= n.
Proof.
  intros (pre & post & n & -> & Hu & Hpre & Hpost). split.
  - apply in_or_app. right. now left.
  - exists n. split; [exact Hu|]. intros e Hin.
    rewrite Forall_forall in Hpre, Hpost.
    apply in_app_or in Hin as [Hin|[<-|Hin]].
    + destruct (Hpre e Hin) as (m & Hm & Hlt). exists m. split; [exact Hm | lia].
    + exists n. now split.
    + now apply Hpost.
Qed.

Lemma first_keys_length (entries : list pyval) :
  length (Dedupe.first_keys entries) <= length entries.
Proof.
  unfold Dedupe.first_keys.
  assert (H : forall l acc,
             length (fold_left (fun ks e => Dedupe.add_key ks (Dedupe.key_of e)) l acc)
             <= length acc + length l).
  { induction l as [|e l IH]; intros acc; cbn [fold_left length]; [lia|].
    specialize (IH (Dedupe.add_key acc (Dedupe.key_of e))).
    unfold Dedupe.add_key in *. destruct (existsb _ acc).
    - lia.
    - rewrite length_app in IH. cbn [length] in IH. lia. }
  apply (H entries []).
Qed.

Lemma Forall2_In_l {X Y} (R : X -> Y -> Prop) (xs : list X) (ys : list Y) (x : X) :
  Forall2 R xs ys -> In x xs -> exists y, In y ys /\ R x y.
Proof.
  induction 1 as [|x0 y0 xs ys H0 H IH]; [intros []|].
  intros [<-|Hin].
  - exists y0. split; [now left | exact H0].
  - destruct (IH Hin) as (y & Hy & Hr). exists y. split; [now right | exact Hr].
Qed.

Lemma Forall2_In_r {X Y} (R : X -> Y -> Prop) (xs : list X) (ys : list Y) (y : Y) :
  Forall2 R xs ys -> In y ys -> exists x, In x xs /\ R x y.
Proof.
  induction 1 as [|x0 y0 xs ys H0 H IH]; [intros []|].
  intros [<-|Hin].
  - exists x0. split; [now left | exact H0].
  - destruct (IH Hin) as (x & Hx & Hr). exists x. split; [now right | exact Hr].
Qed.

(** What is kept: one entry of the input for every headword, none twice,
    each scoring at least as much as every entry it stands for. *)
Lemma dedupe_output (entries unique : list pyval) :
  snd (Dedupe.dedupe entries) = Json.Return unique ->
  NoDup (map Dedupe.key_of unique)
  /\ (forall u, In u unique -> In u entries)
  /\ (forall e, In e entries ->
                exists u n m,
                  In u unique /\ Dedupe.key_of u = Dedupe.key_of e
                  /\ Dedupe.richness_score u = Json.Return n
                  /\ Dedupe.richness_score e = Json.Return m
                  /\ m <= n)
  /\ length unique <= length entries.
Proof.
  intros H. apply dedupe_returns in H as [Hall H2].
  destruct (first_keys_facts entries Hall) as [Hnd Hin].
  assert (Hkeys : map Dedupe.key_of unique = Dedupe.first_keys entries).
  { clear Hnd Hin. induction H2 as [|k u ks us Hb H2 IH]; [reflexivity|].
    cbn [map]. rewrite IH. f_equal.
    apply best_of_In in Hb as [Hu _]. apply filter_In in Hu as [_ Hu].
    symmetry. now apply key_eqb_eq. }
  split; [now rewrite Hkeys|]. split; [|split].
  - intros u Hu. destruct (Forall2_In_r _ _ _ u H2 Hu) as (k & _ & Hb).
    apply best_of_In in Hb as [Hb _]. now apply filter_In in Hb.
  - intros e He.
    assert (Hk : In (Dedupe.key_of e) (Dedupe.first_keys entries))
      by (apply Hin; now exists e).
    destruct (Forall2_In_l _ _ _ _ H2 Hk) as (u & Hu & Hb).
    apply best_of_In in Hb as [Hfilter (n & Hn & Hle)].
    destruct (Hle e) as (m & Hm & Hmn).
    { apply filter_In. split; [exact He|]. apply key_eqb_refl.
      rewrite Forall_forall in Hall. now apply groupable_key, Hall. }
    exists u, n, m. repeat split; try assumption.
    apply filter_In in Hfilter as [_ Hsame]. symmetry. now apply key_eqb_eq.
  - rewrite <- (length_map Dedupe.key_of), Hkeys. apply first_keys_length.
Qed.

(** X15.  When the deduplication ends well, no two entries it keeps have
    the same headword, every entry it keeps is an entry of the input,
    every entry of the input has its headword kept by an entry that
    scores at least as much, and no more entries come out than went
    in. *)
Theorem dedupe_one_per_headword (entries unique : list pyval) :
  snd (Dedupe.dedupe entries) = Json.Return unique ->
  NoDup (map Dedupe.key_of unique)
  /\ (forall u, In u unique -> In u entries)
  /\ (forall e, In e entries ->
                exists u n m,
                  In u unique /\ Dedupe.key_of u = Dedupe.key_of e
                  /\ Dedupe.richness_score u = Json.Return n
                  /\ Dedupe.richness_score e = Json.Return m
                  /\ m <= n)
  /\ length unique <= length entries.
Proof. apply dedupe_output. Qed.

Lemma dedupe_one_per_headword_witness :
  snd (Dedupe.dedupe Dedupe.sample_entries)
    = Json.Return [Dedupe.sample "hus" 2 1; Dedupe.sample "bil" 1 1]
  /\ NoDup (map Dedupe.key_of [Dedupe.sample "hus" 2 1; Dedupe.sample "bil" 1 1]).
Proof.
  split; [reflexivity|].
  apply (dedupe_one_per_headword Dedupe.sample_entries). reflexivity.
Defined.

Lemma first_keys_distinct (l : list pyval) :
  forall acc,
    NoDup (acc ++ map Dedupe.key_of l) ->
    fold_left (fun ks e => Dedupe.add_key ks (Dedupe.key_of e)) l acc
    = acc ++ map Dedupe.key_of l.
Proof.
  induction l as [|e l IH]; intros acc Hnd; cbn [fold_left map].
  - now rewrite app_nil_r.
  - unfold Dedupe.add_key at 2.
    destruct (existsb (Dedupe.key_eqb (Dedupe.key_of e)) acc) eqn:E.
    + apply existsb_key_In in E. apply NoDup_remove_2 in Hnd.
      exfalso. apply Hnd. apply in_or_app. now left.
    + rewrite IH; rewrite <- app_assoc; [reflexivity | exact Hnd].
Qed.

Lemma filter_same_key_single (l : list pyval) (u : pyval) :
  Forall Dedupe.groupable l -> NoDup (map Dedupe.key_of l) -> In u l ->
  filter (Dedupe.same_key (Dedupe.key_of u)) l = [u].
Proof.
  induction l as [|x l IH]; [intros _ _ []|].
  intros Hall Hnd Hin. apply Forall_cons_iff in Hall as [Hx Hall].
  cbn [map] in Hnd. apply NoDup_cons_iff in Hnd as [Hnot Hnd]. cbn [filter].
  destruct Hin as [<-|Hin].
  - unfold Dedupe.same_key at 1.
    rewrite key_eqb_refl by now apply groupable_key.
    f_equal. apply filter_none. intros y Hy.
    apply key_eqb_neq. intros E. apply Hnot. rewrite E. now apply in_map.
  - unfold Dedupe.same_key at 1. rewrite key_eqb_neq; [now apply IH|].
    intros E. apply Hnot. rewrite <- E. now apply in_map.
Qed.

(** On entries with distinct headwords the script keeps them all. *)
Lemma dedupe_distinct (entries : list pyval) :
  Forall Dedupe.groupable entries ->
  NoDup (map Dedupe.key_of entries) ->
  Dedupe.all_score entries ->
  snd (Dedupe.dedupe entries) = Json.Return entries.
Proof.
  intros Hall Hnd Hscore. unfold Dedupe.dedupe.
  change (@nil (pyval * list pyval)) with (Dedupe.grouped []).
  rewrite (grouping_succeeds entries [] (Forall_nil _) Hall). cbn [app].
  unfold Dedupe.grouped, Dedupe.first_keys.
  rewrite (first_keys_distinct entries []) by exact Hnd. cbn [app].
  assert (H : forall sub,
             (forall u, In u sub -> In u entries) ->
             Json.traverse (fun kv : pyval * list pyval =>
                              Dedupe.max_by_richness (snd kv))
               (map (fun k => (k, filter (Dedupe.same_key k) entries))
                    (map Dedupe.key_of sub))
             = Json.Return sub).
  { induction sub as [|u sub IH]; intros Hsub; [reflexivity|].
    cbn [map Json.traverse snd].
    rewrite (filter_same_key_single entries u Hall Hnd) by (apply Hsub; now left).
    unfold Dedupe.all_score in Hscore. rewrite Forall_forall in Hscore.
    destruct (Hscore u) as (n & Hn); [apply Hsub; now left|].
    rewrite (max_by_richness_single u n Hn). cbn [Json.and_then].
    rewrite IH by (intros v Hv; apply Hsub; now right). reflexivity. }
  rewrite (H entries) by trivial. reflexivity.
Qed.

(** X16.  On entries that all have a headword of their own and a score,
    the deduplication keeps every entry, in the same order; and what it
    gives on any input it gives again when run on its own output. *)
Theorem dedupe_fixed_points (entries : list pyval) :
  (Forall Dedupe.groupable entries ->
   NoDup (map Dedupe.key_of entries) ->
   Dedupe.all_score entries ->
   snd (Dedupe.dedupe entries) = Json.Return entries)
  /\ (forall unique,
         snd (Dedupe.dedupe entries) = Json.Return unique ->
         snd (Dedupe.dedupe unique) = Json.Return unique).
Proof.
  split; [apply dedupe_distinct|].
  intros unique H. pose proof (dedupe_output entries unique H) as (Hnd & Hsub & Hbest & _).
  apply dedupe_returns in H as [Hall H2].
  rewrite Forall_forall in Hall.
  apply dedupe_distinct; [|exact Hnd|].
  - apply Forall_forall. intros u Hu. now apply Hall, Hsub.
  - apply Forall_forall. intros u Hu.
    destruct (Forall2_In_r _ _ _ u H2 Hu) as (k & _ & Hb).
    apply best_of_In in Hb as [_ (n & Hn & _)]. now exists n.
Qed.

Lemma dedupe_fixed_points_witness :
  snd (Dedupe.dedupe [Dedupe.sample "hus" 2 1; Dedupe.sample "bil" 1 1])
    = Json.Return [Dedupe.sample "hus" 2 1; Dedupe.sample "bil" 1 1].
Proof.
  apply (proj2 (dedupe_fixed_points Dedupe.sample_entries)). reflexivity.
Defined.

End OnePerHeadword.

(* ================================================================== *)
(** * From the pages to the deduplication *)
(* ================================================================== *)

Section Composition.

(** The parts of an Entry, with the outcomes they come from. *)
Lemma parse_entry_parts (fn : str) (soup : loc) (e : dict) :
  outcome (parse_entry fn soup) = Ok (Some e) ->
  exists headword pos udtale forms definitions fixed_expressions orddannelser,
    outcome (parse_orddannelser soup) = Ok orddannelser
    /\ e = [(py "file", PStr fn);
            (py "headword", PStr headword);
            (py "pos", pos);
            (py "udtale", PList udtale);
            (py "wordforms", str_list forms);
            (py "etymology", parse_etymology soup);
            (py "definitions", PList definitions);
            (py "fixed_expressions", PList fixed_expressions);
            (py "orddannelser", PDict orddannelser)].
Proof.
  unfold parse_entry.
  destruct (select_one [with_class (tag_ "div") "artikel"] soup) as [art|];
    [|discriminate].
  destruct (select_one (banner "match") art) as [head|]; [|discriminate].
  cbn [deref]. rewrite bind_ret_l. cbv zeta.
  rewrite outcome_bind.
  destruct (outcome (parse_udtale soup fn)) as [udtale|]; [|discriminate].
  rewrite outcome_bind.
  destruct (outcome (parse_definitions soup fn)) as [definitions|]; [|discriminate].
  rewrite outcome_bind.
  destruct (outcome (parse_fixed_expressions soup)) as [fixed|]; [|discriminate].
  rewrite outcome_bind.
  destruct (outcome (parse_orddannelser soup)) as [ordd|] eqn:Hordd; [|discriminate].
  intros [= <-]. do 7 eexists. split; [reflexivity|]. reflexivity.
Qed.

Lemma fold_add_len_lists (od : dict) :
  Forall (fun kv => exists items, snd kv = str_list items) od ->
  forall score,
    Json.fold Dedupe.add_len (map snd od) score
    = Json.Return
        (score + list_sum (map (fun kv => Dedupe.list_length (Some (snd kv))) od)).
Proof.
  induction 1 as [|kv od (items & Hkv) _ IH]; intros score.
  - cbn [map Json.fold list_sum]. now rewrite Nat.add_0_r.
  - cbn [map Json.fold list_sum]. rewrite Hkv. unfold str_list.
    unfold Dedupe.add_len at 1.
    cbn [Json.len Json.and_then Dedupe.list_length].
    rewrite IH. f_equal. cbn [list_sum]. symmetry. apply Nat.add_assoc.
Qed.

(** The score of an Entry a page gives, and the key it is grouped under. *)
Lemma generated_scores (e : dict) :
  Dedupe.generated e ->
  Dedupe.richness_score (PDict e)
  = Json.Return
      (Dedupe.list_length (dict_get e (py "definitions"))
       + Dedupe.list_length (dict_get e (py "fixed_expressions"))
       + Dedupe.list_length (dict_get e (py "wordforms"))
       + Dedupe.list_length (dict_get e (py "udtale"))
       + Dedupe.orddannelser_count (dict_get e (py "orddannelser")))
  /\ Dedupe.groupable (PDict e).
Proof.
  intros (fn & soup & H).
  apply parse_entry_parts in H
    as (hw & pos & udtale & forms & defs & fixed & ordd & Hordd & ->).
  apply orddannelser_values in Hordd. split.
  - unfold Dedupe.richness_score, Json.get.
    match goal with
    | |- context [dict_get ?d _] => set (entry := d)
    end.
    change (dict_get entry (py "definitions")) with (Some (PList defs)).
    change (dict_get entry (py "fixed_expressions")) with (Some (PList fixed)).
    change (dict_get entry (py "wordforms")) with (Some (str_list forms)).
    change (dict_get entry (py "udtale")) with (Some (PList udtale)).
    change (dict_get entry (py "orddannelser")) with (Some (PDict ordd)).
    unfold str_list, Dedupe.add_len.
    cbn [Json.len Json.and_then Json.values Dedupe.list_length
         Dedupe.orddannelser_count].
    fold Dedupe.add_len. rewrite (fold_add_len_lists ordd Hordd).
    reflexivity.
  - exists (PStr hw). split; reflexivity.
Qed.

(** X17.  The score of an Entry that [parse_entry] gives is always
    defined: it is the number of its definitions, fixed expressions, word
    forms and pronunciations plus the number of word-formation items of
    all categories. *)
Theorem richness_of_generated_entry (e : dict) :
  Dedupe.generated e ->
  Dedupe.richness_score (PDict e)
  = Json.Return
      (Dedupe.list_length (dict_get e (py "definitions"))
       + Dedupe.list_length (dict_get e (py "fixed_expressions"))
       + Dedupe.list_length (dict_get e (py "wordforms"))
       + Dedupe.list_length (dict_get e (py "udtale"))
       + Dedupe.orddannelser_count (dict_get e (py "orddannelser"))).
Proof. intros H. now apply generated_scores. Qed.

(** The Entry of [page_hus] scores 1 + 2 + 4 + 2 + 2. *)
Lemma richness_of_generated_entry_witness :
  exists e,
    outcome (parse_entry (py "hus.html") Pages.page_hus) = Ok (Some e)
    /\ Dedupe.richness_score (PDict e) = Json.Return 11.
Proof.
  eexists. split; [vm_compute; reflexivity|].
  rewrite richness_of_generated_entry.
  - reflexivity.
  - exists (py "hus.html"), Pages.page_hus. vm_compute; reflexivity.
Defined.

Lemma dedupe_succeeds (entries : list pyval) :
  Forall Dedupe.groupable entries -> Dedupe.all_score entries ->
  exists unique, snd (Dedupe.dedupe entries) = Json.Return unique.
Proof.
  intros Hall Hscore. unfold Dedupe.dedupe.
  change (@nil (pyval * list pyval)) with (Dedupe.grouped []).
  rewrite (grouping_succeeds entries [] (Forall_nil _) Hall). cbn [app].
  destruct (first_keys_facts entries Hall) as [_ Hin].
  destruct (traverse_succeeds
              (fun kv : pyval * list pyval => Dedupe.max_by_richness (snd kv))
              (Dedupe.grouped entries)) as (unique & Hu).
  - unfold Dedupe.grouped. apply Forall_forall. intros kv Hkv.
    apply in_map_iff in Hkv as (k & <- & Hk). cbn [snd].
    apply max_by_richness_succeeds.
    + apply Hin in Hk as (e & He & <-). intros Hnil.
      assert (Hf : In e (filter (Dedupe.same_key (Dedupe.key_of e)) entries)).
      { apply filter_In. split; [exact He|]. apply key_eqb_refl.
        rewrite Forall_forall in Hall. now apply groupable_key, Hall. }
      rewrite Hnil in Hf. destruct Hf.
    + unfold Dedupe.all_score in *. rewrite Forall_forall in *.
      intros e He. apply filter_In in He as [He _]. now apply Hscore.
  - exists unique. now rewrite Hu.
Qed.

Lemma main_step_generated (page : str -> loc) (st st' : batch) (fn : str) :
  Forall Dedupe.generated (fst st) -> outcome (main_step page st fn) = Ok st' ->
  Forall Dedupe.generated (fst st').
Proof.
  destruct st as [entries skipped]. cbn [fst]. intros He. unfold main_step.
  destruct (endswith fn (py ".html")); cbn [negb]; [|now intros [= <-]].
  rewrite outcome_bind.
  destruct (outcome (parse_entry fn (page fn))) as [[e|]|] eqn:Hp;
    intros [= <-]; cbn [fst]; [|exact He].
  apply Forall_app. split; [exact He|]. constructor; [|constructor].
  now exists fn, (page fn).
Qed.

(** X18.  Whatever the pages, the file [main] writes is one the
    deduplication accepts: every entry is an object with a string as
    headword and a score, so that grouping and selection end well. *)
Theorem dedupe_accepts_main_output (listdir : list str) (page : str -> loc)
  (entries : list dict) :
  outcome (main listdir page) = Ok entries ->
  Forall Dedupe.groupable (map PDict entries)
  /\ Dedupe.all_score (map PDict entries)
  /\ exists unique,
       snd (Dedupe.dedupe (map PDict entries)) = Json.Return unique.
Proof.
  unfold main. rewrite outcome_bind.
  destruct (outcome (main_loop listdir page)) as [[es skipped]|] eqn:Hloop;
    [|discriminate].
  rewrite outcome_bind, report_prints. cbn [outcome snd ret fst].
  intros [= <-].
  assert (Hgen : Forall Dedupe.generated es).
  { change es with (fst (es, skipped)). revert Hloop. unfold main_loop.
    apply for_each_invariant with
      (P := fun st : batch => Forall Dedupe.generated (fst st)); [|constructor].
    intros s x s'. apply main_step_generated. }
  assert (Hg : Forall Dedupe.groupable (map PDict es)).
  { apply Forall_map. eapply Forall_impl; [|exact Hgen].
    intros e He. now apply generated_scores. }
  assert (Hs : Dedupe.all_score (map PDict es)).
  { apply Forall_map. eapply Forall_impl; [|exact Hgen].
    intros e He. apply generated_scores in He as [He _].
    eexists. exact He. }
  split; [exact Hg|]. split; [exact Hs|]. now apply dedupe_succeeds.
Qed.

Lemma dedupe_accepts_main_output_witness :
  exists entries,
    outcome (main Pages.ddo_html Pages.ddo_page) = Ok entries
    /\ length entries = 2
    /\ exists unique,
         snd (Dedupe.dedupe (map PDict entries)) = Json.Return unique.
Proof.
  eexists. split; [vm_compute; reflexivity|]. split; [reflexivity|].
  apply (dedupe_accepts_main_output Pages.ddo_html Pages.ddo_page).
  vm_compute; reflexivity.
Defined.

End Composition.

(* ================================================================== *)
(** * The pages that raise *)
(* ================================================================== *)

Section Raising.

(** The walk over the siblings is one loop over the boxes it looks at. *)
Lemma collect_details_flat (ud_id : str) (above : list (str * attrs))
  (sibs : list node) :
  forall details,
    collect_details ud_id above sibs details
    = for_each (box_detail ud_id) (Output.detail_boxes above sibs) details.
Proof.
  induction sibs as [|node rest IH]; intros details; [reflexivity|].
  cbn [collect_details Output.detail_boxes].
  destruct (negb (truthy node)); [reflexivity|].
  destruct (is_tag node); [|apply IH].
  destruct (has_name "div" node && startswith (get_id node) (py "udtryk-"));
    [reflexivity|].
  destruct (has_class "definitionIndent" node); [|apply IH].
  rewrite for_each_app. apply bind_ext. intros a. apply IH.
Qed.

Lemma box_detail_raises (ud_id : str) (details : list pyval) (box : loc) :
  (exists e, outcome (box_detail ud_id details box) = Raise e)
  <-> Output.box_raises ud_id box.
Proof.
  unfold box_detail, Output.box_raises, Output.example_box, Output.is_sprogbrug.
  destruct (nonempty ud_id
            && startswith (get_id (here box)) (ud_id ++ py "-betydning")).
  { split; [intros [e He]; discriminate | intros [H _]; discriminate]. }
  destruct (has_class "onym" (here box)).
  { split; [intros [e He]; discriminate | intros [H _]; discriminate]. }
  destruct (has_class "rel-begreber" (here box)).
  { split; [intros [e He]; discriminate | intros [H _]; discriminate]. }
  destruct (has_class "grammatik" (here box)).
  { split; [intros [e He]; discriminate | intros [H _]; discriminate]. }
  cbn [negb andb].
  destruct (match select_one [with_class (tag_ "span") "stempel"] box with
            | Some s => str_eqb (get_text "" (here s)) (py "SPROGBRUG")
            | None => false
            end).
  { split; [|intros [H _]; discriminate].
    destruct (select_one [with_class (tag_ "span") "tekstnormal"] box);
      intros [e He]; discriminate. }
  cbn [negb].
  destruct (select_one [with_class (tag_ "div") "citat-box"] box) as [cite|].
  - rewrite outcome_bind, citation_outcome.
    destruct (Output.citat_of cite) eqn:Hc.
    + split; [intros [e He]; discriminate|].
      intros [_ (c & [= <-] & H)]. rewrite Hc in H. discriminate.
    + split; [|intros _; now exists AttributeError].
      intros _. split; [reflexivity|]. now exists cite.
  - split; [intros [e He]; discriminate|].
    intros [_ (c & H & _)]. discriminate.
Qed.

Lemma fixed_expression_raises (out : list pyval) (ud : loc) :
  (exists e, outcome (fixed_expression out ud) = Raise e)
  <-> Output.expression_raises ud.
Proof.
  unfold fixed_expression, Output.expression_raises, Output.has_match.
  destruct (select_one [with_class (tag_ "span") "match"] ud) as [m|].
  - rewrite outcome_bind, collect_details_flat. cbn [Shape.is_some].
    rewrite <- (for_each_raises (box_detail (get_id (here ud)))
                  (Output.box_raises (get_id (here ud)))
                  (fun s x => box_detail_raises (get_id (here ud)) s x)
                  (Output.detail_boxes (up ud) (next ud)) []).
    destruct (outcome (for_each (box_detail (get_id (here ud)))
                         (Output.detail_boxes (up ud) (next ud)) []))
      as [details|e].
    + split; [intros [e He]; discriminate|]. intros [_ [e He]]. discriminate.
    + split; [intros _; split; [reflexivity|now exists e]|].
      intros _. now exists e.
  - split; [intros [e He]; discriminate | intros [H _]; discriminate].
Qed.

Lemma parse_fixed_expressions_raises (soup : loc) :
  (exists e, outcome (parse_fixed_expressions soup) = Raise e)
  <-> Exists Output.expression_raises (Output.fixed_expression_containers soup).
Proof.
  unfold parse_fixed_expressions, Output.fixed_expression_containers.
  destruct (select_one [with_class (tag_ "div") "artikel"] soup) as [art|].
  - destruct (select_one [with_id any "content-faste-udtryk"] art) as [sec|].
    + apply for_each_raises. intros s x. apply fixed_expression_raises.
    + split; [intros [e He]; discriminate | intros H; inversion H].
  - split; [intros [e He]; discriminate | intros H; inversion H].
Qed.

(** X19.  [parse_fixed_expressions] raises exactly when, after some
    expression container that has a match span, the walk over the
    following siblings comes to a box of none of the five other kinds the
    first citation box of which has no citation text; and the details of
    a container are gathered by one loop over the boxes the walk looks
    at. *)
Theorem parse_fixed_expressions_raises_iff (soup : loc) :
  ((exists e, outcome (parse_fixed_expressions soup) = Raise e)
   <-> Exists Output.expression_raises (Output.fixed_expression_containers soup))
  /\ (forall ud details,
         collect_details (get_id (here ud)) (up ud) (next ud) details
         = for_each (box_detail (get_id (here ud)))
                    (Output.detail_boxes (up ud) (next ud)) details).
Proof.
  split; [apply parse_fixed_expressions_raises|].
  intros ud details. apply collect_details_flat.
Qed.

(** The container of [page_expression_without_citat] raises. *)
Lemma parse_fixed_expressions_raises_iff_witness :
  Exists Output.expression_raises
         (Output.fixed_expression_containers Pages.page_expression_without_citat).
Proof.
  apply (proj1 (parse_fixed_expressions_raises_iff
                  Pages.page_expression_without_citat)).
  exists AttributeError. vm_compute; reflexivity.
Defined.

Lemma parse_entry_raises (fn : str) (soup : loc) :
  (exists e, outcome (parse_entry fn soup) = Raise e) <-> Output.page_raises soup.
Proof.
  unfold Output.page_raises.
  pose proof (parse_fixed_expressions_raises soup) as Hfixed.
  assert (Hdefs : (exists e, outcome (parse_definitions soup fn) = Raise e)
                  <-> Exists Output.sense_raises (Shape.number_markers soup)).
  { unfold parse_definitions, Shape.number_markers.
    destruct (find_id "content-betydninger" soup) as [container|].
    - apply for_each_raises. intros s x. apply sense_raises_iff.
    - split; [intros [e He]; discriminate | intros H; inversion H]. }
  assert (Hordd : (exists e, outcome (parse_orddannelser soup) = Raise e)
                  <-> Exists (fun box => Output.category box = None)
                             (Output.orddannelser_boxes soup)).
  { rewrite parse_orddannelser_loop. apply for_each_raises.
    intros s x. rewrite orddannelser_step_outcome.
    destruct (Output.category x); split; try discriminate.
    - intros [e He]. discriminate.
    - reflexivity.
    - intros _. now exists AttributeError. }
  unfold parse_entry.
  destruct (select_one [with_class (tag_ "div") "artikel"] soup) as [art|].
  2:{ split; [intros [e He]; discriminate|]. intros (a & H & _). discriminate. }
  destruct (select_one (banner "match") art) as [head|] eqn:Hhead.
  2:{ split; [|intros _; now exists AttributeError].
      intros _. exists art. split; [reflexivity|]. now left. }
  cbn [deref]. rewrite bind_ret_l. cbv zeta.
  rewrite outcome_bind.
  destruct (parse_udtale_returns soup fn) as [rows ->].
  rewrite outcome_bind.
  destruct (outcome (parse_definitions soup fn)) as [definitions|e1].
  2:{ split; [|intros _; now exists e1].
      intros _. exists art. split; [reflexivity|]. right; left.
      apply Hdefs. now exists e1. }
  rewrite outcome_bind.
  destruct (outcome (parse_fixed_expressions soup)) as [fixed|e2].
  2:{ split; [|intros _; now exists e2].
      intros _. exists art. split; [reflexivity|]. right; right; left.
      apply Hfixed. now exists e2. }
  rewrite outcome_bind.
  destruct (outcome (parse_orddannelser soup)) as [ordd|e3].
  2:{ split; [|intros _; now exists e3].
      intros _. exists art. split; [reflexivity|]. right; right; right.
      apply Hordd. now exists e3. }
  split; [intros [e He]; discriminate|].
  intros (a & [= <-] & [H|[H|[H|H]]]).
  - rewrite Hhead in H. discriminate.
  - apply Hdefs in H as [e He]. discriminate.
  - apply Hfixed in H as [e He]. discriminate.
  - apply Hordd in H as [e He]. discriminate.
Qed.

Lemma parse_entry_path_read (fn : str) (soup : loc) :
  parse_entry_path fn (Ok soup) = parse_entry fn soup.
Proof.
  unfold parse_entry_path, read. change (@nil str, Ok soup) with (ret soup).
  apply bind_ret_l.
Qed.

Lemma parse_entry_path_raises (fn : str) (file : res loc) :
  (exists e, outcome (parse_entry_path fn file) = Raise e)
  <-> Output.file_raises file.
Proof.
  destruct file as [soup|e]; cbn [Output.file_raises].
  - rewrite parse_entry_path_read. apply parse_entry_raises.
  - split; [intros _; exact I|]. intros _. now exists e.
Qed.

(** X20.  [parse_entry] raises exactly when the file cannot be opened or
    decoded, and then with the exception of line 267 and before anything
    is printed, or when the page read has the root article and lacks the
    headword banner, or a citation text in a bound sense, or a citation
    text in a fixed expression, or the category label of a word-formation
    box; whether it raises does not depend on the file name. *)
Theorem parse_entry_raises_iff (fn : str) (file : res loc) :
  ((exists e, outcome (parse_entry_path fn file) = Raise e)
   <-> Output.file_raises file)
  /\ (forall e, file = Raise e -> parse_entry_path fn file = ([], Raise e))
  /\ (forall soup, file = Ok soup ->
                   parse_entry_path fn file = parse_entry fn soup
                   /\ ((exists e, outcome (parse_entry fn soup) = Raise e)
                       <-> Output.page_raises soup)).
Proof.
  split; [apply parse_entry_path_raises|]. split.
  - now intros e ->.
  - intros soup ->. split; [apply parse_entry_path_read|].
    apply parse_entry_raises.
Qed.

Lemma parse_entry_raises_iff_witness :
  Output.file_raises (Raise UnicodeDecodeError)
  /\ Output.file_raises (Ok Pages.page_expression_without_citat)
  /\ ~ Output.file_raises (Ok Pages.page_hus).
Proof.
  split; [|split].
  - apply (proj1 (parse_entry_raises_iff (py "hus.html") _)).
    exists UnicodeDecodeError. reflexivity.
  - apply (proj1 (parse_entry_raises_iff (py "hus.html") _)).
    exists AttributeError. vm_compute; reflexivity.
  - intros H.
    apply (proj1 (parse_entry_raises_iff (py "hus.html") _)) in H as [e He].
    vm_compute in He. discriminate.
Defined.

Lemma main_step_path_raises (disk : str -> res loc) (st : batch) (fn : str) :
  (exists e, outcome (main_step_path disk st fn) = Raise e)
  <-> Shape.is_html fn = true /\ Output.file_raises (disk fn).
Proof.
  destruct st as [entries skipped]. unfold main_step_path, Shape.is_html.
  destruct (endswith fn (py ".html")); cbn [negb].
  - rewrite outcome_bind, <- (parse_entry_path_raises fn (disk fn)).
    destruct (outcome (parse_entry_path fn (disk fn))) as [[e|]|e].
    + split; [intros [e' He]; discriminate|]. intros [_ [e' He]]. discriminate.
    + split; [intros [e' He]; discriminate|]. intros [_ [e' He]]. discriminate.
    + split; [intros _; split; [reflexivity|now exists e]|].
      intros _. now exists e.
  - split; [intros [e He]; discriminate | intros [H _]; discriminate].
Qed.

Lemma file_passes_iff (file : res loc) :
  Output.file_passes file <-> ~ Output.file_raises file.
Proof.
  unfold Output.file_passes. destruct file as [soup|e]; cbn [Output.file_raises].
  - split.
    + now intros (s0 & [= <-] & H).
    + intros H. now exists soup.
  - split.
    + intros (s0 & H & _). discriminate.
    + intros H. now destruct H.
Qed.

Lemma main_path_read (listdir : list str) (page : str -> loc) :
  main_path listdir (fun fn => Ok (page fn)) = main listdir page.
Proof.
  unfold main_path, main, main_loop_path, main_loop.
  rewrite (for_each_ext (main_step_path (fun fn => Ok (page fn)))
                        (main_step page)); [reflexivity|].
  intros [entries skipped] fn. unfold main_step_path, main_step.
  now rewrite parse_entry_path_read.
Qed.

(** X21.  Given the listing of the directory, [main] comes to the writing
    of its file exactly when every name of the listing that ends in
    ".html" holds a file that is opened and decoded and whose page does
    not make [parse_entry] raise; names that do not end in ".html" never
    matter.  When every file is read, the run is the one of the pages. *)
Theorem main_returns_iff (listdir : list str) (disk : str -> res loc) :
  ((exists entries, outcome (main_path listdir disk) = Ok entries)
   <-> Forall (fun fn => Shape.is_html fn = true -> Output.file_passes (disk fn))
              listdir)
  /\ (forall page,
         (forall fn, disk fn = Ok (page fn)) ->
         main_path listdir disk = main listdir page).
Proof.
  split.
  2:{ intros page Hdisk. rewrite <- main_path_read.
      unfold main_path, main_loop_path.
      rewrite (for_each_ext (main_step_path disk)
                            (main_step_path (fun fn => Ok (page fn))));
        [reflexivity|].
      intros st fn. unfold main_step_path. now rewrite Hdisk. }
  pose proof (for_each_raises (main_step_path disk)
                (fun fn => Shape.is_html fn = true /\ Output.file_raises (disk fn))
                (main_step_path_raises disk) (sorted listdir) ([], [])) as Hloop.
  fold (main_loop_path listdir disk) in Hloop.
  unfold main_path. rewrite outcome_bind.
  destruct (outcome (main_loop_path listdir disk)) as [[es skipped]|e].
  - rewrite outcome_bind, report_prints. cbn [outcome snd ret fst].
    split; [|intros _; now exists es].
    intros _. apply Forall_forall. intros fn Hin Hhtml.
    apply file_passes_iff. intros Hraises.
    assert (Hex : Exists (fun fn => Shape.is_html fn = true
                                    /\ Output.file_raises (disk fn))
                         (sorted listdir)).
    { apply Exists_exists. exists fn. split; [|now split].
      eapply Permutation_in; [apply sorted_Permutation|exact Hin]. }
    apply Hloop in Hex as [e He]. discriminate.
  - split; [intros [entries H]; discriminate|].
    intros Hall. exfalso.
    destruct Hloop as [Hex _]. specialize (Hex (ex_intro _ e eq_refl)).
    apply Exists_exists in Hex as (fn & Hin & Hhtml & Hr).
    rewrite Forall_forall in Hall.
    apply (proj1 (file_passes_iff (disk fn))); [|exact Hr].
    apply Hall; [|exact Hhtml].
    eapply Permutation_in; [apply Permutation_sym, sorted_Permutation|exact Hin].
Qed.

(** Every ".html" file of [ddo_disk] passes; with "bil.html" not decodable
    the run aborts, although no page raises. *)
Lemma main_returns_iff_witness :
  Forall (fun fn => Shape.is_html fn = true
                    -> Output.file_passes (Pages.ddo_disk fn))
         Pages.ddo_html
  /\ main_path Pages.ddo_html Pages.ddo_disk
     = main Pages.ddo_html Pages.ddo_page
  /\ ~ Forall (fun fn => Shape.is_html fn = true
                         -> Output.file_passes (Pages.undecodable_disk fn))
              Pages.ddo_html.
Proof.
  split; [|split].
  - apply (proj1 (main_returns_iff Pages.ddo_html Pages.ddo_disk)).
    eexists. vm_compute; reflexivity.
  - apply (proj2 (main_returns_iff Pages.ddo_html Pages.ddo_disk)).
    reflexivity.
  - intros H.
    apply (proj1 (main_returns_iff Pages.ddo_html Pages.undecodable_disk)) in H
      as [entries He].
    vm_compute in He. discriminate.
Defined.

End Raising.

(* ================================================================== *)
(** * The card fields of an Entry *)
(* ================================================================== *)

Section Cards.

Lemma filter_all {X} (f : X -> bool) (l : list X) :
  forallb f l = true -> filter f l = l.
Proof.
  induction l as [|x l IH]; cbn [forallb filter]; [reflexivity|].
  intros H. apply andb_true_iff in H as [-> H]. now rewrite IH.
Qed.

Lemma remove_In (c x : char) (s : str) :
  In x (Dansk.remove c s) <-> In x s /\ x <> c.
Proof.
  unfold Dansk.remove. rewrite filter_In, negb_true_iff, N.eqb_neq. reflexivity.
Qed.

Lemma remove_id (c : char) (s : str) : ~ In c s -> Dansk.remove c s = s.
Proof.
  intros H. apply filter_all, forallb_forall. intros x Hx.
  apply negb_true_iff, N.eqb_neq. intros ->. now apply H.
Qed.

Lemma nonempty_false (s : str) : nonempty s = false <-> s = [].
Proof.
  unfold nonempty. rewrite negb_false_iff. apply str_eqb_eq.
Qed.

Lemma sanitize_str (s : str) :
  Dansk.sanitize (PStr s)
  = Json.Return (strip (Dansk.remove Dansk.brace_close
                          (Dansk.remove Dansk.brace_open s))).
Proof.
  unfold Dansk.sanitize. cbn [Dansk.truth].
  destruct (nonempty s) eqn:E; [reflexivity|].
  apply nonempty_false in E. now subst s.
Qed.

Lemma sanitize_stripped (v : pyval) (t : str) :
  Dansk.sanitize v = Json.Return t -> strip t = t.
Proof.
  unfold Dansk.sanitize. destruct (Dansk.truth v).
  - destruct v; try discriminate. intros [= <-]. apply strip_idempotent.
  - now intros [= <-].
Qed.

Lemma field_stripped (d : pyval) (k : string) :
  strip (Dansk.field d k) = Dansk.field d k.
Proof.
  unfold Dansk.field. destruct (Json.get d k (PStr [])) as [v|]; [|reflexivity].
  destruct (Dansk.sanitize v) as [t|] eqn:E; [|reflexivity].
  now apply sanitize_stripped in E.
Qed.

Lemma forallb_drop_while (p : char -> bool) (s : str) :
  forallb p (drop_while p s) = forallb p s.
Proof.
  induction s as [|c s IH]; [reflexivity|]. cbn [drop_while].
  destruct (p c) eqn:E; [|reflexivity]. cbn [forallb]. now rewrite E, IH.
Qed.

Lemma strip_nil (s : str) : strip s = [] <-> forallb isspace s = true.
Proof.
  unfold strip, lstrip_by. rewrite rstrip_by_nil. now rewrite forallb_drop_while.
Qed.

(** A line that ends with a text is not empty. *)
Lemma line_not_nil (num txt : str) :
  txt <> [] -> strip txt = txt -> strip (num ++ py " " ++ txt) <> [].
Proof.
  intros Hne Hst H. apply strip_nil in H.
  rewrite !forallb_app in H. apply andb_true_iff in H as [_ H].
  apply andb_true_iff in H as [_ H]. apply strip_nil in H. congruence.
Qed.

(** ** The records an Entry holds *)

Lemma examples_are_records (cites : list loc) (examples : list pyval) :
  Forall2 Output.example_of cites examples ->
  Forall Dansk.example_record examples.
Proof.
  induction 1 as [|cite ex cites examples (citat & _ & ->) _ IH]; constructor.
  - now eexists _, _.
  - exact IH.
Qed.

Lemma sense_card_record (fn : str) (out out' : list pyval) (num_tag : loc) :
  Forall Dansk.definition_record out ->
  outcome (sense fn out num_tag) = Ok out' ->
  Forall Dansk.definition_record out'.
Proof.
  intros Hout. unfold sense. destruct (find_indent num_tag) as [indent|].
  2:{ now intros [= <-]. }
  rewrite outcome_bind. fold Output.example_step.
  fold (Output.citat_boxes indent).
  destruct (outcome (for_each _ _ _)) as [examples|e] eqn:E; [|discriminate].
  intros [= <-]. apply examples_loop in E as (new & -> & Hnew).
  apply Forall_app. split; [exact Hout|]. constructor; [|constructor].
  eexists _, _, new. split; [reflexivity|].
  split; [|split; [|split; [|now apply examples_are_records in Hnew]]].
  - destruct (select_one (definition_box "onym") indent),
             (select_one (definition_box "rel-begreber") indent); reflexivity.
  - destruct (select_one
                [with_class (tag_ "span") "definition";
                 with_id_prefix (with_class (tag_ "div") "definitionBox")
                                "betydning-"] indent);
      [right; eexists|left];
      destruct (select_one (definition_box "onym") indent),
               (select_one (definition_box "rel-begreber") indent); reflexivity.
  - destruct (select_one (definition_box "onym") indent),
             (select_one (definition_box "rel-begreber") indent); reflexivity.
Qed.

Lemma generated_definitions (e : dict) :
  Dedupe.generated e ->
  exists definitions,
    dict_get e (py "definitions") = Some (PList definitions)
    /\ Forall Dansk.definition_record definitions.
Proof.
  intros (fn & soup & H).
  apply parse_entry_some in H
    as (art & head & udtale & defs & fixed & ordd & _ & _ & Hdefs & ->).
  exists defs. split; [reflexivity|].
  revert Hdefs. unfold parse_definitions.
  destruct (find_id "content-betydninger" soup) as [container|].
  - apply for_each_invariant with (P := Forall Dansk.definition_record);
      [|constructor].
    intros s x s'. apply sense_card_record.
  - intros [= <-]. constructor.
Qed.

(** ** sanitize *)

(** X22.  [sanitize] never fails at a string: what it gives holds no
    brace, has no white space at either end, and is left as it is when
    sanitized again. *)
Theorem sanitize_cleans (s : str) :
  exists t,
    Dansk.sanitize (PStr s) = Json.Return t
    /\ ~ In Dansk.brace_open t
    /\ ~ In Dansk.brace_close t
    /\ strip t = t
    /\ Dansk.sanitize (PStr t) = Json.Return t.
Proof.
  eexists. split; [apply sanitize_str|].
  set (t := strip _).
  assert (Hopen : ~ In Dansk.brace_open t).
  { intros H. apply strip_In, remove_In in H as [H _].
    apply remove_In in H as [_ H]. now apply H. }
  assert (Hclose : ~ In Dansk.brace_close t).
  { intros H. apply strip_In, remove_In in H as [_ H]. now apply H. }
  assert (Hstrip : strip t = t) by apply strip_idempotent.
  split; [exact Hopen|]. split; [exact Hclose|]. split; [exact Hstrip|].
  rewrite sanitize_str. now rewrite (remove_id _ t Hopen), (remove_id _ t Hclose), Hstrip.
Qed.

(** ** extract_definitions *)

Lemma definition_step_record (parts : list str) (d : pyval) :
  Dansk.definition_record d ->
  Dansk.definition_step parts d
  = Json.Return (if Dansk.has_definition d then parts ++ [Dansk.line_of d]
                 else parts).
Proof.
  intros (dd & num & exs & -> & Hn & Hd & _).
  unfold Dansk.definition_step, Dansk.has_definition, Dansk.line_of, Dansk.field, Json.get.
  rewrite Hn. cbn [Json.and_then]. rewrite sanitize_str. cbn [Json.and_then].
  destruct Hd as [Hd|[text Hd]]; rewrite Hd.
  - reflexivity.
  - rewrite sanitize_str. cbn [Json.and_then].
    now destruct (nonempty _).
Qed.

Lemma definitions_loop (ds : list pyval) :
  Forall Dansk.definition_record ds ->
  forall parts,
    Json.fold Dansk.definition_step ds parts
    = Json.Return (parts ++ map Dansk.line_of (filter Dansk.has_definition ds)).
Proof.
  induction 1 as [|d ds Hd _ IH]; intros parts; cbn [Json.fold filter].
  - cbn [map]. now rewrite app_nil_r.
  - rewrite (definition_step_record parts d Hd). cbn [Json.and_then].
    destruct (Dansk.has_definition d); rewrite IH; [|reflexivity].
    cbn [map]. now rewrite <- app_assoc.
Qed.

Lemma extract_definitions_generated (e : dict) :
  Dedupe.generated e ->
  Dansk.extract_definitions (PDict e)
  = Json.Return
      (join (py "<br>")
            (map Dansk.line_of
                 (filter Dansk.has_definition (Dansk.definitions_of e)))).
Proof.
  intros H. apply generated_definitions in H as (defs & Hget & Hrec).
  unfold Dansk.extract_definitions, Dansk.definitions_of, Json.get.
  rewrite Hget. cbn [Json.and_then Dansk.iter].
  now rewrite (definitions_loop defs Hrec).
Qed.

Lemma lines_not_nil (ds : list pyval) :
  Forall (fun l => l <> [])
         (map Dansk.line_of (filter Dansk.has_definition ds)).
Proof.
  apply Forall_map, Forall_forall. intros d Hd.
  apply filter_In in Hd as [_ Hd]. unfold Dansk.has_definition in Hd.
  apply nonempty_true in Hd. unfold Dansk.line_of.
  apply line_not_nil; [exact Hd|apply field_stripped].
Qed.

(** X23.  For an Entry a page gives, [extract_definitions] returns: the
    lines of the definitions that have a text, joined by "<br>", a
    definition without text (null, or nothing but braces and white space)
    giving no line; the field is empty exactly when no definition has a
    text. *)
Theorem definitions_field_of_generated (e : dict) :
  Dedupe.generated e ->
  Dansk.extract_definitions (PDict e)
  = Json.Return
      (join (py "<br>")
            (map Dansk.line_of
                 (filter Dansk.has_definition (Dansk.definitions_of e))))
  /\ (Dansk.extract_definitions (PDict e) = Json.Return []
      <-> Forall (fun d => Dansk.field d "definition" = [])
                 (Dansk.definitions_of e)).
Proof.
  intros H. pose proof (extract_definitions_generated e H) as Hex.
  split; [exact Hex|]. rewrite Hex. split.
  - intros [= Hjoin]. apply Forall_forall. intros d Hd.
    destruct (Dansk.has_definition d) eqn:E.
    + exfalso. revert Hjoin. apply join_not_nil; [|apply lines_not_nil].
      intros Hnil. apply map_eq_nil in Hnil.
      assert (Hin : In d (filter Dansk.has_definition (Dansk.definitions_of e)))
        by now apply filter_In.
      rewrite Hnil in Hin. destruct Hin.
    + now apply nonempty_false in E.
  - intros Hall. f_equal.
    replace (filter Dansk.has_definition (Dansk.definitions_of e)) with (@nil pyval);
      [reflexivity|].
    symmetry. clear Hex. induction Hall as [|d ds Hd _ IH]; [reflexivity|].
    cbn [filter]. unfold Dansk.has_definition at 1. now rewrite Hd.
Qed.

Lemma definitions_field_of_generated_witness :
  exists e,
    outcome (parse_entry (py "hus.html") Pages.page_hus) = Ok (Some e)
    /\ Dansk.extract_definitions (PDict e) = Json.Return (py "1. bygning").
Proof.
  eexists. split; [vm_compute; reflexivity|].
  match goal with
  | |- Dansk.extract_definitions (PDict ?e) = _ =>
      assert (G : Dedupe.generated e)
        by (exists (py "hus.html"), Pages.page_hus; vm_compute; reflexivity);
      rewrite (proj1 (definitions_field_of_generated e G))
  end.
  vm_compute; reflexivity.
Defined.

(** ** extract_first_example *)

Lemma first_example_records (exs : list pyval) :
  Forall Dansk.example_record exs ->
  Dansk.first_example exs
  = Json.Return
      (hd_error (filter nonempty (map (fun ex => Dansk.field ex "text") exs))).
Proof.
  induction 1 as [|ex exs (text & source & ->) _ IH]; [reflexivity|].
  assert (Hget : Json.get (PDict [(py "text", PStr text); (py "source", source)])
                          "text" (PStr [])
                 = Json.Return (PStr text)) by reflexivity.
  assert (Hf : Dansk.field (PDict [(py "text", PStr text); (py "source", source)])
                           "text"
               = strip (Dansk.remove Dansk.brace_close
                          (Dansk.remove Dansk.brace_open text))).
  { unfold Dansk.field. rewrite Hget. now rewrite sanitize_str. }
  cbn [Dansk.first_example map filter].
  rewrite Hget, Hf. cbn [Json.and_then]. rewrite sanitize_str.
  cbn [Json.and_then].
  destruct (nonempty _); [reflexivity|exact IH].
Qed.

Lemma first_example_in_records (ds : list pyval) :
  Forall Dansk.definition_record ds ->
  Dansk.first_example_in ds
  = Json.Return
      (hd [] (filter nonempty
                (map (fun ex => Dansk.field ex "text")
                     (flat_map Dansk.examples_of ds)))).
Proof.
  induction 1 as [|d ds (dd & num & exs & -> & _ & _ & Hex & Hrec) _ IH];
    [reflexivity|].
  cbn [Dansk.first_example_in flat_map]. unfold Dansk.examples_of at 1.
  unfold Json.get. rewrite Hex. cbn [Json.and_then].
  assert (Hiter : Dansk.iter (if Dansk.truth (PList exs) then PList exs
                              else PList []) = Json.Return exs).
  { now destruct exs. }
  rewrite Hiter. cbn [Json.and_then].
  rewrite (first_example_records exs Hrec). cbn [Json.and_then].
  rewrite map_app, filter_app.
  destruct (filter nonempty (map (fun ex => Dansk.field ex "text") exs));
    [exact IH|reflexivity].
Qed.

(** X24.  For an Entry a page gives, [extract_first_example] returns the
    first text that is not empty once sanitized, among the examples of
    all definitions in the order of the file, and the empty string when
    there is none. *)
Theorem first_example_of_generated (e : dict) :
  Dedupe.generated e ->
  Dansk.extract_first_example (PDict e)
  = Json.Return (hd [] (filter nonempty (Dansk.example_texts e))).
Proof.
  intros H. apply generated_definitions in H as (defs & Hget & Hrec).
  unfold Dansk.extract_first_example, Dansk.example_texts,
    Dansk.definitions_of, Json.get.
  rewrite Hget. cbn [Json.and_then Dansk.iter].
  now apply first_example_in_records.
Qed.

Lemma first_example_of_generated_witness :
  exists e,
    outcome (parse_entry (py "hus.html") Pages.page_hus) = Ok (Some e)
    /\ Dansk.extract_first_example (PDict e) = Json.Return (py "et stort hus").
Proof.
  eexists. split; [vm_compute; reflexivity|].
  rewrite first_example_of_generated.
  - vm_compute; reflexivity.
  - exists (py "hus.html"), Pages.page_hus. vm_compute; reflexivity.
Defined.

(** ** From the pages to the cards *)

Lemma main_entries_generated (listdir : list str) (page : str -> loc)
  (entries : list dict) :
  outcome (main listdir page) = Ok entries -> Forall Dedupe.generated entries.
Proof.
  unfold main. rewrite outcome_bind.
  destruct (outcome (main_loop listdir page)) as [[es skipped]|] eqn:Hloop;
    [|discriminate].
  rewrite outcome_bind, report_prints. cbn [outcome snd ret fst].
  intros [= <-]. change es with (fst (es, skipped)).
  revert Hloop. unfold main_loop.
  apply for_each_invariant with
    (P := fun st : batch => Forall Dedupe.generated (fst st)); [|constructor].
  intros s x s'. apply main_step_generated.
Qed.

(** X25.  From the pages to the cards: when [main] returns and the
    deduplication of what it wrote returns, every entry kept is an Entry
    of [main], and both its Definition field and its Example field are
    computed without exception. *)
Theorem card_fields_of_pipeline (listdir : list str) (page : str -> loc)
  (entries : list dict) (unique : list pyval) (u : pyval) :
  outcome (main listdir page) = Ok entries ->
  snd (Dedupe.dedupe (map PDict entries)) = Json.Return unique ->
  In u unique ->
  exists e,
    u = PDict e /\ In e entries
    /\ Dansk.extract_definitions u
       = Json.Return
           (join (py "<br>")
                 (map Dansk.line_of
                      (filter Dansk.has_definition (Dansk.definitions_of e))))
    /\ Dansk.extract_first_example u
       = Json.Return (hd [] (filter nonempty (Dansk.example_texts e))).
Proof.
  intros Hmain Hdedupe Hu.
  apply main_entries_generated in Hmain.
  apply dedupe_output in Hdedupe as (_ & Hsub & _).
  apply Hsub, in_map_iff in Hu as (e & <- & He).
  rewrite Forall_forall in Hmain. specialize (Hmain e He).
  exists e. split; [reflexivity|]. split; [exact He|]. split.
  - now apply extract_definitions_generated.
  - apply generated_definitions in Hmain as (defs & Hget & Hrec).
    unfold Dansk.extract_first_example, Dansk.example_texts,
      Dansk.definitions_of, Json.get.
    rewrite Hget. cbn [Json.and_then Dansk.iter].
    now apply first_example_in_records.
Qed.

Lemma card_fields_of_pipeline_witness :
  exists entries unique u,
    outcome (main Pages.ddo_html Pages.ddo_page) = Ok entries
    /\ snd (Dedupe.dedupe (map PDict entries)) = Json.Return unique
    /\ In u unique
    /\ Dansk.extract_definitions u = Json.Return (py "1. bygning").
Proof.
  eexists _, _, _.
  split; [vm_compute; reflexivity|].
  split; [vm_compute; reflexivity|].
  split; [left; reflexivity|].
  match goal with
  | |- Dansk.extract_definitions ?u = _ =>
      destruct (card_fields_of_pipeline Pages.ddo_html Pages.ddo_page _ _ u
                  ltac:(vm_compute; reflexivity) ltac:(vm_compute; reflexivity)
                  ltac:(left; reflexivity))
        as (e & He & _ & Hdef & _)
  end.
  injection He as <-. rewrite Hdef. vm_compute; reflexivity.
Defined.

End Cards.
